(** * py-evm execution core: a shallow embedding and its checked properties

    The development follows the Python sources under [eth/vm]: the fork
    modules ([forks/frontier], [forks/spurious_dragon], [forks/berlin],
    [forks/london]), the opcode logic ([logic/flow.py], [logic/memory.py])
    and the driver ([base.py]).  Python integers are [Z], byte strings are
    lists of [byte], dictionaries and sets are stdpp's [gmap] and [gset].
    Code that mutates an object and may raise is a function from the object
    to the mutated object and an [Outcome]. *)

From Stdlib Require Import ZArith Lia.
From Stdlib.Strings Require Import Byte.
From stdpp Require Import gmap list.

#[local] Open Scope Z_scope.
#[local] Set Warnings "-clear-no-such-hyp".

(** ** Byte strings *)

Abbreviation bytes := (list byte).
Abbreviation Address := (list byte).

#[global] Instance byte_eq_dec : EqDecision byte.
Proof.
  intros a b. destruct (N.eq_dec (Byte.to_N a) (Byte.to_N b)) as [E|E].
  - left. apply (f_equal Byte.of_N) in E. rewrite !Byte.of_to_N in E. congruence.
  - right. intros ->. congruence.
Defined.

#[global] Instance byte_countable : Countable byte :=
  inj_countable Byte.to_N Byte.of_N Byte.of_to_N.

Definition byte_to_Z (b : byte) : Z := Z.of_N (Byte.to_N b).

Definition byte_of_Z (z : Z) : byte :=
  default x00%byte (Byte.of_N (Z.to_N (z mod 256))).

(** [bytes.rjust(width, fill)]: pads on the left, never truncates. *)
Definition rjust (width : nat) (fill : byte) (v : bytes) : bytes :=
  replicate (width - length v) fill ++ v.

(** The slice [v[-n:]] for [n > 0]: the last [n] bytes, all of [v] when it is shorter. *)
Definition last_bytes (n : nat) (v : bytes) : bytes :=
  drop (length v - n) v.

(** ** Exceptions and the execution monad *)

Inductive Exn : Type :=
  | StackDepthLimit
  | InsufficientFunds
  | OutOfGas
  | InsufficientStack
  | InvalidJumpDestination
  | InvalidInstruction
  | ContractCreationCollision
  | Revert
  | ValidationError
  | SerializationError
  | AttributeError
  | EVMMissingData.

#[global] Instance Exn_eq_dec : EqDecision Exn.
Proof. solve_decision. Defined.

(** The subclasses of [VMError] in [eth.exceptions]. *)
Definition is_VMError (e : Exn) : bool :=
  match e with
  | StackDepthLimit | InsufficientFunds | OutOfGas | InsufficientStack
  | InvalidJumpDestination | InvalidInstruction | ContractCreationCollision
  | Revert => true
  | ValidationError | SerializationError | AttributeError | EVMMissingData => false
  end.

(** Modelled from the spec: a [VMError] makes the call consume all gas,
    except [Revert], which "refunds unused gas".  The error of a frame is
    always a [VMError]. *)
Definition burns_gas (e : Exn) : bool :=
  match e with
  | Revert => false
  | _ => true
  end.

Inductive Outcome (A : Type) : Type :=
  | Returned (a : A)
  | Raised (e : Exn).
Arguments Returned {A} a.
Arguments Raised {A} e.

(** A method of a mutable object of type [S]: the object after the call and
    what the call returned or raised.  A raise keeps the mutations made
    before it, as in Python. *)
Definition Exec (S A : Type) : Type := S → S * Outcome A.

Definition ret {S A} (a : A) : Exec S A := λ s, (s, Returned a).
Definition raise {S A} (e : Exn) : Exec S A := λ s, (s, Raised e).
Definition bind {S A B} (m : Exec S A) (k : A → Exec S B) : Exec S B :=
  λ s, match m s with
       | (s', Returned a) => k a s'
       | (s', Raised e) => (s', Raised e)
       end.
Definition lift {S A} (o : Outcome A) : Exec S A := λ s, (s, o).
Definition modify {S} (f : S → S) : Exec S unit := λ s, (f s, Returned tt).
Definition gets {S A} (f : S → A) : Exec S A := λ s, (s, Returned (f s)).

Declare Scope exec_scope.
Delimit Scope exec_scope with exec.
Notation "x <- m ;; k" := (bind m (λ x, k))
  (at level 100, m at next level, right associativity) : exec_scope.
Notation "m ;;; k" := (bind m (λ _, k))
  (at level 100, right associativity) : exec_scope.
#[local] Open Scope exec_scope.

(** [for x in l: f(x)] *)
Fixpoint for_each {S A} (l : list A) (f : A → Exec S unit) : Exec S unit :=
  match l with
  | [] => ret tt
  | x :: l' => f x ;;; for_each l' f
  end.

(** ** Data model *)

Record Account : Type := mkAccount {
  acct_nonce : Z;
  acct_balance : Z;
  acct_code : bytes;
  acct_storage : gmap Z Z
}.

Definition empty_account : Account := mkAccount 0 0 [] ∅.

(** Everything [snapshot]/[revert] cover: the accounts and the access sets. *)
Record World : Type := mkWorld {
  accounts : gmap Address Account;
  warm_addresses : gset Address;
  warm_slots : gset (Address * Z)
}.

Record ExecutionContext : Type := mkExecutionContext {
  coinbase : Address;
  block_number : Z;
  base_fee_per_gas : option Z
}.

Record State : Type := mkState {
  world : World;
  checkpoints : list World;
  execution_context : ExecutionContext
}.

Record Message : Type := mkMessage {
  msg_gas : Z;
  msg_to : Address;
  msg_sender : Address;
  msg_value : Z;
  msg_data : bytes;
  msg_code : bytes;
  msg_storage_address : Address;
  msg_depth : Z;
  msg_is_create : bool;
  msg_is_static : bool;
  msg_should_transfer_value : bool
}.

Record Transaction : Type := mkTransaction {
  tx_nonce : Z;
  tx_gas : Z;
  tx_gas_price : Z;
  tx_max_fee_per_gas : Z;
  tx_max_priority_fee_per_gas : Z;
  tx_to : Address;
  tx_sender : Address;
  tx_value : Z;
  tx_data : bytes;
  tx_access_list : list (Address * list Z);
  tx_intrinsic_gas : Z
}.

Record TransactionContext : Type := mkTransactionContext {
  gas_price : Z;
  origin : Address
}.

(** The stack holds integers and byte strings side by side, as pushed. *)
Inductive StackItem : Type :=
  | IntItem (v : Z)
  | BytesItem (b : bytes).

Record CodeStream : Type := mkCodeStream {
  raw_code_bytes : bytes;
  program_counter : Z
}.

(** The per-call frame: [{msg, tx_ctx, stack, memory, code_iterator,
    gas_remaining, gas_refund, return_data, accounts_to_delete, error?,
    output}]. *)
Record Computation : Type := mkComputation {
  msg : Message;
  transaction_context : TransactionContext;
  stack : list StackItem;
  memory : bytes;
  code : CodeStream;
  gas_remaining : Z;
  gas_refunded : Z;
  return_data : bytes;
  output : bytes;
  error : option Exn;
  accounts_to_delete : list (Address * Address)
}.

Definition set_stack (st : list StackItem) (c : Computation) : Computation :=
  mkComputation (msg c) (transaction_context c) st (memory c) (code c)
    (gas_remaining c) (gas_refunded c) (return_data c) (output c) (error c)
    (accounts_to_delete c).
Definition set_memory (m : bytes) (c : Computation) : Computation :=
  mkComputation (msg c) (transaction_context c) (stack c) m (code c)
    (gas_remaining c) (gas_refunded c) (return_data c) (output c) (error c)
    (accounts_to_delete c).
Definition set_program_counter (pc : Z) (c : Computation) : Computation :=
  mkComputation (msg c) (transaction_context c) (stack c) (memory c)
    (mkCodeStream (raw_code_bytes (code c)) pc)
    (gas_remaining c) (gas_refunded c) (return_data c) (output c) (error c)
    (accounts_to_delete c).
Definition set_gas_remaining (g : Z) (c : Computation) : Computation :=
  mkComputation (msg c) (transaction_context c) (stack c) (memory c) (code c)
    g (gas_refunded c) (return_data c) (output c) (error c)
    (accounts_to_delete c).
Definition set_gas_refunded (g : Z) (c : Computation) : Computation :=
  mkComputation (msg c) (transaction_context c) (stack c) (memory c) (code c)
    (gas_remaining c) g (return_data c) (output c) (error c)
    (accounts_to_delete c).
Definition set_output (o : bytes) (c : Computation) : Computation :=
  mkComputation (msg c) (transaction_context c) (stack c) (memory c) (code c)
    (gas_remaining c) (gas_refunded c) (return_data c) o (error c)
    (accounts_to_delete c).
Definition set_error (e : Exn) (c : Computation) : Computation :=
  mkComputation (msg c) (transaction_context c) (stack c) (memory c) (code c)
    (gas_remaining c) (gas_refunded c) (return_data c) (output c) (Some e)
    (accounts_to_delete c).

(** ** The state facade

    [eth/vm/state.py] and [eth/db/account.py] lie outside the modules
    embedded here; the operations below follow the specification's section
    4.4 and its data model. *)

Definition set_world (w : World) (s : State) : State :=
  mkState w (checkpoints s) (execution_context s).

Definition set_accounts (a : gmap Address Account) (s : State) : State :=
  set_world (mkWorld a (warm_addresses (world s)) (warm_slots (world s))) s.

(** Modelled from the spec: the account of an address, "created lazily on
    first write"; an absent account reads as the empty one. *)
Definition get_account (s : State) (a : Address) : Account :=
  default empty_account (accounts (world s) !! a).

(** Modelled from the spec: a write creates the account when it is absent. *)
Definition put_account (a : Address) (acc : Account) (s : State) : State :=
  set_accounts (<[a := acc]> (accounts (world s))) s.

(** Modelled from the spec: [get_balance], [set_balance], [delta_balance]
    of the state facade. *)
Definition get_balance (s : State) (a : Address) : Z :=
  acct_balance (get_account s a).

(** Modelled from the spec: [set_balance] of the state facade. *)
Definition set_balance (a : Address) (b : Z) (s : State) : State :=
  let acc := get_account s a in
  put_account a (mkAccount (acct_nonce acc) b (acct_code acc) (acct_storage acc)) s.

(** Modelled from the spec: [delta_balance] adds to the balance read.  This
    is the state the operation leaves when the new balance is a [u256];
    [checked_delta_balance] below is the operation with the validation of
    the new balance. *)
Definition delta_balance (a : Address) (delta : Z) (s : State) : State :=
  set_balance a (get_balance s a + delta) s.

(** Modelled from the spec: a balance is a [u256].  [set_balance] validates
    the new balance first: a value that is negative or does not fit 256 bits
    raises [ValidationError] and nothing is written. *)
Definition validate_uint256 (value : Z) : Outcome unit :=
  if (0 <=? value) && (value <? 2 ^ 256) then Returned tt else Raised ValidationError.

Definition checked_delta_balance (a : Address) (delta : Z) : Exec State unit :=
  balance <- gets (λ s, get_balance s a) ;;
  lift (validate_uint256 (balance + delta)) ;;;
  modify (delta_balance a delta).

(** Modelled from the spec: [get_nonce], [set_nonce], [increment_nonce]. *)
Definition get_nonce (s : State) (a : Address) : Z :=
  acct_nonce (get_account s a).

(** Modelled from the spec: [set_nonce] of the state facade. *)
Definition set_nonce (a : Address) (n : Z) (s : State) : State :=
  let acc := get_account s a in
  put_account a (mkAccount n (acct_balance acc) (acct_code acc) (acct_storage acc)) s.

(** Modelled from the spec: [increment_nonce], "[nonce += 1]". *)
Definition increment_nonce (a : Address) (s : State) : State :=
  set_nonce a (get_nonce s a + 1) s.

(** Modelled from the spec: [get_code], [set_code]. *)
Definition get_code (s : State) (a : Address) : bytes :=
  acct_code (get_account s a).

(** Modelled from the spec: [set_code] of the state facade. *)
Definition set_code (a : Address) (c : bytes) (s : State) : State :=
  let acc := get_account s a in
  put_account a (mkAccount (acct_nonce acc) (acct_balance acc) c (acct_storage acc)) s.

(** Modelled from the spec: [get_storage], [set_storage]. *)
Definition get_storage (s : State) (a : Address) (slot : Z) : Z :=
  default 0 (acct_storage (get_account s a) !! slot).

(** Modelled from the spec: [set_storage] of the state facade. *)
Definition set_storage (a : Address) (slot v : Z) (s : State) : State :=
  let acc := get_account s a in
  put_account a
    (mkAccount (acct_nonce acc) (acct_balance acc) (acct_code acc)
       (<[slot := v]> (acct_storage acc))) s.

(** Modelled from the spec: [touch_account] writes the account back
    unchanged, so that a touched account exists. *)
Definition touch_account (a : Address) (s : State) : State :=
  put_account a (get_account s a) s.

(** Modelled from the spec: [account_exists], [account_is_empty] ("empty
    iff nonce=0, balance=0, code=∅"), [delete_account]. *)
Definition account_exists (s : State) (a : Address) : bool :=
  bool_decide (is_Some (accounts (world s) !! a)).

(** Modelled from the spec: an account is "empty iff nonce=0, balance=0, code=∅". *)
Definition account_is_empty (s : State) (a : Address) : bool :=
  (get_nonce s a =? 0) && (get_balance s a =? 0) && bool_decide (get_code s a = []).

(** Modelled from the spec: [delete_account] removes the account. *)
Definition delete_account (a : Address) (s : State) : State :=
  set_accounts (delete a (accounts (world s))) s.

(** Modelled from the spec: the collision test "target has nonzero code OR
    nonzero nonce". *)
Definition has_code_or_nonce (s : State) (a : Address) : bool :=
  negb (get_nonce s a =? 0) || negb (bool_decide (get_code s a = [])).

(** Modelled from the spec: the access sets of EIP-2929,
    [mark_address_warm], [mark_storage_warm] and [is_storage_warm];
    [is_address_warm] follows the fork dispatch below. *)
Definition mark_address_warm (a : Address) (s : State) : State :=
  set_world (mkWorld (accounts (world s)) ({[a]} ∪ warm_addresses (world s))
               (warm_slots (world s))) s.

(** Modelled from the spec: [mark_storage_warm] adds to [warm_slots]. *)
Definition mark_storage_warm (a : Address) (slot : Z) (s : State) : State :=
  set_world (mkWorld (accounts (world s)) (warm_addresses (world s))
               ({[(a, slot)]} ∪ warm_slots (world s))) s.

(** Modelled from the spec: [is_storage_warm] reads [warm_slots]. *)
Definition is_storage_warm (s : State) (a : Address) (slot : Z) : bool :=
  bool_decide ((a, slot) ∈ warm_slots (world s)).

(** Modelled from the spec: "[snapshot()], [commit(snapshot)],
    [revert(snapshot)] forming a stack discipline ... Snapshots nest; revert
    drops all changes since that snapshot; commit merges them into the
    parent scope."  A checkpoint saves the world; the token of a snapshot is
    the number of checkpoints open before it.  Checkpoints opened after the
    one named go with it.  A token with no open checkpoint is stale and
    raises. *)
Definition snapshot : Exec State nat :=
  λ s, (mkState (world s) (world s :: checkpoints s) (execution_context s),
        Returned (length (checkpoints s))).

(** Modelled from the spec: "revert drops all changes since that snapshot"; a stale
    token raises. *)
Definition revert (token : nat) : Exec State unit :=
  λ s, let n := length (checkpoints s) in
       match checkpoints s !! (n - 1 - token)%nat with
       | Some w =>
           if bool_decide (token < n)%nat
           then (mkState w (drop (n - token) (checkpoints s)) (execution_context s),
                 Returned tt)
           else (s, Raised ValidationError)
       | None => (s, Raised ValidationError)
       end.

(** Modelled from the spec: "commit merges them into the parent scope": the world
    stays, the checkpoint and the ones above it are closed; a stale token
    raises. *)
Definition commit (token : nat) : Exec State unit :=
  λ s, let n := length (checkpoints s) in
       if bool_decide (token < n)%nat
       then (mkState (world s) (drop (n - token) (checkpoints s)) (execution_context s),
             Returned tt)
       else (s, Raised ValidationError).

(** ** The gas meter and the accessors of a computation

    [eth/vm/computation.py] and [eth/vm/gas_meter.py] lie outside the
    modules embedded here. *)

(** Modelled from the spec: "[gas_remaining ≥ 0] always; any negative
    transition raises [OutOfGas]". *)
Definition consume_gas (amount : Z) : Exec Computation unit :=
  λ c, if gas_remaining c <? amount
       then (c, Raised OutOfGas)
       else (set_gas_remaining (gas_remaining c - amount) c, Returned tt).

(** Modelled from the spec: refunds "accumulate" in the frame's
    [gas_refund]. *)
Definition refund_gas (amount : Z) (c : Computation) : Computation :=
  set_gas_refunded (gas_refunded c + amount) c.

(** Modelled from the spec: the frame's [error?] is set. *)
Definition is_error (c : Computation) : bool := bool_decide (is_Some (error c)).

(** Modelled from the spec: the frame ended with an error that consumes
    all gas ("tx consumes all gas"; a [Revert] "refunds unused gas"). *)
Definition should_burn_gas (c : Computation) : bool :=
  match error c with
  | Some e => burns_gas e
  | None => false
  end.

(** Modelled from the spec: the refund a frame hands on.  A frame that
    ended with an error hands on none; otherwise it is the frame's
    [gas_refund], which holds what the frame and the frames below it
    accumulated. *)
Definition get_gas_refund (c : Computation) : Z :=
  if is_error c then 0 else gas_refunded c.

(** Modelled from the spec: the gas a frame hands back: none when its error
    consumes all gas, the frame's [gas_remaining] otherwise. *)
Definition get_gas_remaining (c : Computation) : Z :=
  if should_burn_gas c then 0 else gas_remaining c.

(** Modelled from the spec: the accounts a frame queued for deletion, each
    with its beneficiary: none when the frame ended with an error ("only
    state side effects are rolled back"), the frame's [accounts_to_delete]
    otherwise. *)
Definition get_accounts_for_deletion (c : Computation) : list (Address * Address) :=
  if is_error c then [] else accounts_to_delete c.

(** Modelled from the spec: a fresh frame for a message, as
    [state.get_computation(message, transaction_context)] builds it. *)
Definition get_computation (message : Message) (ctx : TransactionContext) : Computation :=
  mkComputation message ctx [] [] (mkCodeStream (msg_code message) 0)
    (msg_gas message) 0 [] [] None [].

(** ** Fork dispatch

    The sources select the fork's behaviour through the classes a state
    names ([computation_class], [transaction_executor_class]) and through
    method overriding; here each interface is a type class and each fork an
    instance. *)

Module StateAPI.
Class t : Type := {
  get_gas_price : State → Transaction → Outcome Z;
  get_tip : State → Transaction → Outcome Z;
  get_transaction_context : State → Transaction → Outcome TransactionContext
}.
End StateAPI.

Module ComputationAPI.
Class t : Type := {
  apply_message : Message → TransactionContext → Exec State Computation;
  apply_create_message : Message → TransactionContext → Exec State Computation;
  (** The addresses of the class's [_precompiles], which [get_precompiles]
      returns. *)
  get_precompiles : list Address
}.
End ComputationAPI.

(** Modelled from the spec: the access set is "pre-warmed with sender,
    target, precompiles, and transaction [access_list] entries".  An address
    is warm when it was marked or when it is one of the precompiles of the
    state's computation class, which are warm without being marked. *)
Definition is_address_warm {computation_class : ComputationAPI.t}
    (s : State) (a : Address) : bool :=
  bool_decide (a ∈ warm_addresses (world s))
  || bool_decide (a ∈ ComputationAPI.get_precompiles).

Module TransactionExecutorAPI.
Class t : Type := {
  calculate_gas_refund : Computation → Z → Computation * Z
}.
End TransactionExecutorAPI.

(** Modelled from the spec: before London a transaction pays its own
    [gas_price] ("[tip = gas_price] pre-London"), and the transaction
    context is [{gas_price, origin}]. *)
Definition BaseState : StateAPI.t := {|
  StateAPI.get_gas_price := λ _ transaction, Returned (tx_gas_price transaction);
  StateAPI.get_tip := λ _ transaction, Returned (tx_gas_price transaction);
  StateAPI.get_transaction_context := λ _ transaction,
    Returned (mkTransactionContext (tx_gas_price transaction) (tx_sender transaction))
|}.

(** Modelled from the spec: "call depth ≤ 1024". *)
Definition STACK_DEPTH_LIMIT : Z := 1024.

(** Modelled from the spec: "code size limit EIP-170 = 24,576 bytes". *)
Definition EIP170_CODE_SIZE_LIMIT : Z := 24576.

(** Modelled from the spec: "QUOTIENT=2 pre-London, 5 from London". *)
Definition MAX_REFUND_QUOTIENT : Z := 2.
Definition EIP3529_MAX_REFUND_QUOTIENT : Z := 5.

(** ** forks/frontier/computation.py *)

Module FrontierComputation.
Section WithInterpreter.
(** The interpreter loop [BaseComputation.apply_computation], which lies
    outside the modules embedded here. *)
Variable apply_computation : Message → TransactionContext → Exec State Computation.
(** [eth.constants.GAS_CODEDEPOSIT] *)
Variable GAS_CODEDEPOSIT : Z.

Definition apply_message (message : Message) (transaction_context : TransactionContext)
  : Exec State Computation :=
  snapshot_ <- snapshot ;;
  if msg_depth message >? STACK_DEPTH_LIMIT then raise StackDepthLimit else
  (if msg_should_transfer_value message && negb (msg_value message =? 0) then
     sender_balance <- gets (λ s, get_balance s (msg_sender message)) ;;
     if sender_balance <? msg_value message then raise InsufficientFunds else
     modify (delta_balance (msg_sender message) (-1 * msg_value message)) ;;;
     modify (delta_balance (msg_storage_address message) (msg_value message))
   else ret tt) ;;;
  modify (touch_account (msg_storage_address message)) ;;;
  computation <- apply_computation message transaction_context ;;
  (if is_error computation then revert snapshot_ else commit snapshot_) ;;;
  ret computation.

Definition apply_create_message (message : Message)
    (transaction_context : TransactionContext) : Exec State Computation :=
  computation <- apply_message message transaction_context ;;
  if is_error computation then ret computation
  else
    let contract_code := output computation in
    if negb (bool_decide (contract_code = [])) then
      let contract_code_gas_fee := Z.of_nat (length contract_code) * GAS_CODEDEPOSIT in
      match consume_gas contract_code_gas_fee computation with
      | (computation, Raised OutOfGas) => ret (set_output [] computation)
      | (computation, Raised e) => λ s, (s, Raised e)
      | (computation, Returned _) =>
          modify (set_code (msg_storage_address message) contract_code) ;;;
          ret computation
      end
    else ret computation.
End WithInterpreter.
End FrontierComputation.

(** ** forks/spurious_dragon/computation.py *)

Module SpuriousDragonComputation.
Section WithInterpreter.
Variable apply_computation : Message → TransactionContext → Exec State Computation.
Variable GAS_CODEDEPOSIT : Z.

Definition validate_create_message (message : Message) : Outcome unit :=
  Returned tt.

Definition validate_contract_code (contract_code : bytes) : Outcome unit :=
  if Z.of_nat (length contract_code) >? EIP170_CODE_SIZE_LIMIT
  then Raised OutOfGas
  else Returned tt.

(** The body of the [try] block: validate the code, then pay for it. *)
Definition deposit_code (contract_code : bytes) : Exec Computation unit :=
  lift (validate_contract_code contract_code) ;;;
  let contract_code_gas_cost := Z.of_nat (length contract_code) * GAS_CODEDEPOSIT in
  consume_gas contract_code_gas_cost.

Definition apply_create_message (message : Message)
    (transaction_context : TransactionContext) : Exec State Computation :=
  snapshot_ <- snapshot ;;
  modify (increment_nonce (msg_storage_address message)) ;;;
  lift (validate_create_message message) ;;;
  computation <- FrontierComputation.apply_message apply_computation message transaction_context ;;
  if is_error computation then
    revert snapshot_ ;;;
    ret computation
  else
    let contract_code := output computation in
    if negb (bool_decide (contract_code = [])) then
      match deposit_code contract_code computation with
      | (computation, Raised err) =>
          if is_VMError err then
            let computation := set_error err computation in
            revert snapshot_ ;;;
            ret computation
          else λ s, (s, Raised err)
      | (computation, Returned _) =>
          modify (set_code (msg_storage_address message) contract_code) ;;;
          commit snapshot_ ;;;
          ret computation
      end
    else
      commit snapshot_ ;;;
      ret computation.
End WithInterpreter.
End SpuriousDragonComputation.

(** ** Building messages *)

(** Modelled from the spec: the target of a transaction that creates a
    contract, "[to == ∅]". *)
Definition CREATE_CONTRACT_ADDRESS : Address := [].

(** Modelled from the spec: a "Message" built from the arguments the
    executors pass.  The storage address is the created address when there is
    one and [to] otherwise, the message is a create exactly when [to] is
    [CREATE_CONTRACT_ADDRESS]; a message built without more arguments is at
    depth 0, transfers its value and is not static. *)
Definition Message_init (gas : Z) (to sender : Address) (value : Z)
    (data code : bytes) (create_address : option Address) : Message :=
  mkMessage gas to sender value data code (default to create_address) 0
    (bool_decide (to = CREATE_CONTRACT_ADDRESS)) false true.

(** ** forks/frontier/state.py *)

Module FrontierTransactionExecutor.
Section Executor.
Context {vm_state : StateAPI.t} {computation_class : ComputationAPI.t}
        {executor : TransactionExecutorAPI.t}.
(** [forks/frontier/constants.py: REFUND_SELFDESTRUCT] *)
Variable REFUND_SELFDESTRUCT : Z.

Definition build_computation (message : Message) (transaction : Transaction)
  : Exec State Computation :=
  transaction_context <- (λ s, (s, StateAPI.get_transaction_context s transaction)) ;;
  if msg_is_create message then
    is_collision <- gets (λ s, has_code_or_nonce s (msg_storage_address message)) ;;
    if is_collision then
      let computation := get_computation message transaction_context in
      ret (set_error ContractCreationCollision computation)
    else
      ComputationAPI.apply_create_message message transaction_context
  else
    ComputationAPI.apply_message message transaction_context.

(** [computation.refund_gas] mutates the computation, so the computation
    is returned next to the refund. *)
Definition calculate_gas_refund (computation : Computation) (gas_used : Z)
  : Computation * Z :=
  let num_deletions := Z.of_nat (length (get_accounts_for_deletion computation)) in
  let computation :=
    if negb (num_deletions =? 0)
    then refund_gas (REFUND_SELFDESTRUCT * num_deletions) computation
    else computation in
  let gas_refunded := get_gas_refund computation in
  (computation, Z.min gas_refunded (gas_used / MAX_REFUND_QUOTIENT)).

Definition finalize_computation (transaction : Transaction) (computation : Computation)
  : Exec State Computation :=
  transaction_context <- (λ s, (s, StateAPI.get_transaction_context s transaction)) ;;
  let gas_remaining := get_gas_remaining computation in
  let gas_used := tx_gas transaction - gas_remaining in
  let '(computation, gas_refund) :=
    TransactionExecutorAPI.calculate_gas_refund computation gas_used in
  let gas_refund_amount := (gas_refund + gas_remaining) * gas_price transaction_context in
  (if negb (gas_refund_amount =? 0)
   then modify (delta_balance (msg_sender (msg computation)) gas_refund_amount)
   else ret tt) ;;;
  let gas_used := tx_gas transaction - gas_remaining - gas_refund in
  tip <- (λ s, (s, StateAPI.get_tip s transaction)) ;;
  let transaction_fee := gas_used * tip in
  fee_recipient <- gets (λ s, coinbase (execution_context s)) ;;
  modify (delta_balance fee_recipient transaction_fee) ;;;
  for_each (get_accounts_for_deletion computation)
    (λ '(account, _), modify (delete_account account)) ;;;
  ret computation.
End Executor.

(** The executor class of the forks before London. *)
Definition instance (REFUND_SELFDESTRUCT : Z) : TransactionExecutorAPI.t :=
  {| TransactionExecutorAPI.calculate_gas_refund :=
       calculate_gas_refund REFUND_SELFDESTRUCT |}.

Section Messages.
Context {vm_state : StateAPI.t}.
(** [eth._utils.address.generate_contract_address], the address a sender
    creates at a nonce. *)
Variable generate_contract_address : Address → Z → Address.
(** The reads of [transaction.gas_price], [transaction.s], [transaction.r]
    and [transaction.y_parity], which are evaluated as arguments of the
    [debug2] call; the transaction classes lie outside the modules embedded
    here.  A dynamic-fee transaction has no [gas_price]: there the read
    raises [AttributeError]. *)
Variable read_logged_fields : Transaction → Outcome unit.

Definition build_evm_message (transaction : Transaction) : Exec State Message :=
  price <- (λ s, (s, StateAPI.get_gas_price s transaction)) ;;
  let gas_fee := tx_gas transaction * price in
  checked_delta_balance (tx_sender transaction) (-1 * gas_fee) ;;;
  modify (increment_nonce (tx_sender transaction)) ;;;
  let message_gas := tx_gas transaction - tx_intrinsic_gas transaction in
  parts <-
    (if bool_decide (tx_to transaction = CREATE_CONTRACT_ADDRESS) then
       nonce <- gets (λ s, get_nonce s (tx_sender transaction)) ;;
       let contract_address :=
         generate_contract_address (tx_sender transaction) (nonce - 1) in
       ret (Some contract_address, [], tx_data transaction)
     else
       code <- gets (λ s, get_code s (tx_to transaction)) ;;
       ret (None, tx_data transaction, code)) ;;
  let '(contract_address, data, code) := parts in
  lift (read_logged_fields transaction) ;;;
  ret (Message_init message_gas (tx_to transaction) (tx_sender transaction)
         (tx_value transaction) data code contract_address).
End Messages.
End FrontierTransactionExecutor.

(** ** forks/spurious_dragon/state.py *)

Module SpuriousDragonTransactionExecutor.
Section Executor.
Context {vm_state : StateAPI.t} {executor : TransactionExecutorAPI.t}.
(** [collect_touched_accounts] of the fork's [_utils], the addresses a
    finished computation touched. *)
Variable collect_touched_accounts : Computation → list Address.

Definition finalize_computation (transaction : Transaction) (computation : Computation)
  : Exec State Computation :=
  computation <- FrontierTransactionExecutor.finalize_computation transaction computation ;;
  let touched_accounts := collect_touched_accounts computation in
  for_each touched_accounts
    (λ account,
       should_delete <- gets (λ s, account_exists s account && account_is_empty s account) ;;
       if should_delete then modify (delete_account account) else ret tt) ;;;
  ret computation.
End Executor.
End SpuriousDragonTransactionExecutor.

(** ** forks/berlin/state.py *)

Module BerlinTransactionExecutor.
Section Executor.
Context {vm_state : StateAPI.t} {computation_class : ComputationAPI.t}.

(** The statements of [build_computation] before it hands over to the
    inherited [build_computation]. *)
Definition mark_transaction_warm (message : Message) (transaction : Transaction)
  : Exec State unit :=
  modify (mark_address_warm (tx_sender transaction)) ;;;
  modify (mark_address_warm (msg_storage_address message)) ;;;
  for_each (tx_access_list transaction)
    (λ '(address, slots),
       modify (mark_address_warm address) ;;;
       for_each slots (λ slot, modify (mark_storage_warm address slot))).

Definition build_computation (message : Message) (transaction : Transaction)
  : Exec State Computation :=
  mark_transaction_warm message transaction ;;;
  FrontierTransactionExecutor.build_computation message transaction.
End Executor.
End BerlinTransactionExecutor.

(** ** forks/london/state.py *)

Module LondonTransactionExecutor.
Definition calculate_gas_refund (computation : Computation) (gas_used : Z)
  : Computation * Z :=
  let gas_refunded := get_gas_refund computation in
  (computation, Z.min gas_refunded (gas_used / EIP3529_MAX_REFUND_QUOTIENT)).

Definition instance : TransactionExecutorAPI.t :=
  {| TransactionExecutorAPI.calculate_gas_refund := calculate_gas_refund |}.

Section Messages.
Context {vm_state : StateAPI.t}.
Variable generate_contract_address : Address → Z → Address.

(** The arguments of London's [debug2] call are the transaction itself, its
    sender, its target and the hash of its data: no field is read that a
    dynamic-fee transaction lacks. *)
Definition build_evm_message (transaction : Transaction) : Exec State Message :=
  price <- (λ s, (s, StateAPI.get_gas_price s transaction)) ;;
  let gas_fee := tx_gas transaction * price in
  checked_delta_balance (tx_sender transaction) (-1 * gas_fee) ;;;
  modify (increment_nonce (tx_sender transaction)) ;;;
  let message_gas := tx_gas transaction - tx_intrinsic_gas transaction in
  parts <-
    (if bool_decide (tx_to transaction = CREATE_CONTRACT_ADDRESS) then
       nonce <- gets (λ s, get_nonce s (tx_sender transaction)) ;;
       let contract_address :=
         generate_contract_address (tx_sender transaction) (nonce - 1) in
       ret (Some contract_address, [], tx_data transaction)
     else
       code <- gets (λ s, get_code s (tx_to transaction)) ;;
       ret (None, tx_data transaction, code)) ;;
  let '(contract_address, data, code) := parts in
  ret (Message_init message_gas (tx_to transaction) (tx_sender transaction)
         (tx_value transaction) data code contract_address).
End Messages.
End LondonTransactionExecutor.

Module LondonState.
(** [self.execution_context.base_fee_per_gas]: an execution context built
    from a header without a base fee has no such attribute. *)
Definition execution_context_base_fee_per_gas (s : State) : Outcome Z :=
  match base_fee_per_gas (execution_context s) with
  | Some b => Returned b
  | None => Raised AttributeError
  end.

Definition get_tip (s : State) (transaction : Transaction) : Outcome Z :=
  match execution_context_base_fee_per_gas s with
  | Returned base_fee =>
      Returned (Z.min (tx_max_fee_per_gas transaction - base_fee)
                      (tx_max_priority_fee_per_gas transaction))
  | Raised e => Raised e
  end.

Definition get_gas_price (s : State) (transaction : Transaction) : Outcome Z :=
  match execution_context_base_fee_per_gas s with
  | Returned base_fee =>
      Returned (Z.min (tx_max_fee_per_gas transaction)
                      (tx_max_priority_fee_per_gas transaction + base_fee))
  | Raised e => Raised e
  end.

Definition get_transaction_context (s : State) (transaction : Transaction)
  : Outcome TransactionContext :=
  match execution_context_base_fee_per_gas s with
  | Returned base_fee =>
      let effective_gas_price :=
        Z.min (tx_max_priority_fee_per_gas transaction + base_fee)
              (tx_max_fee_per_gas transaction) in
      Returned (mkTransactionContext effective_gas_price (tx_sender transaction))
  | Raised e => Raised e
  end.

Definition instance : StateAPI.t := {|
  StateAPI.get_gas_price := get_gas_price;
  StateAPI.get_tip := get_tip;
  StateAPI.get_transaction_context := get_transaction_context
|}.
End LondonState.

(** ** The stack, the code stream and the memory of a frame

    [eth/vm/stack.py], [eth/vm/code_stream.py] and [eth/vm/memory.py] lie
    outside the modules embedded here. *)

(** Modelled from the spec: big-endian integers, as [eth_utils] converts
    them; [int_to_big_endian] gives the shortest string, one zero byte for 0. *)
Fixpoint big_endian_to_int_acc (acc : Z) (b : bytes) : Z :=
  match b with
  | [] => acc
  | x :: b' => big_endian_to_int_acc (acc * 256 + byte_to_Z x) b'
  end.
(** Modelled from the spec: the integer a big-endian byte string denotes. *)
Definition big_endian_to_int (b : bytes) : Z := big_endian_to_int_acc 0 b.

(** Modelled from the spec: the big-endian byte string of a given width. *)
Definition to_bytes_big (width : nat) (v : Z) : bytes :=
  (λ i : nat, byte_of_Z (Z.shiftr v (8 * Z.of_nat (width - 1 - i)))) <$> seq 0 width.

(** Modelled from the spec: the shortest big-endian byte string of an integer,
    one zero byte for 0. *)
Definition int_to_big_endian (v : Z) : bytes :=
  let bit_length := if v =? 0 then 0 else Z.log2 v + 1 in
  let width := (bit_length + 7) / 8 in
  to_bytes_big (Z.to_nat (if width =? 0 then 1 else width)) v.

(** Modelled from the spec: "stack<u256, ≤1024>", popped from the top (the
    head of the list); the typed pops convert the item they find and raise
    [InsufficientStack] on underflow. *)
Definition item_int (i : StackItem) : Z :=
  match i with IntItem v => v | BytesItem b => big_endian_to_int b end.
(** Modelled from the spec: a stack item read as a byte string. *)
Definition item_bytes (i : StackItem) : bytes :=
  match i with IntItem v => int_to_big_endian v | BytesItem b => b end.

(** Modelled from the spec: [stack_pop1_int] pops the top item as an integer. *)
Definition stack_pop1_int : Exec Computation Z :=
  λ c, match stack c with
       | i :: rest => (set_stack rest c, Returned (item_int i))
       | [] => (c, Raised InsufficientStack)
       end.

(** Modelled from the spec: [stack_pop1_bytes] pops the top item as a byte
    string. *)
Definition stack_pop1_bytes : Exec Computation bytes :=
  λ c, match stack c with
       | i :: rest => (set_stack rest c, Returned (item_bytes i))
       | [] => (c, Raised InsufficientStack)
       end.

(** Modelled from the spec: [stack_pop_ints(2)] pops two items as integers,
    the top one first; both or none. *)
Definition stack_pop_ints2 : Exec Computation (Z * Z) :=
  λ c, match stack c with
       | i :: j :: rest => (set_stack rest c, Returned (item_int i, item_int j))
       | _ => (c, Raised InsufficientStack)
       end.

(** Modelled from the spec: opcode bytes.  "JUMPDEST — opcode 0x5B"; [STOP]
    is what the code stream yields past the end of the code; PUSH1..PUSH32
    carry 1..32 bytes of immediate data. *)
Definition STOP : Z := 0.
(** Modelled from the spec: "JUMPDEST — opcode 0x5B". *)
Definition JUMPDEST : Z := 91.
(** Modelled from the spec: the first PUSH opcode, with one byte of immediate
    data. *)
Definition PUSH1 : Z := 96.
(** Modelled from the spec: the last PUSH opcode, with 32 bytes of immediate
    data. *)
Definition PUSH32 : Z := 127.

(** Modelled from the spec: [peek] reads the byte at the program counter
    without advancing. *)
Definition peek (c : Computation) : Z :=
  let pc := program_counter (code c) in
  if (0 <=? pc) && (pc <? Z.of_nat (length (raw_code_bytes (code c))))
  then default STOP (byte_to_Z <$> raw_code_bytes (code c) !! Z.to_nat pc)
  else STOP.

(** Modelled from the spec: the bytes of "PUSH immediate data" that follow an
    opcode. *)
Definition push_data_size (opcode : Z) : nat :=
  if (PUSH1 <=? opcode) && (opcode <=? PUSH32)
  then Z.to_nat (opcode - PUSH1 + 1)
  else 0%nat.

(** Modelled from the spec: [on_opcode_boundary code skip target] says that,
    walking [code] from its first instruction, with [skip] bytes of immediate data still to pass, position
    [target] is reached as an instruction and not as immediate data. *)
Fixpoint on_opcode_boundary (code : bytes) (skip target : nat) : bool :=
  match code, target with
  | [], _ => false
  | _ :: _, O => bool_decide (skip = 0%nat)
  | b :: rest, S target' =>
      match skip with
      | O => on_opcode_boundary rest (push_data_size (byte_to_Z b)) target'
      | S skip' => on_opcode_boundary rest skip' target'
      end
  end.

(** Modelled from the spec: a position is a valid opcode when it is "on a
    valid opcode boundary (not inside PUSH immediate data)". *)
Definition is_valid_opcode (c : Computation) (position : Z) : bool :=
  (0 <=? position) &&
  on_opcode_boundary (raw_code_bytes (code c)) 0 (Z.to_nat position).

(** ** Handlers that halt or fill the stack

    An opcode handler can also leave by [Halt] or, when it pushes, by
    [FullStack]; a [Signal] is one of the exceptions above or one of these
    two. *)

Inductive Signal : Type :=
  | Fault (e : Exn)
  | FullStack
  | Halt.

Inductive Result (A : Type) : Type :=
  | Done (a : A)
  | Stopped (sig : Signal).
Arguments Done {A} a.
Arguments Stopped {A} sig.

Definition Handler (A : Type) : Type := Computation → Computation * Result A.

Definition done {A} (a : A) : Handler A := λ c, (c, Done a).
Definition stopped {A} (sig : Signal) : Handler A := λ c, (c, Stopped sig).
Definition and_then {A B} (m : Handler A) (k : A → Handler B) : Handler B :=
  λ c, match m c with
       | (c', Done a) => k a c'
       | (c', Stopped sig) => (c', Stopped sig)
       end.

(** A method that raises only the exceptions above, used by a handler. *)
Definition run {A} (m : Exec Computation A) : Handler A :=
  λ c, match m c with
       | (c', Returned a) => (c', Done a)
       | (c', Raised e) => (c', Stopped (Fault e))
       end.

Notation "x <~ m ;; k" := (and_then m (λ x, k))
  (at level 100, m at next level, right associativity) : exec_scope.
Notation "m ;;~ k" := (and_then m (λ _, k))
  (at level 100, right associativity) : exec_scope.

(** Modelled from the spec: "stack<u256, ≤1024>"; a push on a stack of 1024
    items raises [FullStack], an integer outside [u256] is refused. *)
Definition stack_push_int (value : Z) : Handler unit :=
  λ c, if (1023 <? Z.of_nat (length (stack c)))
       then (c, Stopped FullStack)
       else if negb ((0 <=? value) && (value <? 2 ^ 256))
       then (c, Stopped (Fault ValidationError))
       else (set_stack (IntItem value :: stack c) c, Done tt).

(** Modelled from the spec: "stack<u256, ≤1024>"; a byte string on the stack
    is at most 32 bytes long. *)
Definition stack_push_bytes (value : bytes) : Handler unit :=
  λ c, if (1023 <? Z.of_nat (length (stack c)))
       then (c, Stopped FullStack)
       else if negb (Z.of_nat (length value) <=? 32)
       then (c, Stopped (Fault ValidationError))
       else (set_stack (BytesItem value :: stack c) c, Done tt).

(** Modelled from the spec: a read returns the [size] bytes at
    [start_position] of the memory as it is. *)
Definition memory_read_bytes (start_position size : Z) (c : Computation) : bytes :=
  take (Z.to_nat size) (drop (Z.to_nat start_position) (memory c)).

(** ** logic/flow.py *)

Module Flow.
Definition jump : Exec Computation unit :=
  jump_dest <- stack_pop1_int ;;
  modify (set_program_counter jump_dest) ;;;
  next_opcode <- gets peek ;;
  if negb (next_opcode =? JUMPDEST) then raise InvalidJumpDestination else
  valid <- gets (λ c, is_valid_opcode c jump_dest) ;;
  if negb valid then raise InvalidInstruction else
  ret tt.

Definition jumpi : Exec Computation unit :=
  popped <- stack_pop_ints2 ;;
  let '(jump_dest, check_value) := popped in
  if negb (check_value =? 0) then
    modify (set_program_counter jump_dest) ;;;
    next_opcode <- gets peek ;;
    if negb (next_opcode =? JUMPDEST) then raise InvalidJumpDestination else
    valid <- gets (λ c, is_valid_opcode c jump_dest) ;;
    if negb valid then raise InvalidInstruction else
    ret tt
  else ret tt.

Definition stop : Handler unit := stopped Halt.

Definition jumpdest : Handler unit := done tt.

Definition program_counter : Handler unit :=
  λ c, let pc := Z.max (program_counter (code c) - 1) 0 in
       stack_push_int pc c.

Definition gas : Handler unit :=
  λ c, let gas_remaining := get_gas_remaining c in
       stack_push_int gas_remaining c.
End Flow.

(** ** logic/memory.py *)


(** Modelled from the spec: memory is "grown in 32-byte chunks"; the next
    multiple of 32. *)
Definition ceil32 (v : Z) : Z :=
  let remainder := v mod 32 in
  if remainder =? 0 then v else v + 32 - remainder.

Module Memory.
Section WithGasSchedule.
(** The price of a memory of a given size ("quadratic gas cost"); the
    schedule lies outside the modules embedded here. *)
Variable memory_gas_cost : Z → Z.

(** Modelled from the spec: memory is "zero-extended on access, grown in
    32-byte chunks". *)
Definition extend (start_position size : Z) (m : bytes) : bytes :=
  if size =? 0 then m else
  let new_size := ceil32 (start_position + size) in
  if new_size <=? Z.of_nat (length m) then m
  else m ++ replicate (Z.to_nat (new_size - Z.of_nat (length m))) x00%byte.

(** Modelled from the spec: growing the memory is paid for before the
    memory grows; "any negative transition raises [OutOfGas]". *)
Definition extend_memory (start_position size : Z) : Exec Computation unit :=
  before_size <- gets (λ c, ceil32 (Z.of_nat (length (memory c)))) ;;
  let after_size := ceil32 (start_position + size) in
  let before_cost := memory_gas_cost before_size in
  let after_cost := memory_gas_cost after_size in
  if size =? 0 then ret tt else
  (if before_cost <? after_cost
   then consume_gas (after_cost - before_cost)
   else ret tt) ;;;
  modify (λ c, set_memory (extend start_position size (memory c)) c).

(** Modelled from the spec: a write replaces [size] bytes in place and
    never grows the memory; a write past the end is refused. *)
Definition write (start_position : Z) (value : bytes) (m : bytes) : bytes :=
  take (Z.to_nat start_position) m ++ value
    ++ drop (Z.to_nat start_position + length value) m.

(** Modelled from the spec: [memory_write] replaces [size] bytes inside the
    memory. *)
Definition memory_write (start_position size : Z) (value : bytes)
  : Exec Computation unit :=
  if size =? 0 then ret tt else
  len <- gets (λ c, Z.of_nat (length (memory c))) ;;
  if negb (Z.of_nat (length value) =? size) then raise ValidationError else
  if negb (start_position + size <=? len) then raise ValidationError else
  modify (λ c, set_memory (write start_position value (memory c)) c).

Definition mstore : Exec Computation unit :=
  start_position <- stack_pop1_int ;;
  value <- stack_pop1_bytes ;;
  let padded_value := rjust 32 x00%byte value in
  let normalized_value := last_bytes 32 padded_value in
  extend_memory start_position 32 ;;;
  memory_write start_position 32 normalized_value.

Definition mstore8 : Exec Computation unit :=
  start_position <- stack_pop1_int ;;
  value <- stack_pop1_bytes ;;
  let padded_value := rjust 1 x00%byte value in
  let normalized_value := last_bytes 1 padded_value in
  extend_memory start_position 1 ;;;
  memory_write start_position 1 normalized_value.

Definition mload : Handler unit :=
  start_position <~ run stack_pop1_int ;;
  run (extend_memory start_position 32) ;;~
  λ c, let value := memory_read_bytes start_position 32 c in
       stack_push_bytes value c.

Definition msize : Handler unit :=
  λ c, stack_push_int (Z.of_nat (length (memory c))) c.
End WithGasSchedule.
End Memory.

(** ** opcode.py *)

Module Opcode.
(** [_FastOpcode]: a logic function with its mnemonic and its gas cost. *)
Record t : Type := _FastOpcode {
  logic_fn : Handler unit;
  mnemonic : list byte;
  gas_cost : Z
}.

(** [_FastOpcode.__call__] *)
Definition call (self : t) : Handler unit :=
  run (consume_gas (gas_cost self)) ;;~
  logic_fn self.

Definition as_opcode (logic_fn : Handler unit) (mnemonic : list byte) (gas_cost : Z) : t :=
  _FastOpcode logic_fn mnemonic gas_cost.
End Opcode.

(** ** base.py *)

Record Log : Type := mkLog {
  log_address : Address;
  log_topics : list Z;
  log_data : bytes
}.

Record Receipt : Type := mkReceipt {
  receipt_logs : list Log;
  receipt_bloom : Z
}.

Record Header : Type := mkHeader {
  header_coinbase : Address;
  header_block_number : Z;
  header_state_root : Z;
  header_base_fee_per_gas : option Z
}.

(** A VM instance: the header it works on and the account database it
    reads, one world per state root. *)
Record VirtualMachine : Type := mkVirtualMachine {
  vm_header : Header;
  vm_db : Z → World
}.

(** ** forks/frontier/validation.py *)

(** The fields of a block header the validation reads, around the fields the
    execution context is built from. *)
Record BlockHeader : Type := mkBlockHeader {
  bh_fields : Header;
  bh_hash : bytes;
  bh_parent_hash : bytes;
  bh_timestamp : Z;
  bh_gas_limit : Z;
  bh_gas_used : Z;
  bh_extra_data : bytes
}.

Definition bh_block_number (h : BlockHeader) : Z := header_block_number (bh_fields h).
Definition bh_coinbase (h : BlockHeader) : Address := header_coinbase (bh_fields h).
Definition bh_base_fee_per_gas (h : BlockHeader) : option Z :=
  header_base_fee_per_gas (bh_fields h).

Module FrontierValidation.
Section Validation.
Context {state_class : StateAPI.t}.

Definition validate_frontier_transaction (state : State) (transaction : Transaction)
  : Outcome unit :=
  match StateAPI.get_gas_price state transaction with
  | Raised e => Raised e
  | Returned price =>
      let max_gas_cost := tx_gas transaction * price in
      let sender_balance := get_balance state (tx_sender transaction) in
      if sender_balance <? max_gas_cost then Raised ValidationError else
      let total_cost := tx_value transaction + max_gas_cost in
      if sender_balance <? total_cost then Raised ValidationError else
      let sender_nonce := get_nonce state (tx_sender transaction) in
      if negb (sender_nonce =? tx_nonce transaction) then Raised ValidationError else
      Returned tt
  end.
End Validation.

Definition validate_frontier_transaction_against_header
    (base_header : BlockHeader) (transaction : Transaction) : Outcome unit :=
  if bh_gas_used base_header + tx_gas transaction >? bh_gas_limit base_header
  then Raised ValidationError
  else Returned tt.
End FrontierValidation.

(** A withdrawal of EIP-4895, its amount in gwei. *)
Record Withdrawal : Type := mkWithdrawal {
  wd_index : Z;
  wd_validator_index : Z;
  wd_address : Address;
  wd_amount : Z
}.

Record Block : Type := mkBlock {
  block_header : BlockHeader;
  block_transactions : list Transaction;
  block_uncles : list BlockHeader
}.

Definition block_number_of (block : Block) : Z := bh_block_number (block_header block).

Module VM.
Section Receipts.
(** [eth_hash.auto.keccak], a primitive the host supplies. *)
Variable keccak : bytes → bytes.

(** Modelled from the spec: "Bloom filter is 2048-bit; each (address or
    32-byte-serialized topic) contributes 3 set bits determined by the
    lowest 11 bits of three disjoint 16-bit windows of its keccak256." *)
Definition chunk_to_bloom_bit (high low : byte) : Z :=
  Z.land (byte_to_Z low + Z.shiftl (byte_to_Z high) 8) 2047.

(** Modelled from the spec: the "3 set bits" of a value, from the first three
    16-bit windows of its hash. *)
Definition get_bloom_bits (value : bytes) : list Z :=
  match keccak value with
  | h0 :: l0 :: h1 :: l1 :: h2 :: l2 :: _ =>
      [chunk_to_bloom_bit h0 l0; chunk_to_bloom_bit h1 l1; chunk_to_bloom_bit h2 l2]
  | _ => []
  end.

(** Modelled from the spec: [value in receipt.bloom_filter] holds when all
    the bits of the value are set. *)
Definition bloom_contains (bloom : Z) (value : bytes) : bool :=
  forallb (Z.testbit bloom) (get_bloom_bits value).

(** Modelled from the spec: the "32-byte serialization" of a topic, the
    big-endian form of a [u256]; other integers are refused. *)
Definition uint32_serialize (topic : Z) : Outcome bytes :=
  if (0 <=? topic) && (topic <? 2 ^ 256)
  then Returned (to_bytes_big 32 topic)
  else Raised SerializationError.

(** The loops of [validate_receipt] run over the set [already_checked],
    which holds addresses and topics side by side. *)
Definition check_log_address (receipt : Receipt) (log : Log)
  : Exec (gset (Address + Z)) unit :=
  already_checked <- gets id ;;
  if bool_decide (inl (log_address log) ∈ already_checked) then ret tt
  else if negb (bloom_contains (receipt_bloom receipt) (log_address log))
  then raise ValidationError
  else modify (λ checked, {[inl (log_address log)]} ∪ checked).

Definition check_topic (receipt : Receipt) (topic : Z)
  : Exec (gset (Address + Z)) unit :=
  already_checked <- gets id ;;
  if bool_decide (inr topic ∈ already_checked) then ret tt
  else
    serialized <- lift (uint32_serialize topic) ;;
    if negb (bloom_contains (receipt_bloom receipt) serialized)
    then raise ValidationError
    else modify (λ checked, {[inr topic]} ∪ checked).

Definition validate_receipt (receipt : Receipt) : Outcome unit :=
  snd ((for_each (receipt_logs receipt) (check_log_address receipt) ;;;
        for_each (receipt_logs receipt)
          (λ log, for_each (log_topics log) (check_topic receipt)))
       (∅ : gset (Address + Z))).
End Receipts.

Section CostlessState.
Context {A : Type}.
(** [create_header_from_parent], which each fork supplies, and the fee
    recipient the consensus class names for a header. *)
Variable create_header_from_parent : Header → Address → Header.
Variable get_fee_recipient : Header → Address.

Definition get_header (vm : VirtualMachine) : Header := vm_header vm.

(** [try: base_fee = header.base_fee_per_gas except AttributeError: ...] *)
Definition create_execution_context (header : Header) : ExecutionContext :=
  match header_base_fee_per_gas header with
  | None =>
      mkExecutionContext (get_fee_recipient header) (header_block_number header) None
  | Some base_fee =>
      mkExecutionContext (get_fee_recipient header) (header_block_number header)
        (Some base_fee)
  end.

Definition build_state (db : Z → World) (header : Header) : State :=
  let execution_context := create_execution_context header in
  mkState (db (header_state_root header)) [] execution_context.

(** [header.copy(base_fee_per_gas=0)] *)
Definition copy_with_base_fee (base_fee : Z) (header : Header) : Header :=
  mkHeader (header_coinbase header) (header_block_number header)
    (header_state_root header) (Some base_fee).

(** The header the costless state is built from. *)
Definition free_header (vm : VirtualMachine) : Header :=
  let header := get_header vm in
  let temp_block_header := create_header_from_parent header (header_coinbase header) in
  if bool_decide (is_Some (header_base_fee_per_gas temp_block_header))
  then copy_with_base_fee 0 temp_block_header
  else temp_block_header.

(** [with vm.in_costless_state() as state: body(state)].  The generator
    runs up to its [yield], the body of the [with] statement runs on the
    yielded state, and the generator is resumed: after the [yield] when
    the body returned, by throwing the body's exception at the [yield]
    when it raised.  The result is the yielded state object when the
    [with] statement is left, and how it is left. *)
Definition in_costless_state (vm : VirtualMachine) (body : Exec State A)
  : State * Outcome A :=
  let state := build_state (vm_db vm) (free_header vm) in
  match snapshot state with
  | (state, Raised e) => (state, Raised e)
  | (state, Returned snapshot_) =>
      match body state with
      | (state, Returned a) =>
          match revert snapshot_ state with
          | (state, Returned _) => (state, Returned a)
          | (state, Raised e) => (state, Raised e)
          end
      | (state, Raised e) => (state, Raised e)
      end
  end.
End CostlessState.

Section Withdrawals.
(** [withdrawal.validate()], which checks the fields of a withdrawal. *)
Variable validate_withdrawal : Withdrawal → Outcome unit.

(** Modelled from the spec: the state "credits each
    [(address, amount_gwei × 10^9)]". *)
Definition state_apply_withdrawal (withdrawal : Withdrawal) : Exec State unit :=
  modify (delta_balance (wd_address withdrawal) (wd_amount withdrawal * 10 ^ 9)).

Definition apply_withdrawal (withdrawal : Withdrawal) : Exec State unit :=
  state_apply_withdrawal withdrawal.

(** The first loop of [apply_all_withdrawals], with the list
    [touched_addresses] it builds. *)
Fixpoint apply_withdrawals_loop (withdrawals : list Withdrawal)
    (touched_addresses : list Address) : Exec State (list Address) :=
  match withdrawals with
  | [] => ret touched_addresses
  | withdrawal :: rest =>
      lift (validate_withdrawal withdrawal) ;;;
      apply_withdrawal withdrawal ;;;
      let touched_addresses :=
        if bool_decide (wd_address withdrawal ∈ touched_addresses)
        then touched_addresses
        else touched_addresses ++ [wd_address withdrawal] in
      apply_withdrawals_loop rest touched_addresses
  end.

Definition apply_all_withdrawals (withdrawals : list Withdrawal) : Exec State unit :=
  touched_addresses <- apply_withdrawals_loop withdrawals [] ;;
  for_each touched_addresses
    (λ address,
       empty <- gets (λ s, account_is_empty s address) ;;
       if empty then modify (delete_account address) else ret tt).
End Withdrawals.

Section Rewards.
(** The reward schedule of the fork: [get_block_reward],
    [get_nephew_reward] and [get_uncle_reward]. *)
Variable get_block_reward : Z.
Variable get_nephew_reward : Z.
Variable get_uncle_reward : Z → BlockHeader → Z.

Definition _assign_block_rewards (block : Block) : Exec State unit :=
  let block_reward :=
    get_block_reward + Z.of_nat (length (block_uncles block)) * get_nephew_reward in
  modify (delta_balance (bh_coinbase (block_header block)) block_reward) ;;;
  for_each (block_uncles block)
    (λ uncle,
       let uncle_reward := get_uncle_reward (block_number_of block) uncle in
       modify (delta_balance (bh_coinbase uncle) uncle_reward)).
End Rewards.

Section PrevHashes.
(** [eth.constants.GENESIS_PARENT_HASH] *)
Variable GENESIS_PARENT_HASH : bytes.

(** Modelled from the spec: "up to 256 ancestor block hashes". *)
Definition MAX_PREV_HEADER_DEPTH : nat := 256.

(** The loop of [get_prev_hashes]: the hashes it yields in [depth] more
    rounds from [block_header], over a chain database that maps a hash to its
    header; a parent that is not found ends the walk. *)
Fixpoint walk_prev_hashes (chaindb : gmap bytes BlockHeader) (depth : nat)
    (block_header : BlockHeader) : list bytes :=
  match depth with
  | O => []
  | S depth' =>
      bh_hash block_header ::
      match chaindb !! bh_parent_hash block_header with
      | Some parent => walk_prev_hashes chaindb depth' parent
      | None => []
      end
  end.

(** The hashes the generator yields when it is run to its end; [None] when
    the first lookup raises [HeaderNotFound]. *)
Definition get_prev_hashes (last_block_hash : bytes) (chaindb : gmap bytes BlockHeader)
  : option (list bytes) :=
  if bool_decide (last_block_hash = GENESIS_PARENT_HASH) then Some []
  else
    match chaindb !! last_block_hash with
    | None => None
    | Some block_header =>
        Some (walk_prev_hashes chaindb MAX_PREV_HEADER_DEPTH block_header)
    end.
End PrevHashes.

Section HeaderValidation.
(** [eth.validation.validate_gas_limit], the bounds on a gas limit next to
    its parent's. *)
Variable validate_gas_limit : Z → Z → Outcome unit.

(** Modelled from the spec: "header extra_data ≤ 32 bytes"; a longer value
    is refused. *)
Definition validate_length_lte (value : bytes) (maximum_length : Z) : Outcome unit :=
  if Z.of_nat (length value) >? maximum_length
  then Raised ValidationError
  else Returned tt.

Definition extra_data_max_bytes : Z := 32.

Definition validate_gas (header parent_header : BlockHeader) : Outcome unit :=
  validate_gas_limit (bh_gas_limit header) (bh_gas_limit parent_header).

Definition validate_header (header : BlockHeader) (parent_header : option BlockHeader)
  : Outcome unit :=
  match parent_header with
  | None => Raised ValidationError
  | Some parent_header =>
      match validate_length_lte (bh_extra_data header) extra_data_max_bytes with
      | Raised e => Raised e
      | Returned _ =>
          match validate_gas header parent_header with
          | Raised e => Raised e
          | Returned _ =>
              if negb (bh_block_number header =? bh_block_number parent_header + 1)
              then Raised ValidationError
              else if bh_timestamp header <=? bh_timestamp parent_header
              then Raised ValidationError
              else Returned tt
          end
      end
  end.

Definition validate_uncle (block : Block) (uncle uncle_parent : BlockHeader)
  : Outcome unit :=
  if bh_block_number uncle >=? block_number_of block then Raised ValidationError else
  if negb (bh_block_number uncle =? bh_block_number uncle_parent + 1)
  then Raised ValidationError else
  if bh_timestamp uncle <=? bh_timestamp uncle_parent then Raised ValidationError else
  if bh_gas_used uncle >? bh_gas_limit uncle then Raised ValidationError else
  let uncle_parent_gas_limit := bh_gas_limit uncle_parent in
  let uncle_parent_gas_limit :=
    if negb (bool_decide (is_Some (bh_base_fee_per_gas uncle_parent)))
       && bool_decide (is_Some (bh_base_fee_per_gas uncle))
    then uncle_parent_gas_limit * 2
    else uncle_parent_gas_limit in
  validate_gas_limit (bh_gas_limit uncle) uncle_parent_gas_limit.
End HeaderValidation.

Section Transactions.
(** What the fork and the state supply to [apply_transaction]: the check of
    a transaction against the header, [state.lock_changes],
    [state.apply_transaction], [make_receipt], [add_receipt_to_header], the
    hook called after each transaction, and the hash of the bloom filter. *)
Variable validate_transaction_against_header : BlockHeader → Transaction → Outcome unit.
Variable lock_changes : State → State.
Variable state_apply_transaction : Transaction → Exec State Computation.
Variable make_receipt : BlockHeader → Transaction → Computation → State → Receipt.
Variable add_receipt_to_header : BlockHeader → Receipt → BlockHeader.
Variable transaction_applied_hook :
  nat → list Transaction → Header → BlockHeader → Computation → Receipt → Exec State unit.
Variable keccak : bytes → bytes.

Definition apply_transaction (header : BlockHeader) (transaction : Transaction)
  : Exec State (Receipt * Computation) :=
  lift (validate_transaction_against_header header transaction) ;;;
  modify lock_changes ;;;
  computation <- state_apply_transaction transaction ;;
  receipt <- gets (make_receipt header transaction computation) ;;
  lift (validate_receipt keccak receipt) ;;;
  ret (receipt, computation).

(** The loop of [apply_all_transactions] from the transaction at
    [transaction_index] on, with the variables it carries. *)
Fixpoint apply_transactions_loop (transactions : list Transaction) (vm_header : Header)
    (transaction_index : nat) (remaining : list Transaction)
    (previous_header result_header : BlockHeader)
    (receipts : list Receipt) (computations : list Computation)
  : Exec State (BlockHeader * list Receipt * list Computation) :=
  match remaining with
  | [] => ret (result_header, receipts, computations)
  | transaction :: rest =>
      snapshot_ <- snapshot ;;
      applied <-
        (λ s, match apply_transaction previous_header transaction s with
              | (s', Raised EVMMissingData) =>
                  (revert snapshot_ ;;; raise EVMMissingData) s'
              | (s', outcome) => (s', outcome)
              end) ;;
      let '(receipt, computation) := applied in
      let result_header := add_receipt_to_header previous_header receipt in
      let previous_header := result_header in
      let receipts := receipts ++ [receipt] in
      let computations := computations ++ [computation] in
      transaction_applied_hook transaction_index transactions vm_header result_header
        computation receipt ;;;
      apply_transactions_loop transactions vm_header (S transaction_index) rest
        previous_header result_header receipts computations
  end.

Definition apply_all_transactions (vm : VirtualMachine)
    (transactions : list Transaction) (base_header : BlockHeader)
  : Exec State (BlockHeader * list Receipt * list Computation) :=
  let vm_header := vm_header vm in
  if negb (bh_block_number base_header =? header_block_number vm_header)
  then raise ValidationError
  else
    apply_transactions_loop transactions vm_header 0 transactions
      base_header base_header [] [].
End Transactions.
End VM.

(** ** Concrete inputs

    Addresses, states and transactions the statements below are evaluated
    on. *)

Definition address_of (n : Z) : Address := to_bytes_big 20 n.

Definition alice : Address := address_of 161.
Definition bob : Address := address_of 176.
Definition carol : Address := address_of 202.
Definition miner : Address := address_of 192.

Definition empty_world : World := mkWorld ∅ ∅ ∅.

(** The scenario "London base-fee": [max_fee=100, max_priority=2,
    base_fee=30]. *)
Definition london_state : State :=
  mkState empty_world [] (mkExecutionContext miner 1 (Some 30)).

Definition london_transaction : Transaction :=
  mkTransaction 0 21000 100 100 2 bob alice 0 [] [] 21000.

(** The sweep at the end of [finalize_computation] as a function of the
    state. *)
Definition delete_accounts (queue : list (Address * Address)) (s : State) : State :=
  foldl (λ s entry, delete_account (fst entry) s) s queue.

(** The refund step of [finalize_computation] as a function of the state:
    [if gas_refund_amount: delta_balance(sender, gas_refund_amount)]. *)
Definition credit (a : Address) (amount : Z) (s : State) : State :=
  if amount =? 0 then s else delta_balance a amount s.

(** A frame that ended with 3000 gas left out of 21000 + 79000, 40000 of
    accumulated refund and two accounts queued for deletion. *)
Definition finished_message : Message :=
  mkMessage 79000 bob alice 0 [] [] bob 0 false false true.

Definition finished_computation : Computation :=
  mkComputation finished_message (mkTransactionContext 32 alice) [] []
    (mkCodeStream [] 0) 3000 40000 [] [] None [(bob, alice); (carol, alice)].

Definition finished_transaction : Transaction :=
  mkTransaction 0 100000 100 100 2 bob alice 0 [] [] 21000.

(** The value transfer of [apply_message] as a function of the state. *)
Definition transfer_value (message : Message) (s : State) : State :=
  if msg_should_transfer_value message && negb (msg_value message =? 0)
  then delta_balance (msg_storage_address message) (msg_value message)
         (delta_balance (msg_sender message) (-1 * msg_value message) s)
  else s.

(** The state [apply_message] hands to the interpreter: the snapshot is
    open, the value has moved, the target is touched. *)
Definition message_entry_state (message : Message) (s : State) : State :=
  touch_account (msg_storage_address message)
    (transfer_value message (fst (snapshot s))).

(** The state in which Spurious Dragon's [apply_create_message] calls
    [apply_message]: its own snapshot is open and the nonce of the new
    account is incremented. *)
Definition create_entry_state (message : Message) (s : State) : State :=
  increment_nonce (msg_storage_address message) (fst (snapshot s)).

(** An interpreter to evaluate the statements on: it writes storage slot 0
    of the target, returns the message data as output with all gas left,
    and fails exactly on the one-byte code [0xfe]. *)
Definition sample_interpreter (message : Message) (ctx : TransactionContext)
  : Exec State Computation :=
  modify (set_storage (msg_storage_address message) 0 1) ;;;
  let computation := set_output (msg_data message) (get_computation message ctx) in
  ret (if bool_decide (msg_code message = [xfe%byte])
       then set_error InvalidInstruction computation
       else computation).

Definition funded_state : State :=
  set_balance alice 1000 (mkState empty_world [] (mkExecutionContext miner 1 None)).

Definition sample_context : TransactionContext := mkTransactionContext 1 alice.

Definition paying_message (code : bytes) (depth : Z) : Message :=
  mkMessage 50000 bob alice 5 [] code bob depth false false true.

(** A create message whose init code returns [output] as the new code. *)
Definition create_message (gas : Z) (output : bytes) : Message :=
  mkMessage gas [] alice 0 output [x00%byte] carol 0 true false true.

(** The sender can pay the value the message transfers, if it transfers any. *)
Definition sufficient_funds (message : Message) (s : State) : Prop :=
  msg_should_transfer_value message && negb (msg_value message =? 0) = true →
  msg_value message ≤ get_balance s (msg_sender message).

(** The [(address, slot)] pairs an access list names. *)
Definition access_list_slots (access_list : list (Address * list Z))
  : list (Address * Z) :=
  access_list ≫= (λ entry, (λ slot, (fst entry, slot)) <$> snd entry).

(** Modelled from the spec: an "Address" is 20 bytes; shorter strings are
    padded on the left, as [force_bytes_to_address] does for the precompile
    numbers. *)
Definition force_bytes_to_address (value : bytes) : Address :=
  rjust 20 x00%byte (last_bytes 20 value).

(** The keys of [FRONTIER_PRECOMPILES] in [forks/frontier/computation.py]:
    [ecrecover], [sha256], [ripemd160], [identity]. *)
Definition FRONTIER_PRECOMPILES : list Address :=
  [force_bytes_to_address [x01%byte]; force_bytes_to_address [x02%byte];
   force_bytes_to_address [x03%byte]; force_bytes_to_address [x04%byte]].

(** A transaction with an access list, in a state whose access sets were
    reset at the transaction boundary. *)
Definition listed_transaction : Transaction :=
  mkTransaction 0 100000 100 100 2 bob alice 0 [] [(carol, [7; 8])] 21000.

Definition listed_message : Message :=
  mkMessage 79000 bob alice 0 [] [] bob 0 false false true.

(** The opcode a frame would fetch at a position: what [peek] reads once
    the program counter is there. *)
Definition opcode_at (c : Computation) (position : Z) : Z :=
  peek (set_program_counter position c).

(** A frame running [PUSH1 0x5b; JUMPDEST]: position 1 holds the byte 0x5b
    as immediate data, position 2 holds a JUMPDEST instruction. *)
Definition jumping_frame (items : list StackItem) : Computation :=
  mkComputation listed_message sample_context items []
    (mkCodeStream [x60; x5b; x5b]%byte 0) 1000 0 [] [] None [].

(** The statements [JUMP] and a taken [JUMPI] share: move the program
    counter, then check the destination byte, then the opcode boundary. *)
Definition land_on (jump_dest : Z) : Exec Computation unit :=
  modify (set_program_counter jump_dest) ;;;
  next_opcode <- gets peek ;;
  if negb (next_opcode =? JUMPDEST) then raise InvalidJumpDestination else
  valid <- gets (λ c, is_valid_opcode c jump_dest) ;;
  if negb valid then raise InvalidInstruction else
  ret tt.

(** What the two store handlers do to the popped value: pad to [width] on
    the left with zero bytes, keep the last [width] bytes. *)
Definition normalize (width : nat) (value : bytes) : bytes :=
  last_bytes width (rjust width x00%byte value).

(** What growing the memory to cover [size] bytes at [start_position] costs
    a frame under a gas schedule. *)
Definition growth_fee (memory_gas_cost : Z → Z) (c : Computation)
    (start_position size : Z) : Z :=
  let before_cost := memory_gas_cost (ceil32 (Z.of_nat (length (memory c)))) in
  let after_cost := memory_gas_cost (ceil32 (start_position + size)) in
  if before_cost <? after_cost then after_cost - before_cost else 0.

(** A gas schedule to evaluate on: 3 gas a word plus the square of the
    number of words over 512. *)
Definition sample_memory_gas_cost (size : Z) : Z :=
  let words := ceil32 size / 32 in
  3 * words + words * words / 512.

Definition storing_frame (items : list StackItem) : Computation :=
  mkComputation listed_message sample_context items [x11; x22]%byte
    (mkCodeStream [] 0) 1000 0 [] [] None [].

(** What a store handler of [width] bytes does to a frame whose stack holds
    the start position and the value above [rest]: the shape of the
    normalized value, the raise when the growth of the memory cannot be paid,
    and otherwise the frame it leaves. *)
Definition stores_normalized (memory_gas_cost : Z → Z) (width : nat)
    (handler : Exec Computation unit) (c : Computation)
    (start : Z) (value : bytes) (rest : list StackItem) : Prop :=
  let normalized := normalize width value in
  let extended := Memory.extend start (Z.of_nat width) (memory c) in
  let fee := growth_fee memory_gas_cost c start (Z.of_nat width) in
  length normalized = width
  ∧ ((length value ≤ width)%nat →
     normalized = replicate (width - length value) x00%byte ++ value)
  ∧ ((width ≤ length value)%nat →
     normalized = drop (length value - width) value)
  ∧ (gas_remaining c < fee → handler c = (set_stack rest c, Raised OutOfGas))
  ∧ (fee ≤ gas_remaining c →
     ∃ c', handler c = (c', Returned tt)
         ∧ stack c' = rest
         ∧ gas_remaining c' = gas_remaining c - fee
         ∧ (∃ n, extended = memory c ++ replicate n x00%byte)
         ∧ start + Z.of_nat width ≤ Z.of_nat (length extended)
         ∧ length (memory c') = length extended
         ∧ take width (drop (Z.to_nat start) (memory c')) = normalized
         ∧ ∀ i : nat, (i < Z.to_nat start ∨ Z.to_nat start + width ≤ i)%nat →
                      memory c' !! i = extended !! i).

(** The topics of a receipt are [u256] values. *)
Definition topics_in_range (receipt : Receipt) : Prop :=
  ∀ log topic, log ∈ receipt_logs receipt → topic ∈ log_topics log →
               0 ≤ topic < 2 ^ 256.

(** A hash to evaluate on: the last six bytes of the value, zero bytes in
    front where it is shorter. *)
Definition sample_keccak (value : bytes) : bytes := normalize 6 value.

Definition sample_log : Log := mkLog alice [5] [].

(** Under [sample_keccak], [alice] sets the bits 0 and 161 and topic 5 the
    bits 0 and 5. *)
Definition sample_receipt (bloom : Z) : Receipt := mkReceipt [sample_log] bloom.

(** A London VM on block 10 over the funded world, with a child header that
    keeps the parent's base fee. *)
Definition sample_create_header_from_parent (parent : Header) (coinbase : Address)
  : Header :=
  mkHeader coinbase (header_block_number parent + 1) (header_state_root parent)
    (header_base_fee_per_gas parent).

Definition sample_vm : VirtualMachine :=
  mkVirtualMachine (mkHeader miner 10 0 (Some 30)) (λ _, world funded_state).

(** A body of the [with] statement that changes the yielded state and then
    raises, as a failing [costless_execute_transaction] does. *)
Definition raising_body : Exec State unit :=
  modify (set_balance alice 7) ;;; raise ValidationError.

(** The same body leaving the [with] statement normally. *)
Definition returning_body : Exec State unit :=
  modify (set_balance alice 7).

(** The bytes of immediate data still to pass after walking through [code]
    with [skip] bytes to pass at its start. *)
Fixpoint skip_after (code : bytes) (skip : nat) : nat :=
  match code, skip with
  | [], _ => skip
  | b :: rest, O => skip_after rest (push_data_size (byte_to_Z b))
  | _ :: rest, S skip' => skip_after rest skip'
  end.

(** Every integer on the stack of a frame is non-negative, as the values of
    a "stack<u256>" are. *)
Definition stack_non_negative (c : Computation) : Prop :=
  forallb (λ item, match item with IntItem v => 0 <=? v | BytesItem _ => true end)
    (stack c) = true.

(** A frame with one word of memory. *)
Definition loading_frame (items : list StackItem) : Computation :=
  mkComputation listed_message sample_context items (replicate 32 xff%byte)
    (mkCodeStream [] 0) 1000 0 [] [] None [].

(** The mnemonic ["GAS"]. *)
Definition GAS_mnemonic : list byte := [x47; x41; x53]%byte.

(** The state [build_evm_message] leaves: the gas is bought and the nonce
    of the sender is incremented. *)
Definition charged (transaction : Transaction) (price : Z) (s : State) : State :=
  increment_nonce (tx_sender transaction)
    (delta_balance (tx_sender transaction)
       (-1 * (tx_gas transaction * price)) s).

(** An address generator to evaluate the statements on. *)
Definition sample_generate_contract_address (sender : Address) (nonce : Z) : Address :=
  address_of (big_endian_to_int sender + nonce + 1000).

(** The London state with a sender that can buy 21000 gas at 32. *)
Definition funded_london_state : State := set_balance alice 1000000 london_state.

(** An account that exists and is empty, which EIP-161 removes once it
    is touched. *)
Definition exists_and_is_empty (s : State) (a : Address) : bool :=
  account_exists s a && account_is_empty s a.

(** A list of credits as a function of the state, and the sum it credits to
    one address. *)
Definition credit_all (credits : list (Address * Z)) (s : State) : State :=
  foldl (λ s entry, delta_balance (fst entry) (snd entry) s) s credits.

Fixpoint total_credited (a : Address) (credits : list (Address * Z)) : Z :=
  match credits with
  | [] => 0
  | entry :: rest =>
      (if bool_decide (fst entry = a) then snd entry else 0) + total_credited a rest
  end.

(** The credits of a list of withdrawals, in wei. *)
Definition withdrawal_credits (withdrawals : list Withdrawal) : list (Address * Z) :=
  (λ withdrawal, (wd_address withdrawal, wd_amount withdrawal * 10 ^ 9)) <$> withdrawals.

(** The credits of the rewards of a block: the miner's, then one for each
    uncle. *)
Definition reward_credits (get_block_reward get_nephew_reward : Z)
    (get_uncle_reward : Z → BlockHeader → Z) (block : Block) : list (Address * Z) :=
  (bh_coinbase (block_header block),
   get_block_reward + Z.of_nat (length (block_uncles block)) * get_nephew_reward)
  :: ((λ uncle, (bh_coinbase uncle, get_uncle_reward (block_number_of block) uncle))
        <$> block_uncles block).

(** The addresses a finished frame touched, to evaluate the statements on:
    the sender and the target of its message. *)
Definition sample_collect_touched_accounts (computation : Computation) : list Address :=
  [msg_sender (msg computation); msg_storage_address (msg computation)].

(** A frame that ended with 3000 gas left, no refund and nothing queued for
    deletion, and a state in which its target exists and is empty. *)
Definition settled_computation : Computation :=
  mkComputation finished_message (mkTransactionContext 32 alice) [] []
    (mkCodeStream [] 0) 3000 0 [] [] None [].

Definition touched_state : State := touch_account bob london_state.

(** A check of the fields of a withdrawal to evaluate the statements on:
    the three numbers are unsigned 64-bit integers and the address has 20
    bytes. *)
Definition sample_validate_withdrawal (withdrawal : Withdrawal) : Outcome unit :=
  if (0 <=? wd_index withdrawal) && (wd_index withdrawal <? 2 ^ 64)
     && (0 <=? wd_validator_index withdrawal) && (wd_validator_index withdrawal <? 2 ^ 64)
     && (0 <=? wd_amount withdrawal) && (wd_amount withdrawal <? 2 ^ 64)
     && bool_decide (length (wd_address withdrawal) = 20%nat)
  then Returned tt
  else Raised ValidationError.

(** Two withdrawals to [bob], one of nothing to [carol], and one whose
    amount is out of range. *)
Definition sample_withdrawals : list Withdrawal :=
  [mkWithdrawal 0 7 bob 3; mkWithdrawal 1 7 carol 0; mkWithdrawal 2 8 bob 4].

Definition bad_withdrawal : Withdrawal := mkWithdrawal 3 9 alice (-1).

(** A block at height 10 mined by [miner] with one uncle mined by [carol],
    and a reward for an uncle that falls with its distance. *)
Definition sample_block_header (coinbase : Address) (number : Z) : BlockHeader :=
  mkBlockHeader (mkHeader coinbase number 0 None) [] [] number 30000 0 [].

Definition sample_block : Block :=
  mkBlock (sample_block_header miner 10) [] [sample_block_header carol 9].

Definition sample_uncle_reward (block_number : Z) (uncle : BlockHeader) : Z :=
  (bh_block_number uncle + 8 - block_number) * 5 / 8.

(** The header [n] generations above a header in a chain database, when
    all the headers up to it are found. *)
Fixpoint nth_ancestor (chaindb : gmap bytes BlockHeader) (n : nat)
    (block_header : BlockHeader) : option BlockHeader :=
  match n with
  | O => Some block_header
  | S n' =>
      match chaindb !! bh_parent_hash block_header with
      | Some parent => nth_ancestor chaindb n' parent
      | None => None
      end
  end.

(** A chain database of two headers, each under its hash, the lower one on
    top of the genesis parent hash [[]]. *)
Definition hashed_header (hash parent_hash : bytes) (number : Z) : BlockHeader :=
  mkBlockHeader (mkHeader miner number 0 None) hash parent_hash number 30000 0 [].

Definition sample_chaindb : gmap bytes BlockHeader :=
  <[ [x02%byte] := hashed_header [x02%byte] [x01%byte] 2 ]>
    (<[ [x01%byte] := hashed_header [x01%byte] [] 1 ]> ∅).

(** A check of a gas limit next to its parent's to evaluate the statements
    on: at least 5000, and less than a 1024th of the parent's away from
    it. *)
Definition sample_validate_gas_limit (gas_limit parent_gas_limit : Z) : Outcome unit :=
  if (gas_limit <? 5000)
     || (Z.abs (gas_limit - parent_gas_limit) >=? parent_gas_limit / 1024)
  then Raised ValidationError
  else Returned tt.

(** The checks a header passes next to its parent, and an uncle next to
    its parent in a block. *)
Definition header_follows (validate_gas_limit : Z → Z → Outcome unit)
    (header parent_header : BlockHeader) : Prop :=
  (length (bh_extra_data header) ≤ 32)%nat
  ∧ validate_gas_limit (bh_gas_limit header) (bh_gas_limit parent_header) = Returned tt
  ∧ bh_block_number header = bh_block_number parent_header + 1
  ∧ bh_timestamp parent_header < bh_timestamp header.

(** The gas limit an uncle is checked against: its parent's, doubled when
    the uncle is the first of its line to carry a base fee. *)
Definition uncle_parent_gas_limit (uncle uncle_parent : BlockHeader) : Z :=
  match bh_base_fee_per_gas uncle_parent, bh_base_fee_per_gas uncle with
  | None, Some _ => bh_gas_limit uncle_parent * 2
  | _, _ => bh_gas_limit uncle_parent
  end.

Definition uncle_follows (validate_gas_limit : Z → Z → Outcome unit)
    (block : Block) (uncle uncle_parent : BlockHeader) : Prop :=
  bh_block_number uncle < block_number_of block
  ∧ bh_block_number uncle = bh_block_number uncle_parent + 1
  ∧ bh_timestamp uncle_parent < bh_timestamp uncle
  ∧ bh_gas_used uncle ≤ bh_gas_limit uncle
  ∧ validate_gas_limit (bh_gas_limit uncle) (uncle_parent_gas_limit uncle uncle_parent)
    = Returned tt.

(** The first London header on top of a header without a base fee, with
    twice its gas limit. *)
Definition london_uncle : BlockHeader :=
  mkBlockHeader (mkHeader carol 9 0 (Some 1000000000)) [] [] 9 60000 0 [].

Definition london_uncle_parent : BlockHeader :=
  mkBlockHeader (mkHeader carol 8 0 None) [] [] 8 30000 0 [].

(** What a VM is given around [apply_transaction], to evaluate the
    statements on: the receipt has no logs, the header is kept and the hook
    does nothing; one body of a transaction empties the sender's account and
    then misses data, the other returns a fresh frame. *)

(** Modelled from the spec: [lock_changes] "marks a checkpoint beyond which
    revert is forbidden": the changes stay and the open checkpoints are
    closed, so that the token of a snapshot taken before is stale. *)
Definition sample_lock_changes (s : State) : State :=
  mkState (world s) [] (execution_context s).

Definition sample_make_receipt (header : BlockHeader) (transaction : Transaction)
    (computation : Computation) (s : State) : Receipt :=
  mkReceipt [] 0.

Definition sample_add_receipt_to_header (header : BlockHeader) (receipt : Receipt)
  : BlockHeader :=
  header.

Definition sample_transaction_applied_hook (transaction_index : nat)
    (transactions : list Transaction) (vm_header : Header) (result_header : BlockHeader)
    (computation : Computation) (receipt : Receipt) : Exec State unit :=
  ret tt.

Definition missing_data_body (transaction : Transaction) : Exec State Computation :=
  modify (set_balance (tx_sender transaction) 0) ;;;
  raise EVMMissingData.

Definition returning_transaction_body (transaction : Transaction)
  : Exec State Computation :=
  modify (increment_nonce (tx_sender transaction)) ;;;
  ret settled_computation.

(** A state in which [carol] has a nonce, so that a create at [carol]
    collides. *)
Definition occupied_state : State := set_nonce carol 1 funded_state.

(** A computation class that runs the sample interpreter. *)
Definition sample_computation_class : ComputationAPI.t := {|
  ComputationAPI.apply_message :=
    FrontierComputation.apply_message sample_interpreter;
  ComputationAPI.apply_create_message :=
    FrontierComputation.apply_create_message sample_interpreter 200;
  ComputationAPI.get_precompiles := FRONTIER_PRECOMPILES
|}.

(** A message that sends more than [alice] has. *)
Definition overdrawn_message : Message :=
  mkMessage 50000 bob alice 1001 [] [] bob 0 false false true.

(** The message [build_evm_message] builds for a transaction in a state. *)
Definition built_message (generate_contract_address : Address → Z → Address)
    (transaction : Transaction) (s : State) : Message :=
  if bool_decide (tx_to transaction = CREATE_CONTRACT_ADDRESS)
  then Message_init (tx_gas transaction - tx_intrinsic_gas transaction)
         (tx_to transaction) (tx_sender transaction) (tx_value transaction)
         [] (tx_data transaction)
         (Some (generate_contract_address (tx_sender transaction)
                  (get_nonce s (tx_sender transaction))))
  else Message_init (tx_gas transaction - tx_intrinsic_gas transaction)
         (tx_to transaction) (tx_sender transaction) (tx_value transaction)
         (tx_data transaction) (get_code s (tx_to transaction)) None.

(** A reader of the logged fields to evaluate the statements on: a
    transaction whose two fees are its gas price is read as a legacy
    transaction; any other one as a dynamic-fee transaction, which has no
    [gas_price]. *)
Definition sample_read_logged_fields (transaction : Transaction) : Outcome unit :=
  if (tx_max_fee_per_gas transaction =? tx_gas_price transaction)
     && (tx_max_priority_fee_per_gas transaction =? tx_gas_price transaction)
  then Returned tt
  else Raised AttributeError.

(** A legacy transaction that sends 5 with 21000 gas at a gas price of 10. *)
Definition legacy_transaction : Transaction :=
  mkTransaction 0 21000 10 10 10 bob alice 5 [] [] 21000.

(** * Properties *)

(** ** Reasoning about [Exec] *)

Lemma bind_returned {S A B} (m : Exec S A) (k : A → Exec S B) s s' a :
  m s = (s', Returned a) → bind m k s = k a s'.
Proof. unfold bind. now intros ->. Qed.

Lemma bind_raised {S A B} (m : Exec S A) (k : A → Exec S B) s s' e :
  m s = (s', Raised e) → bind m k s = (s', Raised e).
Proof. unfold bind. now intros ->. Qed.

Lemma bind_modify {S B} (f : S → S) (k : unit → Exec S B) s :
  bind (modify f) k s = k tt (f s).
Proof. reflexivity. Qed.

Lemma bind_gets {S A B} (f : S → A) (k : A → Exec S B) s :
  bind (gets f) k s = k (f s) s.
Proof. reflexivity. Qed.

Lemma bind_ret {S A B} (a : A) (k : A → Exec S B) s :
  bind (ret a) k s = k a s.
Proof. reflexivity. Qed.

Lemma bind_raise {S A B} e (k : A → Exec S B) s :
  bind (raise e) k s = (s, Raised e).
Proof. reflexivity. Qed.

(** A loop whose body only updates the object is a left fold. *)
Lemma for_each_modify {S A} (f : A → S → S) (l : list A) (s : S) :
  for_each l (λ x, modify (f x)) s = (foldl (λ s x, f x s) s l, Returned tt).
Proof.
  revert s. induction l as [|x l IH]; intros s; simpl; [reflexivity|].
  rewrite bind_modify. apply IH.
Qed.

Lemma for_each_ext {S A} (f g : A → Exec S unit) (l : list A) (s : S) :
  (∀ x s, f x s = g x s) → for_each l f s = for_each l g s.
Proof.
  intros Hfg. revert s. induction l as [|x l IH]; intros s; simpl; [reflexivity|].
  unfold bind. rewrite Hfg. destruct (g x s) as [s' [[]|e]]; [apply IH|reflexivity].
Qed.

(** ** London fee market *)

(** C1. With base fee [b], London's [get_gas_price] and the [gas_price] of the
    transaction context are [min(max_fee_per_gas, max_priority_fee_per_gas + b)],
    and [get_tip] is [min(max_priority_fee_per_gas, max_fee_per_gas - b)], for
    every transaction and every base fee. *)
Theorem london_effective_gas_price_and_tip (s : State) (transaction : Transaction) (b : Z) :
  base_fee_per_gas (execution_context s) = Some b →
  LondonState.get_gas_price s transaction
    = Returned (Z.min (tx_max_fee_per_gas transaction)
                      (tx_max_priority_fee_per_gas transaction + b))
  ∧ LondonState.get_transaction_context s transaction
    = Returned (mkTransactionContext
                  (Z.min (tx_max_fee_per_gas transaction)
                         (tx_max_priority_fee_per_gas transaction + b))
                  (tx_sender transaction))
  ∧ LondonState.get_tip s transaction
    = Returned (Z.min (tx_max_priority_fee_per_gas transaction)
                      (tx_max_fee_per_gas transaction - b)).
Proof.
  intros Hb.
  unfold LondonState.get_gas_price, LondonState.get_transaction_context,
    LondonState.get_tip, LondonState.execution_context_base_fee_per_gas.
  rewrite Hb. repeat split.
  - now rewrite Z.min_comm.
  - now rewrite Z.min_comm.
Qed.

Lemma london_effective_gas_price_and_tip_witness :
  LondonState.get_gas_price london_state london_transaction = Returned 32
  ∧ LondonState.get_transaction_context london_state london_transaction
    = Returned (mkTransactionContext 32 alice)
  ∧ LondonState.get_tip london_state london_transaction = Returned 2.
Proof.
  exact (london_effective_gas_price_and_tip london_state london_transaction 30 eq_refl).
Defined.

(** ** Refunds at finalization *)

Section Finalization.
Context {vm_state : StateAPI.t} {executor : TransactionExecutorAPI.t}.

(** [finalize_computation] step by step: the refund is computed from the
    gas used, the sender is credited, the fee recipient is paid on what
    remains, the queued accounts are deleted. *)
Lemma finalize_computation_steps transaction computation s ctx tip :
  let gas_remaining := get_gas_remaining computation in
  let result := TransactionExecutorAPI.calculate_gas_refund computation
                  (tx_gas transaction - gas_remaining) in
  let amount := (snd result + gas_remaining) * gas_price ctx in
  let credited := credit (msg_sender (msg (fst result))) amount s in
  StateAPI.get_transaction_context s transaction = Returned ctx →
  StateAPI.get_tip credited transaction = Returned tip →
  FrontierTransactionExecutor.finalize_computation transaction computation s
  = (delete_accounts (get_accounts_for_deletion (fst result))
       (delta_balance (coinbase (execution_context credited))
          ((tx_gas transaction - gas_remaining - snd result) * tip) credited),
     Returned (fst result)).
Proof.
  intros gas_remaining result amount credited Hctx Htip.
  unfold FrontierTransactionExecutor.finalize_computation.
  erewrite bind_returned by (rewrite Hctx; reflexivity).
  fold gas_remaining. fold result. destruct result as [c' refund] eqn:Hres.
  simpl in amount, credited, Htip |- *. fold amount.
  assert (Hcredit :
    (if negb (amount =? 0)
     then modify (delta_balance (msg_sender (msg c')) amount)
     else ret tt) s = (credited, Returned tt)).
  { unfold credited, credit. destruct (amount =? 0); reflexivity. }
  erewrite bind_returned by exact Hcredit.
  erewrite bind_returned by (rewrite Htip; reflexivity).
  rewrite bind_gets, bind_modify.
  erewrite bind_returned; [reflexivity|].
  rewrite (for_each_ext _ (λ entry, modify (delete_account (fst entry))))
    by (intros [account beneficiary] s0; reflexivity).
  apply (for_each_modify (λ entry, delete_account (fst entry))).
Qed.
End Finalization.

Lemma get_balance_delta_balance s a delta :
  get_balance (delta_balance a delta s) a = get_balance s a + delta.
Proof.
  unfold delta_balance, set_balance, get_balance at 1, get_account at 1; simpl.
  now rewrite lookup_insert_eq.
Qed.

Lemma get_balance_credit s a amount :
  get_balance (credit a amount s) a = get_balance s a + amount.
Proof.
  unfold credit. destruct (Z.eqb_spec amount 0) as [->|_]; [lia|].
  apply get_balance_delta_balance.
Qed.

Lemma get_gas_refund_refund_gas amount computation :
  is_error computation = false →
  get_gas_refund (refund_gas amount computation) = get_gas_refund computation + amount.
Proof.
  intros Herror. unfold get_gas_refund.
  change (is_error (refund_gas amount computation)) with (is_error computation).
  now rewrite Herror.
Qed.

Lemma frontier_calculate_gas_refund R computation gas_used :
  (is_error computation = false
   ∧ FrontierTransactionExecutor.calculate_gas_refund R computation gas_used
     = (refund_gas
          (R * Z.of_nat (length (get_accounts_for_deletion computation))) computation,
        Z.min (get_gas_refund computation
               + R * Z.of_nat (length (get_accounts_for_deletion computation)))
              (gas_used / 2)))
  ∨ (get_accounts_for_deletion computation = []
     ∧ FrontierTransactionExecutor.calculate_gas_refund R computation gas_used
       = (computation, Z.min (get_gas_refund computation) (gas_used / 2))).
Proof.
  unfold FrontierTransactionExecutor.calculate_gas_refund.
  destruct (get_accounts_for_deletion computation) as [|entry queue] eqn:Hqueue;
    [right|left].
  - split; reflexivity.
  - assert (Herror : is_error computation = false).
    { unfold get_accounts_for_deletion in Hqueue.
      destruct (is_error computation); [discriminate|reflexivity]. }
    split; [exact Herror|].
    cbn [length negb]. rewrite (proj2 (Z.eqb_neq _ 0)) by lia. cbn [negb].
    unfold MAX_REFUND_QUOTIENT. f_equal. f_equal.
    now apply get_gas_refund_refund_gas.
Qed.

(** The accessors of a frame that ended with an error that consumes all
    gas. *)
Lemma burnt_frame_accessors computation :
  should_burn_gas computation = true →
  is_error computation = true
  ∧ get_gas_remaining computation = 0
  ∧ get_gas_refund computation = 0
  ∧ get_accounts_for_deletion computation = [].
Proof.
  unfold should_burn_gas, get_gas_remaining, get_gas_refund, get_accounts_for_deletion,
    should_burn_gas, is_error.
  destruct (error computation) as [e|]; [|discriminate].
  intros ->. rewrite bool_decide_eq_true_2 by eauto. auto.
Qed.



(** ** Snapshots *)

Lemma revert_open_checkpoint s extra w cps :
  checkpoints s = extra ++ w :: cps →
  revert (length cps) s = (mkState w cps (execution_context s), Returned tt).
Proof.
  intros Hcps. unfold revert. rewrite Hcps, length_app. simpl.
  replace (length extra + S (length cps) - 1 - length cps)%nat
    with (length extra + 0)%nat by lia.
  rewrite lookup_app_r by lia.
  replace (length extra + 0 - length extra)%nat with 0%nat by lia. simpl.
  rewrite bool_decide_eq_true_2 by lia.
  replace (length extra + S (length cps) - length cps)%nat
    with (length extra + 1)%nat by lia.
  rewrite drop_app_add'; reflexivity.
Qed.

Lemma commit_open_checkpoint s extra w cps :
  checkpoints s = extra ++ w :: cps →
  commit (length cps) s = (mkState (world s) cps (execution_context s), Returned tt).
Proof.
  intros Hcps. unfold commit. rewrite Hcps, length_app. simpl.
  rewrite bool_decide_eq_true_2 by lia.
  replace (length extra + S (length cps) - length cps)%nat
    with (length extra + 1)%nat by lia.
  rewrite drop_app_add'; reflexivity.
Qed.

Lemma checkpoints_transfer_value message s :
  checkpoints (transfer_value message s) = checkpoints s.
Proof. unfold transfer_value. now destruct (_ && _). Qed.

Lemma checkpoints_message_entry_state message s :
  checkpoints (message_entry_state message s) = world s :: checkpoints s.
Proof.
  unfold message_entry_state, touch_account, put_account, set_accounts, set_world.
  simpl. now rewrite checkpoints_transfer_value.
Qed.

(** ** Message application *)

Section ApplyMessage.
Variable apply_computation : Message → TransactionContext → Exec State Computation.

(** Past its two guards, [apply_message] runs the interpreter on the entry
    state and closes its snapshot on the interpreter's verdict. *)
Lemma apply_message_past_guards message ctx s :
  msg_depth message ≤ STACK_DEPTH_LIMIT →
  sufficient_funds message s →
  FrontierComputation.apply_message apply_computation message ctx s
  = bind (apply_computation message ctx)
      (λ computation,
         (if is_error computation
          then revert (length (checkpoints s))
          else commit (length (checkpoints s))) ;;;
         ret computation)
      (message_entry_state message s).
Proof.
  intros Hdepth Hfunds. unfold FrontierComputation.apply_message.
  erewrite bind_returned by reflexivity.
  destruct (Z.gtb_spec (msg_depth message) STACK_DEPTH_LIMIT) as [?|_]; [lia|].
  unfold message_entry_state, transfer_value, sufficient_funds in *.
  destruct (msg_should_transfer_value message && negb (msg_value message =? 0)).
  - unfold bind at 1 2, gets.
    match goal with
    | |- context [?balance <? msg_value message] =>
        change balance with (get_balance s (msg_sender message))
    end.
    destruct (Z.ltb_spec (get_balance s (msg_sender message)) (msg_value message))
      as [?|_]; [specialize (Hfunds eq_refl); lia|].
    reflexivity.
  - reflexivity.
Qed.

Lemma apply_message_over_limit message ctx s :
  STACK_DEPTH_LIMIT < msg_depth message →
  FrontierComputation.apply_message apply_computation message ctx s
  = (fst (snapshot s), Raised StackDepthLimit).
Proof.
  intros Hdepth. unfold FrontierComputation.apply_message.
  erewrite bind_returned by reflexivity.
  destruct (Z.gtb_spec (msg_depth message) STACK_DEPTH_LIMIT) as [_|?]; [|lia].
  reflexivity.
Qed.

(** What [apply_message] leaves when the interpreter returned a frame and
    kept the checkpoints it found. *)
Lemma apply_message_closes_snapshot message ctx s s1 computation extra :
  msg_depth message ≤ STACK_DEPTH_LIMIT →
  sufficient_funds message s →
  apply_computation message ctx (message_entry_state message s)
    = (s1, Returned computation) →
  checkpoints s1 = extra ++ checkpoints (message_entry_state message s) →
  FrontierComputation.apply_message apply_computation message ctx s
  = (mkState (if is_error computation then world s else world s1)
       (checkpoints s) (execution_context s1),
     Returned computation).
Proof.
  intros Hdepth Hfunds Hrun Hcps.
  rewrite checkpoints_message_entry_state in Hcps.
  rewrite apply_message_past_guards by assumption.
  erewrite bind_returned by exact Hrun.
  destruct (is_error computation).
  - erewrite bind_returned by exact (revert_open_checkpoint _ _ _ _ Hcps).
    reflexivity.
  - erewrite bind_returned by exact (commit_open_checkpoint _ _ _ _ Hcps).
    reflexivity.
Qed.
End ApplyMessage.



(** C6. A message deeper than 1024 makes [apply_message] raise
    [StackDepthLimit] right after the snapshot, whatever the interpreter is:
    no frame is run for it, and the same holds for a create message, whose
    [apply_create_message] goes through [apply_message].  So whenever
    [apply_message] returns a frame, the depth of its message is at most
    1024. *)
Theorem apply_message_stack_depth_limit
    (apply_computation : Message → TransactionContext → Exec State Computation)
    (message : Message) (ctx : TransactionContext) (s : State) :
  (STACK_DEPTH_LIMIT < msg_depth message →
   ∀ interpreter,
     FrontierComputation.apply_message interpreter message ctx s
     = (fst (snapshot s), Raised StackDepthLimit)
     ∧ (∀ GAS_CODEDEPOSIT,
          FrontierComputation.apply_create_message interpreter GAS_CODEDEPOSIT
            message ctx s
          = (fst (snapshot s), Raised StackDepthLimit)
          ∧ SpuriousDragonComputation.apply_create_message interpreter
              GAS_CODEDEPOSIT message ctx s
            = (fst (snapshot (create_entry_state message s)),
               Raised StackDepthLimit)))
  ∧ (∀ s' computation,
       FrontierComputation.apply_message apply_computation message ctx s
         = (s', Returned computation) →
       msg_depth message ≤ STACK_DEPTH_LIMIT)
  ∧ STACK_DEPTH_LIMIT = 1024.
Proof.
  split; [|split; [|reflexivity]].
  - intros Hdepth interpreter.
    split; [now apply apply_message_over_limit|].
    intros GAS_CODEDEPOSIT. split.
    + unfold FrontierComputation.apply_create_message.
      now erewrite bind_raised by now apply apply_message_over_limit.
    + unfold SpuriousDragonComputation.apply_create_message,
        SpuriousDragonComputation.validate_create_message.
      erewrite bind_returned by reflexivity. rewrite bind_modify.
      erewrite bind_returned by reflexivity.
      now erewrite bind_raised by now apply apply_message_over_limit.
  - intros s' computation Hreturned.
    destruct (Z.le_gt_cases (msg_depth message) STACK_DEPTH_LIMIT) as [?|Hdeep];
      [assumption|].
    rewrite apply_message_over_limit in Hreturned by assumption. discriminate.
Qed.

Lemma apply_message_stack_depth_limit_witness :
  FrontierComputation.apply_message sample_interpreter
    (paying_message [] 1025) sample_context funded_state
  = (fst (snapshot funded_state), Raised StackDepthLimit)
  ∧ msg_depth (paying_message [] 1024) ≤ STACK_DEPTH_LIMIT.
Proof.
  split.
  - apply (apply_message_stack_depth_limit sample_interpreter
             (paying_message [] 1025) sample_context funded_state).
    vm_compute. reflexivity.
  - eapply (apply_message_stack_depth_limit sample_interpreter
              (paying_message [] 1024) sample_context funded_state).
    vm_compute. reflexivity.
Defined.

(** ** Contract creation *)

Section CodeDeposit.
Variable apply_computation : Message → TransactionContext → Exec State Computation.
Variable GAS_CODEDEPOSIT : Z.

Lemma consume_gas_short amount computation :
  gas_remaining computation < amount →
  consume_gas amount computation = (computation, Raised OutOfGas).
Proof.
  intros Hshort. unfold consume_gas.
  destruct (Z.ltb_spec (gas_remaining computation) amount); [reflexivity|lia].
Qed.

Lemma consume_gas_paid amount computation :
  amount ≤ gas_remaining computation →
  consume_gas amount computation
  = (set_gas_remaining (gas_remaining computation - amount) computation, Returned tt).
Proof.
  intros Henough. unfold consume_gas.
  destruct (Z.ltb_spec (gas_remaining computation) amount); [lia|reflexivity].
Qed.

Lemma frontier_apply_create_message message ctx s s1 computation :
  let fee := Z.of_nat (length (output computation)) * GAS_CODEDEPOSIT in
  FrontierComputation.apply_message apply_computation message ctx s
    = (s1, Returned computation) →
  is_error computation = false →
  output computation ≠ [] →
  FrontierComputation.apply_create_message apply_computation GAS_CODEDEPOSIT
    message ctx s
  = if gas_remaining computation <? fee
    then (s1, Returned (set_output [] computation))
    else (set_code (msg_storage_address message) (output computation) s1,
          Returned (set_gas_remaining (gas_remaining computation - fee) computation)).
Proof.
  intros fee Hmessage Hok Hcode.
  unfold FrontierComputation.apply_create_message.
  erewrite bind_returned by exact Hmessage.
  rewrite Hok, bool_decide_eq_false_2 by assumption. simpl. fold fee.
  destruct (Z.ltb_spec (gas_remaining computation) fee).
  - now rewrite consume_gas_short.
  - now rewrite consume_gas_paid.
Qed.

Lemma deposit_code_refused contract_code computation :
  EIP170_CODE_SIZE_LIMIT < Z.of_nat (length contract_code)
  ∨ gas_remaining computation < Z.of_nat (length contract_code) * GAS_CODEDEPOSIT →
  SpuriousDragonComputation.deposit_code GAS_CODEDEPOSIT contract_code computation
  = (computation, Raised OutOfGas).
Proof.
  intros Hrefused. unfold SpuriousDragonComputation.deposit_code,
    SpuriousDragonComputation.validate_contract_code, bind, lift.
  destruct (Z.gtb_spec (Z.of_nat (length contract_code)) EIP170_CODE_SIZE_LIMIT);
    [reflexivity|].
  destruct Hrefused as [?|Hshort]; [lia|]. now apply consume_gas_short.
Qed.

Lemma deposit_code_paid contract_code computation :
  Z.of_nat (length contract_code) ≤ EIP170_CODE_SIZE_LIMIT →
  Z.of_nat (length contract_code) * GAS_CODEDEPOSIT ≤ gas_remaining computation →
  SpuriousDragonComputation.deposit_code GAS_CODEDEPOSIT contract_code computation
  = (set_gas_remaining
       (gas_remaining computation - Z.of_nat (length contract_code) * GAS_CODEDEPOSIT)
       computation,
     Returned tt).
Proof.
  intros Hsize Henough. unfold SpuriousDragonComputation.deposit_code,
    SpuriousDragonComputation.validate_contract_code, bind, lift.
  destruct (Z.gtb_spec (Z.of_nat (length contract_code)) EIP170_CODE_SIZE_LIMIT);
    [lia|].
  now apply consume_gas_paid.
Qed.

Lemma spurious_dragon_apply_create_message message ctx s s1 computation extra :
  let fee := Z.of_nat (length (output computation)) * GAS_CODEDEPOSIT in
  FrontierComputation.apply_message apply_computation message ctx
    (create_entry_state message s) = (s1, Returned computation) →
  checkpoints s1 = extra ++ world s :: checkpoints s →
  is_error computation = false →
  output computation ≠ [] →
  SpuriousDragonComputation.apply_create_message apply_computation GAS_CODEDEPOSIT
    message ctx s
  = if (Z.of_nat (length (output computation)) >? EIP170_CODE_SIZE_LIMIT)
       || (gas_remaining computation <? fee)
    then (mkState (world s) (checkpoints s) (execution_context s1),
          Returned (set_error OutOfGas computation))
    else (mkState (world (set_code (msg_storage_address message)
                            (output computation) s1))
            (checkpoints s) (execution_context s1),
          Returned (set_gas_remaining (gas_remaining computation - fee) computation)).
Proof.
  intros fee Hmessage Hcps Hok Hcode.
  unfold SpuriousDragonComputation.apply_create_message.
  erewrite bind_returned by reflexivity.
  rewrite bind_modify. unfold SpuriousDragonComputation.validate_create_message.
  erewrite bind_returned by reflexivity.
  erewrite bind_returned by exact Hmessage.
  rewrite Hok, bool_decide_eq_false_2 by assumption. simpl negb. cbv iota.
  destruct (Z.gtb_spec (Z.of_nat (length (output computation))) EIP170_CODE_SIZE_LIMIT)
    as [Hbig|Hsmall]; simpl orb.
  - rewrite deposit_code_refused by (left; lia). simpl.
    erewrite bind_returned by exact (revert_open_checkpoint _ _ _ _ Hcps).
    reflexivity.
  - destruct (Z.ltb_spec (gas_remaining computation) fee) as [Hshort|Henough].
    + rewrite deposit_code_refused by (right; assumption). simpl.
      erewrite bind_returned by exact (revert_open_checkpoint _ _ _ _ Hcps).
      reflexivity.
    + rewrite deposit_code_paid by assumption. cbn [negb]. rewrite bind_modify.
      erewrite bind_returned; [reflexivity|].
      exact (commit_open_checkpoint
               (set_code (msg_storage_address message) (output computation) s1)
               extra (world s) _ Hcps).
Qed.
End CodeDeposit.

(** C5. Finalizing a create charges [GAS_CODEDEPOSIT * len(output)].  In
    Frontier a charge above the remaining gas leaves a frame without error
    whose output is emptied, and no code is stored; a charge that can be paid
    is consumed and the code stored.  From Spurious Dragon a [VMError] of the
    deposit (the charge exceeds the remaining gas, or the code is longer than
    24576 bytes) is set on the frame and the state is back at the snapshot
    opened at the start of the create. *)
Theorem code_deposit_at_create
    (apply_computation : Message → TransactionContext → Exec State Computation)
    (GAS_CODEDEPOSIT : Z) (message : Message) (ctx : TransactionContext) (s : State) :
  (∀ s1 computation,
     let fee := Z.of_nat (length (output computation)) * GAS_CODEDEPOSIT in
     FrontierComputation.apply_message apply_computation message ctx s
       = (s1, Returned computation) →
     is_error computation = false →
     output computation ≠ [] →
     (gas_remaining computation < fee →
      FrontierComputation.apply_create_message apply_computation GAS_CODEDEPOSIT
        message ctx s = (s1, Returned (set_output [] computation))
      ∧ is_error (set_output [] computation) = false
      ∧ output (set_output [] computation) = [])
     ∧ (fee ≤ gas_remaining computation →
        FrontierComputation.apply_create_message apply_computation GAS_CODEDEPOSIT
          message ctx s
        = (set_code (msg_storage_address message) (output computation) s1,
           Returned (set_gas_remaining (gas_remaining computation - fee) computation))))
  ∧ (∀ s1 computation extra,
       let fee := Z.of_nat (length (output computation)) * GAS_CODEDEPOSIT in
       FrontierComputation.apply_message apply_computation message ctx
         (create_entry_state message s) = (s1, Returned computation) →
       checkpoints s1 = extra ++ world s :: checkpoints s →
       is_error computation = false →
       output computation ≠ [] →
       (EIP170_CODE_SIZE_LIMIT < Z.of_nat (length (output computation))
        ∨ gas_remaining computation < fee →
        ∃ s', SpuriousDragonComputation.apply_create_message apply_computation
                GAS_CODEDEPOSIT message ctx s
              = (s', Returned (set_error OutOfGas computation))
            ∧ is_VMError OutOfGas = true
            ∧ error (set_error OutOfGas computation) = Some OutOfGas
            ∧ world s' = world s
            ∧ checkpoints s' = checkpoints s)
       ∧ (Z.of_nat (length (output computation)) ≤ EIP170_CODE_SIZE_LIMIT →
          fee ≤ gas_remaining computation →
          ∃ s', SpuriousDragonComputation.apply_create_message apply_computation
                  GAS_CODEDEPOSIT message ctx s
                = (s', Returned (set_gas_remaining (gas_remaining computation - fee)
                                   computation))
              ∧ world s' = world (set_code (msg_storage_address message)
                                    (output computation) s1)
              ∧ checkpoints s' = checkpoints s))
  ∧ EIP170_CODE_SIZE_LIMIT = 24576.
Proof.
  split; [|split; [|reflexivity]].
  - intros s1 computation fee Hmessage Hok Hcode.
    pose proof (frontier_apply_create_message apply_computation GAS_CODEDEPOSIT
                  message ctx s s1 computation Hmessage Hok Hcode) as Hcreate.
    cbv zeta in Hcreate. fold fee in Hcreate.
    split; intros Hfee.
    + destruct (Z.ltb_spec (gas_remaining computation) fee); [|lia].
      split; [exact Hcreate|]. split; [exact Hok|reflexivity].
    + destruct (Z.ltb_spec (gas_remaining computation) fee); [lia|exact Hcreate].
  - intros s1 computation extra fee Hmessage Hcps Hok Hcode.
    pose proof (spurious_dragon_apply_create_message apply_computation GAS_CODEDEPOSIT
                  message ctx s s1 computation extra Hmessage Hcps Hok Hcode) as Hcreate.
    cbv zeta in Hcreate. fold fee in Hcreate.
    split.
    + intros Hrefused.
      exists (mkState (world s) (checkpoints s) (execution_context s1)).
      split; [|repeat split].
      rewrite Hcreate.
      destruct (Z.gtb_spec (Z.of_nat (length (output computation)))
                  EIP170_CODE_SIZE_LIMIT); [reflexivity|].
      destruct (Z.ltb_spec (gas_remaining computation) fee); [reflexivity|].
      destruct Hrefused; lia.
    + intros Hsize Hfee.
      exists (mkState (world (set_code (msg_storage_address message)
                                (output computation) s1))
                (checkpoints s) (execution_context s1)).
      split; [|split; reflexivity].
      rewrite Hcreate.
      destruct (Z.gtb_spec (Z.of_nat (length (output computation)))
                  EIP170_CODE_SIZE_LIMIT); [lia|].
      destruct (Z.ltb_spec (gas_remaining computation) fee); [lia|reflexivity].
Qed.

Lemma code_deposit_at_create_witness :
  FrontierComputation.apply_create_message sample_interpreter 200
    (create_message 100 [x60; x00]%byte) sample_context funded_state
  = (fst (FrontierComputation.apply_message sample_interpreter
            (create_message 100 [x60; x00]%byte) sample_context funded_state),
     Returned (set_output []
                 (set_output [x60; x00]%byte
                    (get_computation (create_message 100 [x60; x00]%byte)
                       sample_context))))
  ∧ ∃ s', SpuriousDragonComputation.apply_create_message sample_interpreter 200
            (create_message 100 [x60; x00]%byte) sample_context funded_state
          = (s', Returned (set_error OutOfGas
                             (set_output [x60; x00]%byte
                                (get_computation (create_message 100 [x60; x00]%byte)
                                   sample_context))))
        ∧ world s' = world funded_state.
Proof.
  destruct (code_deposit_at_create sample_interpreter 200
              (create_message 100 [x60; x00]%byte) sample_context funded_state)
    as (Hfrontier & Hspurious & _).
  split.
  - apply Hfrontier.
    + vm_compute. reflexivity.
    + reflexivity.
    + discriminate.
    + vm_compute. reflexivity.
  - destruct (Hspurious
                (fst (FrontierComputation.apply_message sample_interpreter
                        (create_message 100 [x60; x00]%byte) sample_context
                        (create_entry_state (create_message 100 [x60; x00]%byte)
                           funded_state)))
                (set_output [x60; x00]%byte
                   (get_computation (create_message 100 [x60; x00]%byte)
                      sample_context))
                []) as [Hrefused _].
    + vm_compute. reflexivity.
    + vm_compute. reflexivity.
    + reflexivity.
    + discriminate.
    + destruct Hrefused as (s' & Hcreate & _ & _ & Hworld & _).
      * right. vm_compute. reflexivity.
      * exists s'. split; [exact Hcreate|exact Hworld].
Defined.

(** ** Access-set warming *)

Lemma mark_slots_warm address (slots : list Z) s :
  ∃ s', for_each slots (λ slot, modify (mark_storage_warm address slot)) s
        = (s', Returned tt)
      ∧ accounts (world s') = accounts (world s)
      ∧ warm_addresses (world s') = warm_addresses (world s)
      ∧ warm_slots (world s')
        = list_to_set ((λ slot, (address, slot)) <$> slots) ∪ warm_slots (world s)
      ∧ checkpoints s' = checkpoints s
      ∧ execution_context s' = execution_context s.
Proof.
  revert s. induction slots as [|slot slots IH]; intros s.
  - exists s. simpl. repeat split; try reflexivity. clear. set_solver.
  - destruct (IH (mark_storage_warm address slot s))
      as (s' & Hrun & Haccounts & Haddresses & Hslots & Hcps & Hctx).
    exists s'. simpl for_each. rewrite bind_modify. split; [exact Hrun|].
    rewrite Haccounts, Haddresses, Hslots, Hcps, Hctx. simpl.
    repeat split; try reflexivity. clear. set_solver.
Qed.

Lemma mark_access_list_warm (access_list : list (Address * list Z)) s :
  ∃ s', for_each access_list
          (λ '(address, slots),
             modify (mark_address_warm address) ;;;
             for_each slots (λ slot, modify (mark_storage_warm address slot))) s
        = (s', Returned tt)
      ∧ accounts (world s') = accounts (world s)
      ∧ warm_addresses (world s')
        = list_to_set (access_list.*1) ∪ warm_addresses (world s)
      ∧ warm_slots (world s')
        = list_to_set (access_list_slots access_list) ∪ warm_slots (world s)
      ∧ checkpoints s' = checkpoints s
      ∧ execution_context s' = execution_context s.
Proof.
  revert s. induction access_list as [|[address slots] access_list IH]; intros s.
  - exists s. simpl. repeat split; try reflexivity; clear; set_solver.
  - destruct (mark_slots_warm address slots (mark_address_warm address s))
      as (s1 & Hrun1 & Haccounts1 & Haddresses1 & Hslots1 & Hcps1 & Hctx1).
    destruct (IH s1) as (s' & Hrun & Haccounts & Haddresses & Hslots & Hcps & Hctx).
    exists s'. split.
    + simpl for_each. rewrite (bind_returned _ _ s s1 tt); [exact Hrun|].
      rewrite bind_modify. exact Hrun1.
    + rewrite Haccounts, Haddresses, Hslots, Hcps, Hctx,
        Haccounts1, Haddresses1, Hslots1, Hcps1, Hctx1.
      unfold access_list_slots. simpl.
      repeat split; try reflexivity.
      * clear. set_solver.
      * rewrite list_to_set_app_L. clear. set_solver.
Qed.

(** C4. Before Berlin's [build_computation] hands over to the inherited
    [build_computation], which builds and runs the top-level computation,
    the sender, the storage address of the message, every address and every
    [(address, slot)] pair of the access list and every precompile of the
    computation class are warm.  The sender, the storage address and the
    entries of the access list are marked by [build_computation]; the
    precompiles are warm in every state, without being marked.  The accounts
    and the open checkpoints are untouched. *)
Theorem berlin_build_computation_warms
    {vm_state : StateAPI.t} {computation_class : ComputationAPI.t}
    (message : Message) (transaction : Transaction) (s : State) :
  ∃ s_warm,
    BerlinTransactionExecutor.mark_transaction_warm message transaction s
      = (s_warm, Returned tt)
    ∧ BerlinTransactionExecutor.build_computation message transaction s
      = FrontierTransactionExecutor.build_computation message transaction s_warm
    ∧ accounts (world s_warm) = accounts (world s)
    ∧ checkpoints s_warm = checkpoints s
    ∧ is_address_warm s_warm (tx_sender transaction) = true
    ∧ is_address_warm s_warm (msg_storage_address message) = true
    ∧ (∀ address slots, (address, slots) ∈ tx_access_list transaction →
         is_address_warm s_warm address = true
         ∧ ∀ slot, slot ∈ slots → is_storage_warm s_warm address slot = true)
    ∧ (∀ a, a ∈ ComputationAPI.get_precompiles → is_address_warm s_warm a = true)
    ∧ (tx_sender transaction ∈ warm_addresses (world s_warm))
    ∧ (msg_storage_address message ∈ warm_addresses (world s_warm))
    ∧ (∀ address slots, (address, slots) ∈ tx_access_list transaction →
         address ∈ warm_addresses (world s_warm)
         ∧ ∀ slot, slot ∈ slots → (address, slot) ∈ warm_slots (world s_warm))
    ∧ (∀ a, a ∈ warm_addresses (world s) → a ∈ warm_addresses (world s_warm)).
Proof.
  destruct (mark_access_list_warm (tx_access_list transaction)
              (mark_address_warm (msg_storage_address message)
                 (mark_address_warm (tx_sender transaction) s)))
    as (s_warm & Hrun & Haccounts & Haddresses & Hslots & Hcps & Hctx).
  assert (Hmark : BerlinTransactionExecutor.mark_transaction_warm message transaction s
                  = (s_warm, Returned tt)).
  { unfold BerlinTransactionExecutor.mark_transaction_warm.
    rewrite !bind_modify. exact Hrun. }
  assert (Hwarm : ∀ a, a ∈ warm_addresses (world s_warm) ↔
            a = tx_sender transaction
            ∨ a = msg_storage_address message
            ∨ a ∈ (tx_access_list transaction).*1
            ∨ a ∈ warm_addresses (world s)).
  { intros a. rewrite Haddresses. simpl.
    rewrite !elem_of_union, elem_of_list_to_set, !elem_of_singleton. tauto. }
  assert (Hwarm_slots : ∀ a slot, (a, slot) ∈ warm_slots (world s_warm) ↔
            (a, slot) ∈ access_list_slots (tx_access_list transaction)
            ∨ (a, slot) ∈ warm_slots (world s)).
  { intros a slot. rewrite Hslots. simpl.
    rewrite elem_of_union, elem_of_list_to_set. tauto. }
  assert (Hmarked : ∀ a, a ∈ warm_addresses (world s_warm) →
                         is_address_warm s_warm a = true).
  { intros a Ha. unfold is_address_warm. now rewrite bool_decide_eq_true_2. }
  assert (Hlisted : ∀ address slots, (address, slots) ∈ tx_access_list transaction →
            address ∈ warm_addresses (world s_warm)
            ∧ ∀ slot, slot ∈ slots → (address, slot) ∈ warm_slots (world s_warm)).
  { intros address slots Hin. split.
    - apply Hwarm. right. right. left.
      apply list_elem_of_fmap. now exists (address, slots).
    - intros slot Hslot. apply Hwarm_slots. left.
      unfold access_list_slots. apply list_elem_of_bind.
      exists (address, slots). split; [|assumption].
      apply list_elem_of_fmap. now exists slot. }
  exists s_warm. split; [exact Hmark|].
  split; [|split; [exact Haccounts|split; [exact Hcps|]]].
  { unfold BerlinTransactionExecutor.build_computation.
    now erewrite bind_returned by exact Hmark. }
  split; [apply Hmarked, Hwarm; auto|]. split; [apply Hmarked, Hwarm; auto|].
  split.
  { intros address slots Hin. destruct (Hlisted address slots Hin) as [Haddress Hslot].
    split; [now apply Hmarked|].
    intros slot Hs. unfold is_storage_warm. apply bool_decide_eq_true. now apply Hslot. }
  split.
  { intros a Ha. unfold is_address_warm.
    rewrite (bool_decide_eq_true_2 (a ∈ ComputationAPI.get_precompiles)) by exact Ha.
    apply orb_true_r. }
  split; [apply Hwarm; auto|]. split; [apply Hwarm; auto|].
  split; [exact Hlisted|].
  intros a Ha. apply Hwarm. auto.
Qed.

Lemma berlin_build_computation_warms_witness :
  FRONTIER_PRECOMPILES !! 0%nat = Some (force_bytes_to_address [x01%byte])
  ∧ ∃ s_warm,
      BerlinTransactionExecutor.mark_transaction_warm listed_message listed_transaction
        funded_state = (s_warm, Returned tt)
      ∧ is_address_warm (computation_class := sample_computation_class) s_warm
          (force_bytes_to_address [x01%byte]) = true
      ∧ is_address_warm (computation_class := sample_computation_class) s_warm alice
        = true
      ∧ is_storage_warm s_warm carol 7 = true.
Proof.
  split; [reflexivity|].
  destruct (berlin_build_computation_warms (vm_state := BaseState)
              (computation_class := sample_computation_class)
              listed_message listed_transaction funded_state)
    as (s_warm & Hmark & _ & _ & _ & Hsender & _ & Hlisted & Hprecompiles & _).
  exists s_warm. split; [exact Hmark|]. split; [|split].
  - apply Hprecompiles. apply elem_of_cons. now left.
  - exact Hsender.
  - apply (Hlisted carol [7; 8]).
    + apply elem_of_cons. now left.
    + apply elem_of_cons. now left.
Defined.

(** ** Jumps *)

Section Jumps.
Implicit Types (c : Computation) (rest : list StackItem).

Lemma land_on_outcome jump_dest c :
  land_on jump_dest c
  = (set_program_counter jump_dest c,
     if negb (opcode_at c jump_dest =? JUMPDEST) then Raised InvalidJumpDestination
     else if negb (is_valid_opcode c jump_dest) then Raised InvalidInstruction
     else Returned tt).
Proof.
  unfold land_on. rewrite bind_modify, bind_gets. fold (opcode_at c jump_dest).
  destruct (opcode_at c jump_dest =? JUMPDEST); simpl; [|reflexivity].
  rewrite bind_gets.
  change (is_valid_opcode (set_program_counter jump_dest c) jump_dest)
    with (is_valid_opcode c jump_dest).
  destruct (is_valid_opcode c jump_dest); reflexivity.
Qed.

Lemma jump_lands c item rest :
  stack c = item :: rest →
  Flow.jump c = land_on (item_int item) (set_stack rest c).
Proof.
  intros Hstack. unfold Flow.jump.
  erewrite bind_returned by (unfold stack_pop1_int; rewrite Hstack; reflexivity).
  reflexivity.
Qed.

Lemma jumpi_lands c dest_item check_item rest :
  stack c = dest_item :: check_item :: rest →
  Flow.jumpi c
  = if item_int check_item =? 0 then (set_stack rest c, Returned tt)
    else land_on (item_int dest_item) (set_stack rest c).
Proof.
  intros Hstack. unfold Flow.jumpi.
  erewrite bind_returned by (unfold stack_pop_ints2; rewrite Hstack; reflexivity).
  cbv beta iota. destruct (item_int check_item =? 0); reflexivity.
Qed.
End Jumps.

(** *** Opcode boundaries and PUSH data *)

Lemma on_opcode_boundary_app pre code skip target :
  on_opcode_boundary (pre ++ code) skip (length pre + target)
  = on_opcode_boundary code (skip_after pre skip) target.
Proof.
  revert skip. induction pre as [|b pre IH]; intros skip; [reflexivity|].
  simpl. destruct skip; apply IH.
Qed.

Lemma on_opcode_boundary_inside_data code skip target :
  (target < skip)%nat → on_opcode_boundary code skip target = false.
Proof.
  revert skip target. induction code as [|b code IH]; intros skip target Hlt;
    [reflexivity|].
  destruct target as [|target]; simpl.
  - apply bool_decide_eq_false_2. lia.
  - destruct skip as [|skip]; [lia|]. apply IH. lia.
Qed.

Lemma on_opcode_boundary_past_data code n :
  (n < length code)%nat → on_opcode_boundary code n n = true.
Proof.
  revert code. induction n as [|n IH]; intros [|b code] Hlen; simpl in *; try lia.
  apply IH. lia.
Qed.

(** The immediate data of a PUSH that is an instruction is not on an opcode
    boundary, and the byte after the data is. *)
Lemma push_data_is_not_a_boundary pre b rest :
  on_opcode_boundary (pre ++ b :: rest) 0 (length pre) = true →
  (∀ k, (1 ≤ k ≤ push_data_size (byte_to_Z b))%nat →
        on_opcode_boundary (pre ++ b :: rest) 0 (length pre + k) = false)
  ∧ ((push_data_size (byte_to_Z b) < length rest)%nat →
     on_opcode_boundary (pre ++ b :: rest) 0
       (length pre + S (push_data_size (byte_to_Z b))) = true).
Proof.
  intros Hboundary.
  rewrite <- (Nat.add_0_r (length pre)), on_opcode_boundary_app in Hboundary.
  simpl in Hboundary. apply bool_decide_eq_true in Hboundary.
  split.
  - intros k Hk. rewrite on_opcode_boundary_app, Hboundary.
    destruct k as [|k]; [lia|]. simpl.
    apply on_opcode_boundary_inside_data. lia.
  - intros Hlen. rewrite on_opcode_boundary_app, Hboundary. simpl.
    now apply on_opcode_boundary_past_data.
Qed.

(** C7. [JUMP] pops the destination and sets the program counter to it; it
    raises [InvalidJumpDestination] when the byte there is not [JUMPDEST],
    and, that first check passed, [InvalidInstruction] when the destination
    is not on an opcode boundary; otherwise it returns.  [JUMPI] pops the
    destination and the condition: with a nonzero condition it does what
    [JUMP] does on the destination, with a zero condition it leaves the
    program counter alone and checks nothing. *)
Theorem jump_destination_checks
    (c : Computation) (dest_item check_item : StackItem) (rest : list StackItem) :
  let dest := item_int dest_item in
  let landed := set_program_counter dest (set_stack rest c) in
  (stack c = dest_item :: rest →
   program_counter (code landed) = dest
   ∧ (opcode_at c dest ≠ JUMPDEST →
      Flow.jump c = (landed, Raised InvalidJumpDestination))
   ∧ (opcode_at c dest = JUMPDEST → is_valid_opcode c dest = false →
      Flow.jump c = (landed, Raised InvalidInstruction))
   ∧ (opcode_at c dest = JUMPDEST → is_valid_opcode c dest = true →
      Flow.jump c = (landed, Returned tt)))
  ∧ (stack c = dest_item :: check_item :: rest →
     (item_int check_item ≠ 0 →
      Flow.jumpi c = Flow.jump (set_stack (dest_item :: rest) c))
     ∧ (item_int check_item = 0 →
        Flow.jumpi c = (set_stack rest c, Returned tt)
        ∧ program_counter (code (set_stack rest c)) = program_counter (code c)))
  ∧ JUMPDEST = 0x5b.
Proof.
  intros dest landed. split; [|split; [|reflexivity]].
  - intros Hstack. rewrite (jump_lands c dest_item rest Hstack), land_on_outcome.
    change (opcode_at (set_stack rest c) (item_int dest_item)) with (opcode_at c dest).
    change (is_valid_opcode (set_stack rest c) (item_int dest_item))
      with (is_valid_opcode c dest).
    split; [reflexivity|]. split; [|split].
    + intros Hbyte. apply Z.eqb_neq in Hbyte. now rewrite Hbyte.
    + intros Hbyte Hvalid. apply Z.eqb_eq in Hbyte. now rewrite Hbyte, Hvalid.
    + intros Hbyte Hvalid. apply Z.eqb_eq in Hbyte. now rewrite Hbyte, Hvalid.
  - intros Hstack. rewrite (jumpi_lands c dest_item check_item rest Hstack). split.
    + intros Hcheck. apply Z.eqb_neq in Hcheck. rewrite Hcheck.
      now rewrite (jump_lands (set_stack (dest_item :: rest) c) dest_item rest).
    + intros Hcheck. apply Z.eqb_eq in Hcheck. now rewrite Hcheck.
Qed.

Lemma jump_destination_checks_witness :
  Flow.jump (jumping_frame [IntItem 0])
    = (set_program_counter 0 (jumping_frame []), Raised InvalidJumpDestination)
  ∧ Flow.jump (jumping_frame [IntItem 1])
    = (set_program_counter 1 (jumping_frame []), Raised InvalidInstruction)
  ∧ Flow.jump (jumping_frame [IntItem 2])
    = (set_program_counter 2 (jumping_frame []), Returned tt)
  ∧ Flow.jumpi (jumping_frame [IntItem 1; IntItem 0]) = (jumping_frame [], Returned tt).
Proof.
  split; [|split; [|split]].
  - apply (jump_destination_checks (jumping_frame [IntItem 0]) (IntItem 0)
             (IntItem 0) []); [reflexivity|].
    vm_compute. discriminate.
  - apply (jump_destination_checks (jumping_frame [IntItem 1]) (IntItem 1)
             (IntItem 0) []); reflexivity.
  - apply (jump_destination_checks (jumping_frame [IntItem 2]) (IntItem 2)
             (IntItem 0) []); reflexivity.
  - apply (jump_destination_checks (jumping_frame [IntItem 1; IntItem 0]) (IntItem 1)
             (IntItem 0) []); reflexivity.
Defined.

(** ** Memory stores *)

Lemma length_normalize width value : length (normalize width value) = width.
Proof.
  unfold normalize, last_bytes, rjust.
  rewrite length_drop, length_app, length_replicate. lia.
Qed.

Lemma normalize_short width value :
  (length value ≤ width)%nat →
  normalize width value = replicate (width - length value) x00%byte ++ value.
Proof.
  intros Hshort. unfold normalize, last_bytes, rjust.
  rewrite length_app, length_replicate.
  replace (width - length value + length value - width)%nat with 0%nat by lia.
  reflexivity.
Qed.

Lemma normalize_long width value :
  (width ≤ length value)%nat →
  normalize width value = drop (length value - width) value.
Proof.
  intros Hlong. unfold normalize, last_bytes, rjust.
  replace (width - length value)%nat with 0%nat by lia. reflexivity.
Qed.

Lemma ceil32_ge v : v ≤ ceil32 v.
Proof.
  unfold ceil32. pose proof (Z.mod_pos_bound v 32 ltac:(lia)).
  destruct (v mod 32 =? 0); lia.
Qed.

Lemma extend_covers start size m :
  size ≠ 0 → start + size ≤ Z.of_nat (length (Memory.extend start size m)).
Proof.
  intros Hsize. unfold Memory.extend. apply Z.eqb_neq in Hsize. rewrite Hsize.
  pose proof (ceil32_ge (start + size)).
  destruct (Z.leb_spec (ceil32 (start + size)) (Z.of_nat (length m))); [lia|].
  rewrite length_app, length_replicate. lia.
Qed.

Lemma extend_zero_fills start size m :
  ∃ n, Memory.extend start size m = m ++ replicate n x00%byte.
Proof.
  unfold Memory.extend. destruct (size =? 0); [exists 0%nat; now rewrite app_nil_r|].
  destruct (_ <=? _); [exists 0%nat; now rewrite app_nil_r|eauto].
Qed.

Section Write.
Variables (start : Z) (value m : bytes).
Hypothesis start_nonneg : 0 ≤ start.
Hypothesis in_range : start + Z.of_nat (length value) ≤ Z.of_nat (length m).

Lemma length_write : length (Memory.write start value m) = length m.
Proof using start_nonneg in_range.
  unfold Memory.write. rewrite !length_app, length_take, length_drop. lia.
Qed.

Lemma write_read_back :
  take (length value) (drop (Z.to_nat start) (Memory.write start value m)) = value.
Proof using start_nonneg in_range.
  unfold Memory.write.
  rewrite drop_app_length' by (rewrite length_take; lia).
  now rewrite take_app_length.
Qed.

Lemma write_elsewhere (i : nat) :
  (i < Z.to_nat start ∨ Z.to_nat start + length value ≤ i)%nat →
  Memory.write start value m !! i = m !! i.
Proof using start_nonneg in_range.
  intros Hout. unfold Memory.write. destruct Hout as [Hbefore|Hafter].
  - rewrite lookup_app_l by (rewrite length_take; lia).
    now rewrite lookup_take_lt.
  - rewrite lookup_app_r by (rewrite length_take; lia).
    rewrite lookup_app_r by (rewrite length_take; lia).
    rewrite lookup_drop, length_take. f_equal. lia.
Qed.
End Write.

Section Stores.
Variable memory_gas_cost : Z → Z.

(** The two statements both store handlers end with, for a value of
    [width] bytes. *)
Lemma extend_then_write (width : nat) start value c :
  (0 < width)%nat → 0 ≤ start → length value = width →
  0 ≤ gas_remaining c →
  let fee := growth_fee memory_gas_cost c start (Z.of_nat width) in
  (Memory.extend_memory memory_gas_cost start (Z.of_nat width) ;;;
   Memory.memory_write start (Z.of_nat width) value) c
  = if gas_remaining c <? fee then (c, Raised OutOfGas)
    else (set_memory
            (Memory.write start value
               (Memory.extend start (Z.of_nat width) (memory c)))
            (set_gas_remaining (gas_remaining c - fee) c),
          Returned tt).
Proof.
  intros Hwidth Hstart Hlen Hgas fee.
  assert (Hsize : (Z.of_nat width =? 0) = false) by (apply Z.eqb_neq; lia).
  assert (Hwrite : ∀ c', memory c' = memory c →
            Memory.memory_write start (Z.of_nat width) value
              (set_memory (Memory.extend start (Z.of_nat width) (memory c')) c')
            = (set_memory
                 (Memory.write start value
                    (Memory.extend start (Z.of_nat width) (memory c))) c',
               Returned tt)).
  { intros c' Hmem. unfold Memory.memory_write. rewrite Hsize, bind_gets, Hmem.
    rewrite Hlen, Z.eqb_refl. simpl.
    pose proof (extend_covers start (Z.of_nat width) (memory c) ltac:(lia)).
    destruct (Z.leb_spec (start + Z.of_nat width)
                (Z.of_nat (length (Memory.extend start (Z.of_nat width) (memory c)))));
      [|lia].
    destruct c'; reflexivity. }
  unfold Memory.extend_memory. unfold bind at 1. rewrite bind_gets, Hsize.
  subst fee. unfold growth_fee.
  destruct (memory_gas_cost (ceil32 (Z.of_nat (length (memory c))))
            <? memory_gas_cost (ceil32 (start + Z.of_nat width))).
  - unfold bind at 1, consume_gas.
    destruct (gas_remaining c <? _); [reflexivity|].
    unfold modify at 1. apply Hwrite. reflexivity.
  - unfold bind at 1, ret, modify at 1.
    destruct (Z.ltb_spec (gas_remaining c) 0) as [Hneg|_]; [lia|].
    rewrite Hwrite by reflexivity. rewrite Z.sub_0_r.
    destruct c; reflexivity.
Qed.
End Stores.

Lemma store_handler_normalizes memory_gas_cost (width : nat) handler c
    start_item value_item rest :
  (0 < width)%nat →
  (∀ c, handler c
        = (start_position <- stack_pop1_int ;;
           value <- stack_pop1_bytes ;;
           Memory.extend_memory memory_gas_cost start_position (Z.of_nat width) ;;;
           Memory.memory_write start_position (Z.of_nat width) (normalize width value)) c) →
  stack c = start_item :: value_item :: rest →
  0 ≤ item_int start_item →
  0 ≤ gas_remaining c →
  stores_normalized memory_gas_cost width handler c (item_int start_item)
    (item_bytes value_item) rest.
Proof.
  intros Hwidth Hhandler Hstack Hstart Hgas.
  set (start := item_int start_item) in *. set (value := item_bytes value_item).
  assert (Hrun : handler c
                 = (Memory.extend_memory memory_gas_cost start (Z.of_nat width) ;;;
                    Memory.memory_write start (Z.of_nat width) (normalize width value))
                     (set_stack rest c)).
  { rewrite Hhandler.
    erewrite bind_returned by (unfold stack_pop1_int; rewrite Hstack; reflexivity).
    erewrite bind_returned by (unfold stack_pop1_bytes; reflexivity).
    reflexivity. }
  rewrite extend_then_write in Hrun
    by (try apply length_normalize; assumption).
  change (growth_fee memory_gas_cost (set_stack rest c) start (Z.of_nat width))
    with (growth_fee memory_gas_cost c start (Z.of_nat width)) in Hrun.
  change (gas_remaining (set_stack rest c)) with (gas_remaining c) in Hrun.
  change (memory (set_stack rest c)) with (memory c) in Hrun.
  pose proof (extend_covers start (Z.of_nat width) (memory c) ltac:(lia)) as Hcovers.
  pose proof (length_normalize width value) as Hlen.
  unfold stores_normalized. cbv zeta.
  split; [exact Hlen|]. split; [apply normalize_short|].
  split; [apply normalize_long|]. split.
  - intros Hshort. rewrite Hrun.
    destruct (Z.ltb_spec (gas_remaining c)
                (growth_fee memory_gas_cost c start (Z.of_nat width))); [reflexivity|lia].
  - intros Hpaid. eexists. split.
    + rewrite Hrun.
      destruct (Z.ltb_spec (gas_remaining c)
                  (growth_fee memory_gas_cost c start (Z.of_nat width))); [lia|reflexivity].
    + simpl. split; [reflexivity|]. split; [reflexivity|].
      split; [apply extend_zero_fills|]. split; [exact Hcovers|].
      split; [apply length_write; lia|]. split.
      * rewrite <- Hlen at 1. apply write_read_back; lia.
      * intros i Hi. apply write_elsewhere; lia.
Qed.

(** C10. [MSTORE] normalizes the popped value to exactly 32 bytes (zero bytes
    on the left of a shorter value, the low-order 32 bytes of a longer one),
    extends the memory to cover the 32 bytes at the popped start position and
    then writes exactly these 32 bytes there, leaving the other bytes as they
    were; [MSTORE8] does the same with one byte.  When the growth of the
    memory cannot be paid the handler raises [OutOfGas] instead. *)
Theorem mstore_writes_normalized_value
    (memory_gas_cost : Z → Z) (c : Computation)
    (start_item value_item : StackItem) (rest : list StackItem) :
  stack c = start_item :: value_item :: rest →
  0 ≤ item_int start_item →
  0 ≤ gas_remaining c →
  stores_normalized memory_gas_cost 32 (Memory.mstore memory_gas_cost) c
    (item_int start_item) (item_bytes value_item) rest
  ∧ stores_normalized memory_gas_cost 1 (Memory.mstore8 memory_gas_cost) c
      (item_int start_item) (item_bytes value_item) rest.
Proof.
  intros Hstack Hstart Hgas.
  split; apply store_handler_normalizes; try assumption; try lia; reflexivity.
Qed.

Lemma mstore_writes_normalized_value_witness :
  ∃ c', Memory.mstore sample_memory_gas_cost
          (storing_frame [IntItem 1; IntItem 0x1234]) = (c', Returned tt)
      ∧ take 32 (drop 1 (memory c')) = replicate 30 x00%byte ++ [x12; x34]%byte
      ∧ length (memory c') = 64%nat
      ∧ gas_remaining c' = 997.
Proof.
  destruct (mstore_writes_normalized_value sample_memory_gas_cost
              (storing_frame [IntItem 1; IntItem 0x1234]) (IntItem 1) (IntItem 0x1234) [])
    as [(_ & Hshort & _ & _ & Hpaid) _].
  - reflexivity.
  - vm_compute. discriminate.
  - vm_compute. discriminate.
  - destruct Hpaid as (c' & Hrun & _ & Hfee & _ & _ & Hlength & Hread & _).
    + vm_compute. discriminate.
    + exists c'. split; [exact Hrun|]. split; [|split].
      * etransitivity; [exact Hread|]. vm_compute. reflexivity.
      * etransitivity; [exact Hlength|]. vm_compute. reflexivity.
      * etransitivity; [exact Hfee|]. vm_compute. reflexivity.
Defined.

(** ** Receipts *)

Section ReceiptValidation.
Variable keccak : bytes → bytes.
Variable receipt : Receipt.

Let present (value : bytes) : bool :=
  VM.bloom_contains keccak (receipt_bloom receipt) value.

(** Everything in [already_checked] was found in the bloom filter. *)
Let checked_addresses (checked : gset (Address + Z)) : Prop :=
  ∀ a, inl a ∈ checked → present a = true.
Let checked_topics (checked : gset (Address + Z)) : Prop :=
  ∀ topic, inr topic ∈ checked → present (to_bytes_big 32 topic) = true.

Lemma check_addresses_loop (logs : list Log) checked :
  checked_addresses checked → checked_topics checked →
  ∃ checked',
    for_each logs (VM.check_log_address keccak receipt) checked
    = (checked',
       if forallb (λ log, present (log_address log)) logs
       then Returned tt else Raised ValidationError)
    ∧ checked_addresses checked' ∧ checked_topics checked'.
Proof.
  revert checked. induction logs as [|log logs IH]; intros checked Haddr Htopic.
  - exists checked. simpl. auto.
  - simpl for_each. simpl forallb. unfold bind at 1.
    unfold VM.check_log_address at 1. rewrite bind_gets. unfold id.
    case_bool_decide as Hseen.
    + rewrite (Haddr _ Hseen). simpl. apply IH; assumption.
    + fold (present (log_address log)).
      destruct (present (log_address log)) eqn:Hpresent; simpl.
      * apply IH.
        -- intros a. rewrite elem_of_union, elem_of_singleton.
           intros [[= ->]|?]; auto.
        -- intros topic. rewrite elem_of_union, elem_of_singleton.
           intros [[=]|?]; auto.
      * exists checked. auto.
Qed.

Lemma check_topics_loop (topics : list Z) checked :
  (∀ topic, topic ∈ topics → 0 ≤ topic < 2 ^ 256) →
  checked_addresses checked → checked_topics checked →
  ∃ checked',
    for_each topics (VM.check_topic keccak receipt) checked
    = (checked',
       if forallb (λ topic, present (to_bytes_big 32 topic)) topics
       then Returned tt else Raised ValidationError)
    ∧ checked_addresses checked' ∧ checked_topics checked'.
Proof.
  revert checked. induction topics as [|topic topics IH];
    intros checked Hrange Haddr Htopic.
  - exists checked. simpl. auto.
  - assert (Hserial : VM.uint32_serialize topic = Returned (to_bytes_big 32 topic)).
    { unfold VM.uint32_serialize.
      destruct (Hrange topic ltac:(left)) as [Hlow Hhigh].
      apply Z.leb_le in Hlow. apply Z.ltb_lt in Hhigh. now rewrite Hlow, Hhigh. }
    assert (Hrest : ∀ t, t ∈ topics → 0 ≤ t < 2 ^ 256)
      by (intros t Ht; apply Hrange; now right).
    simpl for_each. simpl forallb. unfold bind at 1.
    unfold VM.check_topic at 1. rewrite bind_gets. unfold id.
    case_bool_decide as Hseen.
    + rewrite (Htopic _ Hseen). simpl. apply IH; assumption.
    + unfold bind at 1, lift. rewrite Hserial.
      fold (present (to_bytes_big 32 topic)).
      destruct (present (to_bytes_big 32 topic)) eqn:Hpresent; simpl.
      * apply IH; [assumption| |].
        -- intros a. rewrite elem_of_union, elem_of_singleton.
           intros [[=]|?]; auto.
        -- intros t. rewrite elem_of_union, elem_of_singleton.
           intros [[= ->]|?]; auto.
      * exists checked. auto.
Qed.

Lemma check_logs_topics_loop (logs : list Log) checked :
  (∀ log topic, log ∈ logs → topic ∈ log_topics log → 0 ≤ topic < 2 ^ 256) →
  checked_addresses checked → checked_topics checked →
  ∃ checked',
    for_each logs (λ log, for_each (log_topics log) (VM.check_topic keccak receipt))
      checked
    = (checked',
       if forallb (λ log, forallb (λ topic, present (to_bytes_big 32 topic))
                             (log_topics log)) logs
       then Returned tt else Raised ValidationError)
    ∧ checked_addresses checked' ∧ checked_topics checked'.
Proof.
  revert checked. induction logs as [|log logs IH]; intros checked Hrange Haddr Htopic.
  - exists checked. simpl. auto.
  - destruct (check_topics_loop (log_topics log) checked)
      as (checked1 & Hrun1 & Haddr1 & Htopic1); try assumption.
    { intros topic Hin. apply (Hrange log); [now left|assumption]. }
    simpl for_each. simpl forallb. unfold bind at 1. rewrite Hrun1.
    destruct (forallb _ (log_topics log)); simpl.
    + apply IH; try assumption.
      intros log' topic Hlog. apply Hrange. now right.
    + exists checked1. auto.
Qed.

(** [validate_receipt] returns exactly when every address and every
    serialized topic is in the bloom filter, and raises [ValidationError]
    otherwise. *)
Lemma validate_receipt_decides :
  topics_in_range receipt →
  VM.validate_receipt keccak receipt
  = if forallb (λ log, present (log_address log)) (receipt_logs receipt)
       && forallb (λ log, forallb (λ topic, present (to_bytes_big 32 topic))
                            (log_topics log)) (receipt_logs receipt)
    then Returned tt else Raised ValidationError.
Proof.
  intros Hrange. unfold VM.validate_receipt.
  destruct (check_addresses_loop (receipt_logs receipt) ∅)
    as (checked1 & Hrun1 & Haddr1 & Htopic1).
  { intros a Hin. now apply not_elem_of_empty in Hin. }
  { intros t Hin. now apply not_elem_of_empty in Hin. }
  unfold bind at 1. rewrite Hrun1.
  destruct (forallb _ (receipt_logs receipt)); simpl; [|reflexivity].
  destruct (check_logs_topics_loop (receipt_logs receipt) checked1)
    as (checked2 & Hrun2 & _); try assumption.
  now rewrite Hrun2.
Qed.
End ReceiptValidation.

Lemma length_to_bytes_big width v : length (to_bytes_big width v) = width.
Proof. unfold to_bytes_big. now rewrite length_fmap, length_seq. Qed.

(** C8. [validate_receipt] raises [ValidationError] as soon as the address of
    some log, or the 32-byte serialization of some topic of some log, is not
    in the receipt's bloom filter, and returns when all of them are; it is a
    function of the receipt and changes nothing. *)
Theorem validate_receipt_checks_bloom (keccak : bytes → bytes) (receipt : Receipt) :
  topics_in_range receipt →
  let present value := VM.bloom_contains keccak (receipt_bloom receipt) value = true in
  (∀ log topic, log ∈ receipt_logs receipt → topic ∈ log_topics log →
     VM.uint32_serialize topic = Returned (to_bytes_big 32 topic)
     ∧ length (to_bytes_big 32 topic) = 32%nat)
  ∧ ((∀ log, log ∈ receipt_logs receipt →
        present (log_address log)
        ∧ ∀ topic, topic ∈ log_topics log → present (to_bytes_big 32 topic)) →
     VM.validate_receipt keccak receipt = Returned tt)
  ∧ ((∃ log, log ∈ receipt_logs receipt
             ∧ (¬ present (log_address log)
                ∨ ∃ topic, topic ∈ log_topics log
                           ∧ ¬ present (to_bytes_big 32 topic))) →
     VM.validate_receipt keccak receipt = Raised ValidationError).
Proof.
  intros Hrange present. rewrite (validate_receipt_decides keccak receipt Hrange).
  split; [|split].
  - intros log topic Hlog Htopic. split; [|apply length_to_bytes_big].
    unfold VM.uint32_serialize. destruct (Hrange log topic Hlog Htopic) as [Hlow Hhigh].
    apply Z.leb_le in Hlow. apply Z.ltb_lt in Hhigh. now rewrite Hlow, Hhigh.
  - intros Hall.
    rewrite (proj2 (forallb_forall _ _)), (proj2 (forallb_forall _ _)); [reflexivity| |].
    + intros log Hlog%list_elem_of_In. apply forallb_forall.
      intros topic Htopic%list_elem_of_In. now apply (Hall log).
    + intros log Hlog%list_elem_of_In. now apply (Hall log).
  - intros (log & Hlog & Hmissing).
    destruct (forallb _ _ && forallb _ _) eqn:Hboth; [exfalso|reflexivity].
    apply andb_true_iff in Hboth as [Haddresses Htopics].
    rewrite forallb_forall in Haddresses, Htopics.
    apply list_elem_of_In in Hlog.
    destruct Hmissing as [Haddress|(topic & Htopic & Hserialized)].
    + apply Haddress, Haddresses, Hlog.
    + apply Hserialized. specialize (Htopics log Hlog).
      rewrite forallb_forall in Htopics. apply Htopics. now apply list_elem_of_In.
Qed.

Lemma validate_receipt_checks_bloom_witness :
  VM.validate_receipt sample_keccak (sample_receipt (2 ^ 161 + 2 ^ 5 + 1)) = Returned tt
  ∧ VM.validate_receipt sample_keccak (sample_receipt (2 ^ 161 + 1))
    = Raised ValidationError.
Proof.
  assert (Hrange : ∀ bloom, topics_in_range (sample_receipt bloom)).
  { intros bloom log topic Hlog Htopic.
    apply list_elem_of_singleton in Hlog as ->.
    apply list_elem_of_singleton in Htopic as ->. split; [lia|reflexivity]. }
  split.
  - apply (validate_receipt_checks_bloom sample_keccak _ (Hrange _)).
    intros log Hlog. apply list_elem_of_singleton in Hlog as ->. split.
    + vm_compute. reflexivity.
    + intros topic Htopic. apply list_elem_of_singleton in Htopic as ->.
      vm_compute. reflexivity.
  - apply (validate_receipt_checks_bloom sample_keccak _ (Hrange _)).
    exists sample_log. split; [apply list_elem_of_here|]. right.
    exists 5. split; [apply list_elem_of_here|]. vm_compute. discriminate.
Defined.

(** ** The costless state *)

Section CostlessStateProps.
Context {A : Type}.
Variable create_header_from_parent : Header → Address → Header.
Variable get_fee_recipient : Header → Address.
Variable vm : VirtualMachine.

Let yielded : State :=
  fst (snapshot (VM.build_state get_fee_recipient (vm_db vm)
                   (VM.free_header create_header_from_parent vm))).

(** The yielded state is built from the child header, with a base fee of 0
    when that header carries a base fee. *)
Lemma costless_state_base_fee :
  base_fee_per_gas (execution_context yielded)
  = (λ _, 0) <$> header_base_fee_per_gas
                   (create_header_from_parent (vm_header vm)
                      (header_coinbase (vm_header vm))).
Proof.
  unfold yielded, VM.build_state, VM.create_execution_context, VM.free_header,
    VM.get_header. simpl.
  set (child := create_header_from_parent (vm_header vm)
                  (header_coinbase (vm_header vm))).
  destruct (header_base_fee_per_gas child) as [base_fee|] eqn:Hfee; simpl;
    rewrite ?Hfee; reflexivity.
Qed.

(** Leaving the scope normally reverts the yielded state to the snapshot
    taken at entry. *)
Lemma costless_state_reverted_on_return (body : Exec State A) s1 a extra :
  body yielded = (s1, Returned a) →
  checkpoints s1 = extra ++ checkpoints yielded →
  VM.in_costless_state create_header_from_parent get_fee_recipient vm body
  = (mkState (world yielded) [] (execution_context s1), Returned a).
Proof.
  intros Hbody Hcps. unfold VM.in_costless_state. simpl.
  change (body _) with (body yielded). rewrite Hbody.
  pose proof (revert_open_checkpoint s1 extra (world yielded) [] Hcps) as Hrevert.
  simpl in Hrevert. now rewrite Hrevert.
Qed.

(** Leaving the scope by an exception skips the revert: the state is the
    one the body left. *)
Lemma costless_state_kept_on_raise (body : Exec State A) s1 e :
  body yielded = (s1, Raised e) →
  VM.in_costless_state create_header_from_parent get_fee_recipient vm body
  = (s1, Raised e).
Proof.
  intros Hbody. unfold VM.in_costless_state. simpl.
  change (body _) with (body yielded). now rewrite Hbody.
Qed.
End CostlessStateProps.

(** C9 fails on the code.  A body that sets a balance in the yielded state
    and raises leaves the [with] statement with the balance still set and the
    snapshot still open: the revert after the [yield] is not run.  The same
    change made by a body that returns is reverted, and the base fee of the
    yielded state is 0 in both. *)
Theorem in_costless_state_not_reverted_on_raise :
  let run body :=
    VM.in_costless_state sample_create_header_from_parent header_coinbase
      sample_vm body in
  snd (run raising_body) = Raised ValidationError
  ∧ get_balance (fst (run raising_body)) alice = 7
  ∧ checkpoints (fst (run raising_body)) = [world funded_state]
  ∧ base_fee_per_gas (execution_context (fst (run raising_body))) = Some 0
  ∧ snd (run returning_body) = Returned tt
  ∧ get_balance (fst (run returning_body)) alice = 1000
  ∧ world (fst (run returning_body)) = world funded_state
  ∧ checkpoints (fst (run returning_body)) = [].
Proof.
  cbv beta zeta.
  rewrite (costless_state_kept_on_raise sample_create_header_from_parent
             header_coinbase sample_vm raising_body
             (fst (raising_body
                     (fst (snapshot (VM.build_state header_coinbase (vm_db sample_vm)
                                       (VM.free_header sample_create_header_from_parent
                                          sample_vm))))))
             ValidationError eq_refl).
  rewrite (costless_state_reverted_on_return sample_create_header_from_parent
             header_coinbase sample_vm returning_body
             (fst (returning_body
                     (fst (snapshot (VM.build_state header_coinbase (vm_db sample_vm)
                                       (VM.free_header sample_create_header_from_parent
                                          sample_vm))))))
             tt [] eq_refl eq_refl).
  vm_compute. repeat split; reflexivity.
Qed.


(** * Further properties of the embedded code *)

(** ** Handlers and opcodes *)

Lemma and_then_done {A B} (m : Handler A) (k : A → Handler B) c c' a :
  m c = (c', Done a) → and_then m k c = k a c'.
Proof. unfold and_then. now intros ->. Qed.

Lemma and_then_stopped {A B} (m : Handler A) (k : A → Handler B) c c' sig :
  m c = (c', Stopped sig) → and_then m k c = (c', Stopped sig).
Proof. unfold and_then. now intros ->. Qed.

Lemma run_returned {A} (m : Exec Computation A) c c' a :
  m c = (c', Returned a) → run m c = (c', Done a).
Proof. unfold run. now intros ->. Qed.

Lemma run_raised {A} (m : Exec Computation A) c c' e :
  m c = (c', Raised e) → run m c = (c', Stopped (Fault e)).
Proof. unfold run. now intros ->. Qed.

Lemma set_gas_remaining_same c : set_gas_remaining (gas_remaining c) c = c.
Proof. now destruct c. Qed.

(** X1. An opcode first pays its gas cost: when the frame has less gas than
    the cost, the call raises [OutOfGas] and leaves the frame as it was,
    whatever the logic function; otherwise the logic function runs on the
    frame with the cost deducted.  So the [GAS] opcode pushes the gas the
    frame hands back after the opcode's own cost: the gas that is left, for
    every frame without an error that consumes all gas, as every frame is on
    which an opcode runs, and 0 for a frame with such an error. *)
Theorem opcode_pays_before_it_runs (logic_fn : Handler unit) (mnemonic : list byte)
    (gas_cost : Z) (c : Computation) :
  let opcode := Opcode.as_opcode logic_fn mnemonic gas_cost in
  let paid := set_gas_remaining (gas_remaining c - gas_cost) c in
  (gas_remaining c < gas_cost → Opcode.call opcode c = (c, Stopped (Fault OutOfGas)))
  ∧ (gas_cost ≤ gas_remaining c → Opcode.call opcode c = logic_fn paid)
  ∧ (gas_cost ≤ gas_remaining c →
     (length (stack c) < 1024)%nat →
     0 ≤ get_gas_remaining paid < 2 ^ 256 →
     Opcode.call (Opcode.as_opcode Flow.gas GAS_mnemonic gas_cost) c
     = (set_stack (IntItem (get_gas_remaining paid) :: stack c) paid, Done tt))
  ∧ (should_burn_gas c = false → get_gas_remaining paid = gas_remaining c - gas_cost)
  ∧ (should_burn_gas c = true → get_gas_remaining paid = 0).
Proof.
  intros opcode paid.
  assert (Hpaid : ∀ fn, gas_cost ≤ gas_remaining c →
            Opcode.call (Opcode.as_opcode fn mnemonic gas_cost) c = fn paid).
  { intros fn Hgas. unfold Opcode.call. simpl.
    erewrite and_then_done; [reflexivity|].
    apply run_returned. now apply consume_gas_paid. }
  assert (Hburn : should_burn_gas paid = should_burn_gas c) by reflexivity.
  split; [|split; [|split; [|split]]].
  - intros Hgas. unfold Opcode.call. simpl.
    erewrite and_then_stopped; [reflexivity|].
    apply run_raised. now apply consume_gas_short.
  - apply Hpaid.
  - intros Hgas Hstack [Hlow Hhigh].
    change (Opcode.call (Opcode.as_opcode Flow.gas GAS_mnemonic gas_cost) c)
      with (Opcode.call (Opcode.as_opcode Flow.gas mnemonic gas_cost) c).
    rewrite Hpaid by assumption.
    unfold Flow.gas, stack_push_int. cbv zeta.
    change (stack paid) with (stack c).
    destruct (Z.ltb_spec 1023 (Z.of_nat (length (stack c)))); [lia|].
    apply Z.leb_le in Hlow. apply Z.ltb_lt in Hhigh. now rewrite Hlow, Hhigh.
  - intros Hfine. unfold get_gas_remaining. rewrite Hburn, Hfine. reflexivity.
  - intros Hburnt. unfold get_gas_remaining. rewrite Hburn, Hburnt. reflexivity.
Qed.

Lemma opcode_pays_before_it_runs_witness :
  Opcode.call (Opcode.as_opcode Flow.gas GAS_mnemonic 2) (jumping_frame [])
  = (set_stack [IntItem 998] (set_gas_remaining 998 (jumping_frame [])), Done tt)
  ∧ Opcode.call (Opcode.as_opcode Flow.gas GAS_mnemonic 1001) (jumping_frame [])
    = (jumping_frame [], Stopped (Fault OutOfGas)).
Proof.
  split.
  - apply (proj1 (proj2 (proj2 (opcode_pays_before_it_runs Flow.gas GAS_mnemonic 2
                                  (jumping_frame []))))).
    + vm_compute. discriminate.
    + simpl. lia.
    + vm_compute. split; [discriminate|reflexivity].
  - apply (proj1 (opcode_pays_before_it_runs Flow.gas GAS_mnemonic 1001
                    (jumping_frame []))).
    vm_compute. reflexivity.
Defined.

(** ** Memory loads *)

Lemma ceil32_multiple v : ceil32 v mod 32 = 0.
Proof.
  unfold ceil32. destruct (Z.eqb_spec (v mod 32) 0) as [Hzero|Hrest]; [assumption|].
  replace (v + 32 - v mod 32) with (v - v mod 32 + 1 * 32) by lia.
  rewrite Z.mod_add by lia. rewrite Zminus_mod_idemp_r, Z.sub_diag. reflexivity.
Qed.

Lemma length_extend start size m :
  Z.of_nat (length (Memory.extend start size m))
  = if size =? 0 then Z.of_nat (length m)
    else Z.max (Z.of_nat (length m)) (ceil32 (start + size)).
Proof.
  unfold Memory.extend. destruct (size =? 0); [reflexivity|].
  destruct (Z.leb_spec (ceil32 (start + size)) (Z.of_nat (length m))); [lia|].
  rewrite length_app, length_replicate. lia.
Qed.

Section Loads.
Variable memory_gas_cost : Z → Z.

Lemma extend_memory_outcome start size c :
  size ≠ 0 → 0 ≤ gas_remaining c →
  let fee := growth_fee memory_gas_cost c start size in
  Memory.extend_memory memory_gas_cost start size c
  = if gas_remaining c <? fee then (c, Raised OutOfGas)
    else (set_memory (Memory.extend start size (memory c))
            (set_gas_remaining (gas_remaining c - fee) c),
          Returned tt).
Proof.
  intros Hsize Hgas fee. apply Z.eqb_neq in Hsize.
  unfold Memory.extend_memory. rewrite bind_gets, Hsize.
  subst fee. unfold growth_fee.
  destruct (memory_gas_cost (ceil32 (Z.of_nat (length (memory c))))
            <? memory_gas_cost (ceil32 (start + size))).
  - unfold bind, consume_gas.
    destruct (gas_remaining c <? _); reflexivity.
  - unfold bind, ret, modify.
    destruct (Z.ltb_spec (gas_remaining c) 0); [lia|].
    rewrite Z.sub_0_r. now destruct c.
Qed.

Lemma mload_outcome c start_item rest :
  stack c = start_item :: rest →
  0 ≤ gas_remaining c →
  let start := item_int start_item in
  let fee := growth_fee memory_gas_cost c start 32 in
  let extended := Memory.extend start 32 (memory c) in
  Memory.mload memory_gas_cost c
  = if gas_remaining c <? fee then (set_stack rest c, Stopped (Fault OutOfGas))
    else stack_push_bytes (take 32 (drop (Z.to_nat start) extended))
           (set_memory extended
              (set_gas_remaining (gas_remaining c - fee) (set_stack rest c))).
Proof.
  intros Hstack Hgas start fee extended. unfold Memory.mload.
  erewrite and_then_done
    by (apply run_returned; unfold stack_pop1_int; rewrite Hstack; reflexivity).
  fold start.
  pose proof (extend_memory_outcome start 32 (set_stack rest c) ltac:(lia) Hgas)
    as Hextend.
  cbv zeta in Hextend.
  change (growth_fee memory_gas_cost (set_stack rest c) start 32) with fee in Hextend.
  change (gas_remaining (set_stack rest c)) with (gas_remaining c) in Hextend.
  change (memory (set_stack rest c)) with (memory c) in Hextend.
  fold extended in Hextend.
  destruct (gas_remaining c <? fee).
  - erewrite and_then_stopped; [reflexivity|]. apply run_raised. exact Hextend.
  - erewrite and_then_done by (apply run_returned; exact Hextend). reflexivity.
Qed.
End Loads.

(** X2. [MLOAD] reads back what [MSTORE] wrote: after a successful [MSTORE]
    of a value at a position, an [MLOAD] of the same position pushes the
    value normalized to 32 bytes and changes nothing else in the frame, when
    the gas schedule does not charge for a memory that is already large
    enough. *)
Theorem mload_reads_back_mstore (memory_gas_cost : Z → Z) (c : Computation)
    (start_item value_item : StackItem) (rest : list StackItem) :
  let start := item_int start_item in
  stack c = start_item :: value_item :: rest →
  0 ≤ start →
  growth_fee memory_gas_cost c start 32 ≤ gas_remaining c →
  0 ≤ gas_remaining c - growth_fee memory_gas_cost c start 32 →
  memory_gas_cost (ceil32 (start + 32))
    ≤ memory_gas_cost
        (ceil32 (Z.of_nat (length (Memory.extend start 32 (memory c))))) →
  (length rest < 1024)%nat →
  ∃ stored,
    Memory.mstore memory_gas_cost c = (stored, Returned tt)
    ∧ Memory.mload memory_gas_cost (set_stack (start_item :: stack stored) stored)
      = (set_stack (BytesItem (normalize 32 (item_bytes value_item)) :: rest) stored,
         Done tt).
Proof.
  intros start Hstack Hstart Hfee Hleft Hcost Hrest.
  assert (Hgas : 0 ≤ gas_remaining c).
  { unfold growth_fee in Hfee, Hleft. destruct (_ <? _) eqn:Hgrow; [|lia].
    apply Z.ltb_lt in Hgrow. lia. }
  destruct (store_handler_normalizes memory_gas_cost 32 (Memory.mstore memory_gas_cost)
              c start_item value_item rest ltac:(lia) ltac:(reflexivity)
              Hstack Hstart Hgas)
    as (Hlen & _ & _ & _ & Hpaid).
  destruct (Hpaid Hfee)
    as (stored & Hstore & Hstack' & Hgas' & _ & Hcovers & Hlength & Hread & _).
  exists stored. split; [exact Hstore|].
  change (Z.of_nat 32) with 32 in Hgas', Hcovers, Hlength.
  fold start in Hgas', Hcovers, Hlength, Hread.
  rewrite (mload_outcome memory_gas_cost _ start_item (stack stored))
    by (try reflexivity; simpl; lia).
  cbv zeta. fold start.
  change (memory (set_stack (start_item :: stack stored) stored)) with (memory stored).
  change (gas_remaining (set_stack (start_item :: stack stored) stored))
    with (gas_remaining stored).
  assert (Hfree : growth_fee memory_gas_cost
                    (set_stack (start_item :: stack stored) stored) start 32 = 0).
  { unfold growth_fee. simpl memory. rewrite Hlength.
    destruct (Z.ltb_spec
                (memory_gas_cost
                   (ceil32 (Z.of_nat (length (Memory.extend start 32 (memory c))))))
                (memory_gas_cost (ceil32 (start + 32)))); [lia|reflexivity]. }
  rewrite Hfree.
  destruct (Z.ltb_spec (gas_remaining stored) 0); [lia|].
  assert (Hsame : Memory.extend start 32 (memory stored) = memory stored).
  { unfold Memory.extend. simpl.
    pose proof (length_extend start 32 (memory c)) as Hmax. simpl in Hmax.
    destruct (Z.leb_spec (ceil32 (start + 32)) (Z.of_nat (length (memory stored))));
      [reflexivity|lia]. }
  rewrite Hsame, Hread, Z.sub_0_r.
  unfold stack_push_bytes. simpl stack. rewrite Hstack'.
  destruct (Z.ltb_spec 1023 (Z.of_nat (length rest))); [lia|].
  rewrite Hlen. simpl. destruct stored; reflexivity.
Qed.

Lemma mload_reads_back_mstore_witness :
  ∃ stored,
    Memory.mstore sample_memory_gas_cost (storing_frame [IntItem 1; IntItem 0x1234])
      = (stored, Returned tt)
    ∧ Memory.mload sample_memory_gas_cost (set_stack [IntItem 1] stored)
      = (set_stack [BytesItem (replicate 30 x00%byte ++ [x12; x34]%byte)] stored,
         Done tt).
Proof.
  destruct (mload_reads_back_mstore sample_memory_gas_cost
              (storing_frame [IntItem 1; IntItem 0x1234]) (IntItem 1) (IntItem 0x1234) [])
    as (stored & Hstore & Hload).
  - reflexivity.
  - vm_compute. discriminate.
  - vm_compute. discriminate.
  - vm_compute. discriminate.
  - vm_compute. discriminate.
  - simpl. lia.
  - exists stored. split; [exact Hstore|].
    assert (Hstack : stack stored = []).
    { pose proof (f_equal (λ r, stack (fst r)) Hstore) as Hs. simpl in Hs.
      rewrite <- Hs. vm_compute. reflexivity. }
    rewrite Hstack in Hload. exact Hload.
Defined.

Lemma big_endian_to_int_acc_non_negative acc b :
  0 ≤ acc → 0 ≤ big_endian_to_int_acc acc b.
Proof.
  revert acc. induction b as [|x b IH]; intros acc Hacc; simpl; [assumption|].
  apply IH. unfold byte_to_Z. lia.
Qed.

Lemma item_int_non_negative c item rest :
  stack_non_negative c → stack c = item :: rest → 0 ≤ item_int item.
Proof.
  unfold stack_non_negative. intros Hstack Heq. rewrite Heq in Hstack.
  apply andb_true_iff in Hstack as [Hitem _]. destruct item as [v|b]; simpl.
  - now apply Z.leb_le.
  - now apply big_endian_to_int_acc_non_negative.
Qed.

Lemma extend_aligned start size m :
  Z.of_nat (length m) mod 32 = 0 →
  Z.of_nat (length (Memory.extend start size m)) mod 32 = 0
  ∧ (length m ≤ length (Memory.extend start size m))%nat.
Proof.
  intros Haligned. pose proof (length_extend start size m) as Hlen.
  pose proof (ceil32_multiple (start + size)) as Hceil.
  destruct (size =? 0); [split; [congruence|lia]|].
  destruct (Z.max_spec (Z.of_nat (length m)) (ceil32 (start + size)))
    as [[_ Hmax]|[_ Hmax]]; rewrite Hmax in Hlen; split; try congruence; lia.
Qed.

Section MemorySize.
Variable memory_gas_cost : Z → Z.
Variable c : Computation.
Hypothesis stack_ok : stack_non_negative c.
Hypothesis gas_ok : 0 ≤ gas_remaining c.
Hypothesis aligned : Z.of_nat (length (memory c)) mod 32 = 0.

Let grown (c' : Computation) : Prop :=
  Z.of_nat (length (memory c')) mod 32 = 0
  ∧ (length (memory c) ≤ length (memory c'))%nat.

Lemma store_keeps_aligned (width : nat) handler :
  (0 < width)%nat →
  (∀ c, handler c
        = (start_position <- stack_pop1_int ;;
           value <- stack_pop1_bytes ;;
           Memory.extend_memory memory_gas_cost start_position (Z.of_nat width) ;;;
           Memory.memory_write start_position (Z.of_nat width) (normalize width value)) c) →
  grown (fst (handler c)).
Proof using stack_ok gas_ok aligned.
  intros Hwidth Hhandler. rewrite Hhandler. unfold grown.
  destruct (stack c) as [|start_item [|value_item rest]] eqn:Hstack.
  - erewrite bind_raised by (unfold stack_pop1_int; rewrite Hstack; reflexivity).
    simpl. split; [assumption|lia].
  - erewrite bind_returned by (unfold stack_pop1_int; rewrite Hstack; reflexivity).
    erewrite bind_raised by (unfold stack_pop1_bytes; reflexivity).
    simpl. split; [assumption|lia].
  - erewrite bind_returned by (unfold stack_pop1_int; rewrite Hstack; reflexivity).
    erewrite bind_returned by (unfold stack_pop1_bytes; reflexivity).
    rewrite extend_then_write;
      [|assumption|eapply item_int_non_negative; eassumption
       |apply length_normalize|assumption].
    cbv zeta. destruct (_ <? _); simpl; [split; [assumption|lia]|].
    pose proof (item_int_non_negative c start_item _ stack_ok Hstack) as Hstart.
    pose proof (extend_covers (item_int start_item) (Z.of_nat width) (memory c)
                  ltac:(lia)) as Hcovers.
    rewrite length_write by (rewrite ?length_normalize; lia).
    now apply extend_aligned.
Qed.

Lemma mload_keeps_aligned : grown (fst (Memory.mload memory_gas_cost c)).
Proof using stack_ok gas_ok aligned.
  unfold grown. destruct (stack c) as [|start_item rest] eqn:Hstack.
  - unfold Memory.mload.
    erewrite and_then_stopped
      by (apply run_raised; unfold stack_pop1_int; rewrite Hstack; reflexivity).
    simpl. split; [assumption|lia].
  - rewrite (mload_outcome memory_gas_cost c start_item rest Hstack gas_ok).
    cbv zeta. destruct (_ <? _); simpl; [split; [assumption|lia]|].
    unfold stack_push_bytes. simpl.
    repeat destruct (_ : bool); simpl; now apply extend_aligned.
Qed.

(** X3. The memory of a frame grows by whole words and never shrinks: when
    its length is a multiple of 32, it still is after [MSTORE], [MSTORE8] or
    [MLOAD], however the handler ends, and it is at least what it was.  So
    the size [MSIZE] reads stays a multiple of 32. *)
Theorem memory_grows_by_words :
  grown (fst (Memory.mstore memory_gas_cost c))
  ∧ grown (fst (Memory.mstore8 memory_gas_cost c))
  ∧ grown (fst (Memory.mload memory_gas_cost c)).
Proof using stack_ok gas_ok aligned.
  split; [|split].
  - apply (store_keeps_aligned 32); [lia|reflexivity].
  - apply (store_keeps_aligned 1); [lia|reflexivity].
  - apply mload_keeps_aligned.
Qed.
End MemorySize.

Lemma memory_grows_by_words_witness :
  length (memory (fst (Memory.mstore8 sample_memory_gas_cost
                         (loading_frame [IntItem 40; IntItem 7])))) = 64%nat
  ∧ Z.of_nat (length (memory (fst (Memory.mload sample_memory_gas_cost
                                     (loading_frame [IntItem 40])))))
      mod 32 = 0.
Proof.
  split.
  - vm_compute. reflexivity.
  - apply (memory_grows_by_words sample_memory_gas_cost (loading_frame [IntItem 40])).
    + reflexivity.
    + vm_compute. discriminate.
    + reflexivity.
Defined.

(** X4. Memory is zero-extended on access: an [MLOAD] at or past the end of
    the memory pushes 32 zero bytes (and leaves the memory grown to cover
    them), when the growth can be paid and the stack has room. *)
Theorem mload_past_the_end_reads_zeros (memory_gas_cost : Z → Z) (c : Computation)
    (start_item : StackItem) (rest : list StackItem) :
  let start := item_int start_item in
  stack c = start_item :: rest →
  0 ≤ gas_remaining c →
  Z.of_nat (length (memory c)) ≤ start →
  growth_fee memory_gas_cost c start 32 ≤ gas_remaining c →
  (length rest < 1024)%nat →
  Memory.mload memory_gas_cost c
  = (set_stack (BytesItem (replicate 32 x00%byte) :: rest)
       (set_memory
          (memory c ++ replicate (Z.to_nat (ceil32 (start + 32))
                                  - length (memory c)) x00%byte)
          (set_gas_remaining (gas_remaining c - growth_fee memory_gas_cost c start 32)
             c)),
     Done tt).
Proof.
  intros start Hstack Hgas Hpast Hfee Hroom.
  rewrite (mload_outcome memory_gas_cost c start_item rest Hstack Hgas).
  cbv zeta. fold start.
  destruct (Z.ltb_spec (gas_remaining c) (growth_fee memory_gas_cost c start 32));
    [lia|].
  pose proof (ceil32_ge (start + 32)) as Hceil.
  assert (Hextend : Memory.extend start 32 (memory c)
                    = memory c ++ replicate (Z.to_nat (ceil32 (start + 32))
                                             - length (memory c)) x00%byte).
  { unfold Memory.extend. simpl.
    destruct (Z.leb_spec (ceil32 (start + 32)) (Z.of_nat (length (memory c))));
      [lia|]. do 2 f_equal. lia. }
  rewrite Hextend.
  assert (Hread : take 32 (drop (Z.to_nat start)
                    (memory c ++ replicate (Z.to_nat (ceil32 (start + 32))
                                            - length (memory c)) x00%byte))
                  = replicate 32 x00%byte).
  { rewrite drop_app_ge by lia. rewrite drop_replicate, take_replicate.
    f_equal. lia. }
  rewrite Hread. unfold stack_push_bytes. simpl.
  destruct (Z.ltb_spec 1023 (Z.of_nat (length rest))); [lia|].
  now destruct c.
Qed.

Lemma mload_past_the_end_reads_zeros_witness :
  Memory.mload sample_memory_gas_cost (loading_frame [IntItem 40])
  = (set_stack [BytesItem (replicate 32 x00%byte)]
       (set_memory (replicate 32 xff%byte ++ replicate 64 x00%byte)
          (set_gas_remaining 994 (loading_frame []))),
     Done tt).
Proof.
  etransitivity.
  - apply (mload_past_the_end_reads_zeros sample_memory_gas_cost
             (loading_frame [IntItem 40]) (IntItem 40) []).
    + reflexivity.
    + vm_compute. discriminate.
    + vm_compute. discriminate.
    + vm_compute. discriminate.
    + simpl. lia.
  - vm_compute. reflexivity.
Defined.

(** ** London fees *)

(** X5. In London the price a sender pays per unit of gas is the tip the
    fee recipient gets plus the base fee, for every transaction and every
    base fee, and the transaction context carries that same price.  For a
    transaction whose two fee fields both hold its gas price (a transaction
    from before EIP-1559) and a base fee that is not negative, the price is
    that gas price. *)
Theorem london_price_is_tip_plus_base_fee (s : State) (transaction : Transaction) (b : Z) :
  base_fee_per_gas (execution_context s) = Some b →
  ∃ price tip,
    LondonState.get_gas_price s transaction = Returned price
    ∧ LondonState.get_tip s transaction = Returned tip
    ∧ LondonState.get_transaction_context s transaction
      = Returned (mkTransactionContext price (tx_sender transaction))
    ∧ price = tip + b
    ∧ (tx_max_fee_per_gas transaction = tx_gas_price transaction →
       tx_max_priority_fee_per_gas transaction = tx_gas_price transaction →
       0 ≤ b →
       price = tx_gas_price transaction).
Proof.
  intros Hb.
  unfold LondonState.get_gas_price, LondonState.get_tip,
    LondonState.get_transaction_context, LondonState.execution_context_base_fee_per_gas.
  rewrite Hb. do 2 eexists. split; [reflexivity|]. split; [reflexivity|].
  split; [now rewrite Z.min_comm|]. split; [lia|].
  intros -> -> Hbase. lia.
Qed.

Lemma london_price_is_tip_plus_base_fee_witness :
  ∃ price tip,
    LondonState.get_gas_price london_state london_transaction = Returned price
    ∧ LondonState.get_tip london_state london_transaction = Returned tip
    ∧ price = tip + 30.
Proof.
  destruct (london_price_is_tip_plus_base_fee london_state london_transaction 30 eq_refl)
    as (price & tip & Hprice & Htip & _ & Hsum & _).
  exists price, tip. auto.
Defined.

(** ** Bounds on the refund *)

(** X6. The refund never exceeds its cap: at most half of the gas used
    before London and a fifth of it from London, and never more than the
    frame hands on.  With gas used, accumulated refund and the refund per
    deleted account not negative, the refund is not negative and the gas
    finally charged, [gas_used - refund], is at least half (before London)
    or four fifths (from London) of the gas used.  For a frame that ended
    with an error the refund is 0 in both. *)
Theorem refund_is_capped (R : Z) (computation : Computation) (gas_used : Z) :
  0 ≤ gas_used → 0 ≤ get_gas_refund computation → 0 ≤ R →
  let frontier := snd (FrontierTransactionExecutor.calculate_gas_refund R computation
                         gas_used) in
  let london := snd (LondonTransactionExecutor.calculate_gas_refund computation
                       gas_used) in
  let queued := Z.of_nat (length (get_accounts_for_deletion computation)) in
  0 ≤ frontier ≤ gas_used / 2
  ∧ frontier ≤ get_gas_refund computation + R * queued
  ∧ gas_used ≤ 2 * (gas_used - frontier) + 1
  ∧ 0 ≤ london ≤ gas_used / 5
  ∧ london ≤ get_gas_refund computation
  ∧ 4 * gas_used ≤ 5 * (gas_used - london)
  ∧ (is_error computation = true → frontier = 0 ∧ london = 0).
Proof.
  intros Hused Hrefund HR frontier london queued.
  assert (Hfrontier : frontier
                      = Z.min (get_gas_refund computation + R * queued) (gas_used / 2)).
  { subst frontier queued.
    destruct (frontier_calculate_gas_refund R computation gas_used)
      as [[_ ->]|[Hq ->]].
    - reflexivity.
    - rewrite Hq. simpl. now rewrite Z.mul_0_r, Z.add_0_r. }
  assert (Hlondon : london = Z.min (get_gas_refund computation) (gas_used / 5))
    by reflexivity.
  assert (Hfailed : is_error computation = true →
                    get_gas_refund computation = 0 ∧ queued = 0).
  { intros Herror. subst queued. unfold get_gas_refund, get_accounts_for_deletion.
    rewrite Herror. split; reflexivity. }
  rewrite Hfrontier, Hlondon.
  pose proof (Z.div_pos gas_used 2 Hused ltac:(lia)).
  pose proof (Z.div_pos gas_used 5 Hused ltac:(lia)).
  pose proof (Z.div_mod gas_used 2 ltac:(lia)).
  pose proof (Z.mod_pos_bound gas_used 2 ltac:(lia)).
  pose proof (Z.div_mod gas_used 5 ltac:(lia)).
  pose proof (Z.mod_pos_bound gas_used 5 ltac:(lia)).
  assert (0 ≤ R * queued) by (subst queued; nia).
  do 6 (split; [lia|]).
  intros Herror. destruct (Hfailed Herror) as [Hnone Hempty].
  rewrite Hnone, Hempty. lia.
Qed.

Lemma refund_is_capped_witness :
  snd (FrontierTransactionExecutor.calculate_gas_refund 24000 finished_computation 97000)
  ≤ 97000 / 2
  ∧ snd (LondonTransactionExecutor.calculate_gas_refund finished_computation 97000)
    ≤ 97000 / 5
  ∧ snd (FrontierTransactionExecutor.calculate_gas_refund 24000
           (set_error OutOfGas finished_computation) 100000)
    = 0.
Proof.
  destruct (refund_is_capped 24000 finished_computation 97000)
    as ([_ Hfrontier] & _ & _ & [_ Hlondon] & _);
    [lia|vm_compute; discriminate|lia|].
  destruct (refund_is_capped 24000 (set_error OutOfGas finished_computation) 100000)
    as (_ & _ & _ & _ & _ & _ & Hfailed);
    [lia|vm_compute; discriminate|lia|].
  split; [assumption|]. split; [assumption|]. now apply Hfailed.
Defined.

(** ** From a transaction to its top-level message *)

Lemma lookup_put_account a acc s b :
  accounts (world (put_account a acc s)) !! b
  = if decide (a = b) then Some acc else accounts (world s) !! b.
Proof.
  unfold put_account. simpl. destruct (decide (a = b)) as [->|Hne].
  - apply lookup_insert_eq.
  - now apply lookup_insert_ne.
Qed.

Lemma get_account_put_account a acc s b :
  get_account (put_account a acc s) b
  = if decide (a = b) then acc else get_account s b.
Proof.
  unfold get_account. rewrite lookup_put_account. now destruct (decide (a = b)).
Qed.

Lemma get_account_delta_balance a delta s b :
  get_account (delta_balance a delta s) b
  = if decide (a = b)
    then mkAccount (get_nonce s a) (get_balance s a + delta) (get_code s a)
           (acct_storage (get_account s a))
    else get_account s b.
Proof. unfold delta_balance, set_balance. apply get_account_put_account. Qed.

Lemma get_account_increment_nonce a s b :
  get_account (increment_nonce a s) b
  = if decide (a = b)
    then mkAccount (get_nonce s a + 1) (get_balance s a) (get_code s a)
           (acct_storage (get_account s a))
    else get_account s b.
Proof. unfold increment_nonce, set_nonce. apply get_account_put_account. Qed.

Lemma lookup_delta_balance_other a delta s b :
  a ≠ b → accounts (world (delta_balance a delta s)) !! b = accounts (world s) !! b.
Proof.
  intros Hne. unfold delta_balance, set_balance. rewrite lookup_put_account.
  now destruct (decide (a = b)).
Qed.

Lemma lookup_increment_nonce_other a s b :
  a ≠ b → accounts (world (increment_nonce a s)) !! b = accounts (world s) !! b.
Proof.
  intros Hne. unfold increment_nonce, set_nonce. rewrite lookup_put_account.
  now destruct (decide (a = b)).
Qed.

Section TransactionPath.
Context {vm_state : StateAPI.t}.
Variable generate_contract_address : Address → Z → Address.
Variable read_logged_fields : Transaction → Outcome unit.
Variable apply_computation : Message → TransactionContext → Exec State Computation.

Lemma get_balance_charged transaction price s :
  get_balance (charged transaction price s) (tx_sender transaction)
  = get_balance s (tx_sender transaction) - tx_gas transaction * price.
Proof.
  unfold charged, get_balance at 1. rewrite get_account_increment_nonce.
  rewrite decide_True by reflexivity. simpl.
  rewrite get_balance_delta_balance. lia.
Qed.

Lemma get_nonce_charged transaction price s :
  get_nonce (charged transaction price s) (tx_sender transaction)
  = get_nonce s (tx_sender transaction) + 1.
Proof.
  unfold charged, get_nonce at 1. rewrite get_account_increment_nonce.
  rewrite decide_True by reflexivity. simpl.
  unfold get_nonce at 1. rewrite get_account_delta_balance.
  now rewrite decide_True by reflexivity.
Qed.

Lemma get_code_charged transaction price s a :
  get_code (charged transaction price s) a = get_code s a.
Proof.
  unfold charged, get_code at 1. rewrite get_account_increment_nonce.
  destruct (decide (tx_sender transaction = a)) as [<-|Hne].
  - simpl. unfold get_code at 1. rewrite get_account_delta_balance.
    now rewrite decide_True by reflexivity.
  - rewrite get_account_delta_balance. now rewrite decide_False by assumption.
Qed.

(** The debit with its validation: it is made when the new balance is a
    [u256] and refused otherwise. *)
Lemma checked_delta_balance_paid a delta s :
  0 ≤ get_balance s a + delta < 2 ^ 256 →
  checked_delta_balance a delta s = (delta_balance a delta s, Returned tt).
Proof.
  intros [Hlow Hhigh]. unfold checked_delta_balance. rewrite bind_gets.
  unfold validate_uint256.
  apply Z.leb_le in Hlow. apply Z.ltb_lt in Hhigh. now rewrite Hlow, Hhigh.
Qed.

Lemma checked_delta_balance_refused a delta s :
  ¬ (0 ≤ get_balance s a + delta < 2 ^ 256) →
  checked_delta_balance a delta s = (s, Raised ValidationError).
Proof.
  intros Hout. unfold checked_delta_balance. rewrite bind_gets.
  unfold validate_uint256.
  destruct (Z.leb_spec 0 (get_balance s a + delta));
    destruct (Z.ltb_spec (get_balance s a + delta) (2 ^ 256));
    try reflexivity. lia.
Qed.

(** The steps of [build_evm_message] up to the reads of the logged
    fields. *)
Lemma build_evm_message_parts transaction s price :
  let parts :=
    if bool_decide (tx_to transaction = CREATE_CONTRACT_ADDRESS) then
      nonce <- gets (λ s, get_nonce s (tx_sender transaction)) ;;
      ret (Some (generate_contract_address (tx_sender transaction) (nonce - 1)),
           [], tx_data transaction)
    else
      code <- gets (λ s, get_code s (tx_to transaction)) ;;
      ret (None, tx_data transaction, code) in
  ∃ contract_address data code,
    parts (charged transaction price s)
    = (charged transaction price s, Returned (contract_address, data, code))
    ∧ Message_init (tx_gas transaction - tx_intrinsic_gas transaction)
        (tx_to transaction) (tx_sender transaction) (tx_value transaction)
        data code contract_address
      = built_message generate_contract_address transaction s.
Proof.
  unfold built_message.
  destruct (bool_decide (tx_to transaction = CREATE_CONTRACT_ADDRESS)).
  - do 3 eexists. split; [rewrite bind_gets; reflexivity|].
    rewrite get_nonce_charged. do 3 f_equal. lia.
  - do 3 eexists. split; [rewrite bind_gets; reflexivity|].
    now rewrite get_code_charged.
Qed.

Lemma london_build_evm_message_outcome transaction s price :
  StateAPI.get_gas_price s transaction = Returned price →
  0 ≤ get_balance s (tx_sender transaction) - tx_gas transaction * price < 2 ^ 256 →
  LondonTransactionExecutor.build_evm_message generate_contract_address transaction s
  = (charged transaction price s,
     Returned (built_message generate_contract_address transaction s)).
Proof.
  intros Hprice Hpaid. unfold LondonTransactionExecutor.build_evm_message.
  erewrite bind_returned by (rewrite Hprice; reflexivity).
  erewrite bind_returned by (apply checked_delta_balance_paid; lia).
  rewrite bind_modify. fold (charged transaction price s).
  destruct (build_evm_message_parts transaction s price)
    as (contract_address & data & code & Hparts & Hmessage).
  erewrite bind_returned by exact Hparts.
  unfold ret. now rewrite Hmessage.
Qed.

Lemma frontier_build_evm_message_outcome transaction s price :
  StateAPI.get_gas_price s transaction = Returned price →
  0 ≤ get_balance s (tx_sender transaction) - tx_gas transaction * price < 2 ^ 256 →
  FrontierTransactionExecutor.build_evm_message generate_contract_address
    read_logged_fields transaction s
  = (charged transaction price s,
     match read_logged_fields transaction with
     | Returned _ => Returned (built_message generate_contract_address transaction s)
     | Raised e => Raised e
     end).
Proof.
  intros Hprice Hpaid. unfold FrontierTransactionExecutor.build_evm_message.
  erewrite bind_returned by (rewrite Hprice; reflexivity).
  erewrite bind_returned by (apply checked_delta_balance_paid; lia).
  rewrite bind_modify. fold (charged transaction price s).
  destruct (build_evm_message_parts transaction s price)
    as (contract_address & data & code & Hparts & Hmessage).
  erewrite bind_returned by exact Hparts.
  unfold bind, lift, ret.
  destruct (read_logged_fields transaction) as [[]|e]; [|reflexivity].
  now rewrite Hmessage.
Qed.

Lemma build_evm_message_refused transaction s price :
  StateAPI.get_gas_price s transaction = Returned price →
  ¬ (0 ≤ get_balance s (tx_sender transaction) - tx_gas transaction * price < 2 ^ 256) →
  FrontierTransactionExecutor.build_evm_message generate_contract_address
    read_logged_fields transaction s = (s, Raised ValidationError)
  ∧ LondonTransactionExecutor.build_evm_message generate_contract_address transaction s
    = (s, Raised ValidationError).
Proof.
  intros Hprice Hout.
  unfold FrontierTransactionExecutor.build_evm_message,
    LondonTransactionExecutor.build_evm_message.
  split.
  - erewrite bind_returned by (rewrite Hprice; reflexivity).
    erewrite bind_raised by (apply checked_delta_balance_refused; lia). reflexivity.
  - erewrite bind_returned by (rewrite Hprice; reflexivity).
    erewrite bind_raised by (apply checked_delta_balance_refused; lia). reflexivity.
Qed.

(** X7. [build_evm_message] buys the gas and counts the transaction before
    anything runs.  When the state names a gas price and the sender's
    balance less [gas * price] is a [u256], the balance drops by
    [gas * price], the nonce grows by one and no other account changes; the
    message carries the gas left after the intrinsic gas, at depth 0.  A
    transaction to the empty address creates, at the address generated from
    the sender's nonce before the transaction, with the transaction's data as
    code and no data; any other transaction calls [to] with the code [to] had
    before and the transaction's data.  London's [build_evm_message] returns
    this message; Frontier's returns it when the reads of the logged fields
    return, and when they raise (as [gas_price] does on a dynamic-fee
    transaction) it raises after the debit and the increment, which stay.
    When the sender cannot pay, or the new balance is no [u256], both raise
    [ValidationError] and change nothing; when the state names no price, its
    exception comes through and nothing is changed. *)
Theorem build_evm_message_charges_the_sender (transaction : Transaction) (s : State) :
  (∀ price, StateAPI.get_gas_price s transaction = Returned price →
     let paid := get_balance s (tx_sender transaction) - tx_gas transaction * price in
     (0 ≤ paid < 2 ^ 256 →
      ∃ s1 message,
        LondonTransactionExecutor.build_evm_message generate_contract_address
          transaction s = (s1, Returned message)
        ∧ (read_logged_fields transaction = Returned tt →
           FrontierTransactionExecutor.build_evm_message generate_contract_address
             read_logged_fields transaction s = (s1, Returned message))
        ∧ (∀ e, read_logged_fields transaction = Raised e →
             FrontierTransactionExecutor.build_evm_message generate_contract_address
               read_logged_fields transaction s = (s1, Raised e))
        ∧ get_balance s1 (tx_sender transaction) = paid
        ∧ get_nonce s1 (tx_sender transaction)
          = get_nonce s (tx_sender transaction) + 1
        ∧ (∀ a, a ≠ tx_sender transaction →
             accounts (world s1) !! a = accounts (world s) !! a)
        ∧ checkpoints s1 = checkpoints s
        ∧ msg_gas message = tx_gas transaction - tx_intrinsic_gas transaction
        ∧ msg_sender message = tx_sender transaction
        ∧ msg_value message = tx_value transaction
        ∧ msg_depth message = 0
        ∧ msg_should_transfer_value message = true
        ∧ (tx_to transaction = CREATE_CONTRACT_ADDRESS →
             msg_is_create message = true
             ∧ msg_storage_address message
               = generate_contract_address (tx_sender transaction)
                   (get_nonce s (tx_sender transaction))
             ∧ msg_data message = []
             ∧ msg_code message = tx_data transaction)
        ∧ (tx_to transaction ≠ CREATE_CONTRACT_ADDRESS →
             msg_is_create message = false
             ∧ msg_storage_address message = tx_to transaction
             ∧ msg_data message = tx_data transaction
             ∧ msg_code message = get_code s (tx_to transaction)))
     ∧ (¬ (0 ≤ paid < 2 ^ 256) →
        FrontierTransactionExecutor.build_evm_message generate_contract_address
          read_logged_fields transaction s = (s, Raised ValidationError)
        ∧ LondonTransactionExecutor.build_evm_message generate_contract_address
            transaction s = (s, Raised ValidationError)))
  ∧ (∀ e, StateAPI.get_gas_price s transaction = Raised e →
       FrontierTransactionExecutor.build_evm_message generate_contract_address
         read_logged_fields transaction s = (s, Raised e)
       ∧ LondonTransactionExecutor.build_evm_message generate_contract_address
           transaction s = (s, Raised e)).
Proof.
  split.
  - intros price Hprice paid. split.
    + intros Hpaid.
      exists (charged transaction price s),
        (built_message generate_contract_address transaction s).
      split; [exact (london_build_evm_message_outcome _ _ price Hprice Hpaid)|].
      split.
      { intros Hread.
        rewrite (frontier_build_evm_message_outcome _ _ price Hprice Hpaid).
        now rewrite Hread. }
      split.
      { intros e Hread.
        rewrite (frontier_build_evm_message_outcome _ _ price Hprice Hpaid).
        now rewrite Hread. }
      split; [apply get_balance_charged|]. split; [apply get_nonce_charged|].
      split.
      { intros a Hne. unfold charged.
        rewrite lookup_increment_nonce_other, lookup_delta_balance_other by congruence.
        reflexivity. }
      split; [reflexivity|]. unfold built_message.
      destruct (bool_decide_reflect (tx_to transaction = CREATE_CONTRACT_ADDRESS))
        as [Hto|Hto]; simpl; repeat split; try reflexivity; try congruence.
      * now apply bool_decide_eq_true.
      * now apply bool_decide_eq_false.
    + now apply build_evm_message_refused.
  - intros e Hraised.
    unfold FrontierTransactionExecutor.build_evm_message,
      LondonTransactionExecutor.build_evm_message.
    split; erewrite bind_raised by (rewrite Hraised; reflexivity); reflexivity.
Qed.
End TransactionPath.

Lemma build_evm_message_charges_the_sender_witness :
  (∃ s1 message,
     LondonTransactionExecutor.build_evm_message (vm_state := LondonState.instance)
       sample_generate_contract_address london_transaction funded_london_state
     = (s1, Returned message)
     ∧ FrontierTransactionExecutor.build_evm_message (vm_state := LondonState.instance)
         sample_generate_contract_address sample_read_logged_fields
         london_transaction funded_london_state
       = (s1, Raised AttributeError)
     ∧ get_balance s1 alice = 1000000 - 21000 * 32
     ∧ get_nonce s1 alice = 1
     ∧ msg_gas message = 0)
  ∧ LondonTransactionExecutor.build_evm_message (vm_state := LondonState.instance)
      sample_generate_contract_address london_transaction london_state
    = (london_state, Raised ValidationError).
Proof.
  destruct (proj1 (build_evm_message_charges_the_sender
                     (vm_state := LondonState.instance)
                     sample_generate_contract_address sample_read_logged_fields
                     london_transaction funded_london_state) 32 eq_refl)
    as [Hpaid _].
  destruct Hpaid
    as (s1 & message & Hlondon & _ & Hfrontier & Hbalance & Hnonce & _ & _ & Hgas & _).
  { vm_compute. split; [discriminate|reflexivity]. }
  destruct (proj1 (build_evm_message_charges_the_sender
                     (vm_state := LondonState.instance)
                     sample_generate_contract_address sample_read_logged_fields
                     london_transaction london_state) 32 eq_refl)
    as [_ Hrefused].
  split.
  - exists s1, message. split; [exact Hlondon|].
    split; [apply Hfrontier; reflexivity|].
    split; [exact Hbalance|]. split; [exact Hnonce|exact Hgas].
  - apply Hrefused. vm_compute. intros [Hlow _]. now apply Hlow.
Defined.

(** X8. [validate_frontier_transaction] accepts a transaction exactly when
    the sender's balance covers the gas at the state's price, covers the
    value on top of it, and the sender's nonce is the transaction's; it
    refuses every other transaction with [ValidationError].  When the state
    names no price, the state's exception comes through. *)
Theorem validate_frontier_transaction_decides {vm_state : StateAPI.t}
    (s : State) (transaction : Transaction) :
  (∀ price, StateAPI.get_gas_price s transaction = Returned price →
     (FrontierValidation.validate_frontier_transaction s transaction = Returned tt
      ↔ tx_gas transaction * price ≤ get_balance s (tx_sender transaction)
        ∧ tx_value transaction + tx_gas transaction * price
          ≤ get_balance s (tx_sender transaction)
        ∧ get_nonce s (tx_sender transaction) = tx_nonce transaction)
     ∧ (FrontierValidation.validate_frontier_transaction s transaction ≠ Returned tt →
        FrontierValidation.validate_frontier_transaction s transaction
        = Raised ValidationError))
  ∧ (∀ e, StateAPI.get_gas_price s transaction = Raised e →
       FrontierValidation.validate_frontier_transaction s transaction = Raised e).
Proof.
  unfold FrontierValidation.validate_frontier_transaction. split.
  - intros price ->. cbv zeta.
    destruct (Z.ltb_spec (get_balance s (tx_sender transaction))
                (tx_gas transaction * price)).
    { split; [split; [discriminate|lia]|reflexivity]. }
    destruct (Z.ltb_spec (get_balance s (tx_sender transaction))
                (tx_value transaction + tx_gas transaction * price)).
    { split; [split; [discriminate|lia]|reflexivity]. }
    destruct (Z.eqb_spec (get_nonce s (tx_sender transaction)) (tx_nonce transaction)).
    + simpl. split; [split; [intros _; lia|reflexivity]|congruence].
    + simpl. split; [split; [discriminate|tauto]|reflexivity].
  - intros e ->. reflexivity.
Qed.

Section Validation.
Context {vm_state : StateAPI.t}.
Variable generate_contract_address : Address → Z → Address.
Variable read_logged_fields : Transaction → Outcome unit.
Variable apply_computation : Message → TransactionContext → Exec State Computation.

End Validation.

Lemma validate_frontier_transaction_decides_witness :
  FrontierValidation.validate_frontier_transaction (state_class := LondonState.instance)
    london_state london_transaction = Raised ValidationError.
Proof.
  apply (proj1 (validate_frontier_transaction_decides
                  (vm_state := LondonState.instance) london_state london_transaction)
           32 eq_refl).
  vm_compute. discriminate.
Defined.


(** ** Sweeping empty accounts *)

Lemma lookup_delete_account a s b :
  accounts (world (delete_account a s)) !! b
  = if decide (a = b) then None else accounts (world s) !! b.
Proof.
  unfold delete_account. simpl. destruct (decide (a = b)) as [->|Hne].
  - apply lookup_delete_eq.
  - now apply lookup_delete_ne.
Qed.

Lemma get_account_local s1 s2 a :
  accounts (world s1) !! a = accounts (world s2) !! a →
  get_account s1 a = get_account s2 a.
Proof. unfold get_account. now intros ->. Qed.

Lemma account_is_empty_local s1 s2 a :
  accounts (world s1) !! a = accounts (world s2) !! a →
  account_is_empty s1 a = account_is_empty s2 a.
Proof.
  intros Hlookup. unfold account_is_empty, get_nonce, get_balance, get_code.
  now rewrite (get_account_local s1 s2 a Hlookup).
Qed.

Lemma exists_and_is_empty_local s1 s2 a :
  accounts (world s1) !! a = accounts (world s2) !! a →
  exists_and_is_empty s1 a = exists_and_is_empty s2 a.
Proof.
  intros Hlookup. unfold exists_and_is_empty, account_exists.
  now rewrite (account_is_empty_local s1 s2 a Hlookup), Hlookup.
Qed.

Lemma exists_and_is_empty_absent s a :
  accounts (world s) !! a = None → exists_and_is_empty s a = false.
Proof.
  intros Hlookup. unfold exists_and_is_empty, account_exists. rewrite Hlookup.
  rewrite bool_decide_eq_false_2; [reflexivity|]. now intros [x Hx].
Qed.

Lemma account_is_empty_readings s a :
  account_is_empty s a = true →
  get_nonce s a = 0 ∧ get_balance s a = 0 ∧ get_code s a = [].
Proof.
  unfold account_is_empty. intros Hempty.
  apply andb_true_iff in Hempty as [Hempty Hcode].
  apply andb_true_iff in Hempty as [Hnonce Hbalance].
  apply Z.eqb_eq in Hnonce, Hbalance. apply bool_decide_eq_true in Hcode. auto.
Qed.

Section Sweep.
(** The test of the sweep: it reads the account it is asked about, holds
    only of empty accounts and holds of every empty account that exists. *)
Variable test : State → Address → bool.
Hypothesis test_local : ∀ s1 s2 a,
  accounts (world s1) !! a = accounts (world s2) !! a → test s1 a = test s2 a.
Hypothesis test_empty : ∀ s a, test s a = true → account_is_empty s a = true.
Hypothesis test_complete : ∀ s a, exists_and_is_empty s a = true → test s a = true.

Lemma sweep_outcome (l : list Address) s :
  ∃ s',
    for_each l
      (λ a, found <- gets (λ s, test s a) ;;
            if found then modify (delete_account a) else ret tt) s
    = (s', Returned tt)
    ∧ (∀ a, a ∈ l → exists_and_is_empty s' a = false)
    ∧ (∀ a, accounts (world s') !! a = accounts (world s) !! a
            ∨ (accounts (world s') !! a = None ∧ a ∈ l ∧ test s a = true))
    ∧ warm_addresses (world s') = warm_addresses (world s)
    ∧ warm_slots (world s') = warm_slots (world s)
    ∧ checkpoints s' = checkpoints s
    ∧ execution_context s' = execution_context s.
Proof.
  revert s. induction l as [|b l IH]; intros s.
  - exists s. split; [reflexivity|]. split; [intros a Ha; inversion Ha|].
    split; [now left|]. repeat split.
  - simpl for_each.
    rewrite (bind_returned _ _ s (if test s b then delete_account b s else s) tt)
      by (rewrite bind_gets; destruct (test s b); reflexivity).
    destruct (test s b) eqn:Htest.
    + destruct (IH (delete_account b s))
        as (s' & Hrun & Hswept & Hlookup & Hwa & Hws & Hcps & Hctx).
      exists s'. split; [exact Hrun|].
      split; [|split; [|now rewrite Hwa, Hws, Hcps, Hctx]].
      * intros a Ha. apply elem_of_cons in Ha as [->|Ha]; [|now apply Hswept].
        apply exists_and_is_empty_absent.
        destruct (Hlookup b) as [Hsame|[Hnone _]]; [|exact Hnone].
        rewrite Hsame, lookup_delete_account. now rewrite decide_True.
      * intros a. destruct (decide (b = a)) as [<-|Hne].
        -- right. split; [|split; [left|exact Htest]].
           destruct (Hlookup b) as [Hsame|[Hnone _]]; [|exact Hnone].
           rewrite Hsame, lookup_delete_account. now rewrite decide_True.
        -- assert (Hother : accounts (world (delete_account b s)) !! a
                            = accounts (world s) !! a).
           { rewrite lookup_delete_account. now rewrite decide_False. }
           destruct (Hlookup a) as [Hsame|(Hnone & Ha & Hfound)].
           ++ left. now rewrite Hsame.
           ++ right. split; [exact Hnone|]. split; [now right|].
              now rewrite <- (test_local _ _ _ Hother).
    + destruct (IH s) as (s' & Hrun & Hswept & Hlookup & Hframe).
      exists s'. split; [exact Hrun|].
      split; [|split; [|exact Hframe]].
      * intros a Ha. apply elem_of_cons in Ha as [->|Ha]; [|now apply Hswept].
        destruct (Hlookup b) as [Hsame|[Hnone _]].
        -- rewrite (exists_and_is_empty_local _ _ _ Hsame).
           destruct (exists_and_is_empty s b) eqn:Hdead; [|reflexivity].
           apply test_complete in Hdead. congruence.
        -- now apply exists_and_is_empty_absent.
      * intros a. destruct (Hlookup a) as [Hsame|(Hnone & Ha & Hfound)].
        -- now left.
        -- right. split; [exact Hnone|]. split; [now right|exact Hfound].
Qed.

(** A sweep changes no balance, nonce or code that can be read. *)
Lemma sweep_keeps_readings (l : list Address) s s' :
  (∀ a, accounts (world s') !! a = accounts (world s) !! a
        ∨ (accounts (world s') !! a = None ∧ a ∈ l ∧ test s a = true)) →
  ∀ a, get_balance s' a = get_balance s a
       ∧ get_nonce s' a = get_nonce s a
       ∧ get_code s' a = get_code s a.
Proof.
  intros Hlookup a. destruct (Hlookup a) as [Hsame|(Hnone & _ & Hfound)].
  - unfold get_balance, get_nonce, get_code.
    now rewrite (get_account_local _ _ _ Hsame).
  - apply test_empty, account_is_empty_readings in Hfound
      as (Hnonce & Hbalance & Hcode).
    rewrite Hnonce, Hbalance, Hcode.
    unfold get_balance, get_nonce, get_code, get_account. now rewrite Hnone.
Qed.
End Sweep.

Section SpuriousDragonFinalization.
Context {vm_state : StateAPI.t} {executor : TransactionExecutorAPI.t}.
Variable collect_touched_accounts : Computation → list Address.

(** X10. Spurious Dragon's [finalize_computation] ends with the sweep of
    EIP-161: when the inherited finalization returns, it returns the same
    frame, and afterwards no touched account both exists and is empty.  An
    account is either as the inherited finalization left it or it is gone,
    and it is gone only when it was touched, existed and was empty; so no
    balance, nonce or code that can be read has changed, and the open
    checkpoints are kept. *)
Theorem spurious_dragon_sweeps_touched_accounts
    (transaction : Transaction) (computation : Computation) (s s1 : State)
    (finalized : Computation) :
  FrontierTransactionExecutor.finalize_computation transaction computation s
  = (s1, Returned finalized) →
  ∃ s2,
    SpuriousDragonTransactionExecutor.finalize_computation collect_touched_accounts
      transaction computation s = (s2, Returned finalized)
    ∧ (∀ a, a ∈ collect_touched_accounts finalized →
            account_exists s2 a && account_is_empty s2 a = false)
    ∧ (∀ a, accounts (world s2) !! a = accounts (world s1) !! a
            ∨ (accounts (world s2) !! a = None
               ∧ a ∈ collect_touched_accounts finalized
               ∧ account_exists s1 a = true ∧ account_is_empty s1 a = true))
    ∧ (∀ a, get_balance s2 a = get_balance s1 a
            ∧ get_nonce s2 a = get_nonce s1 a
            ∧ get_code s2 a = get_code s1 a)
    ∧ checkpoints s2 = checkpoints s1.
Proof.
  intros Hfinal.
  destruct (sweep_outcome exists_and_is_empty exists_and_is_empty_local
              ltac:(auto) (collect_touched_accounts finalized) s1)
    as (s2 & Hrun & Hswept & Hlookup & _ & _ & Hcps & _).
  exists s2. split.
  { unfold SpuriousDragonTransactionExecutor.finalize_computation.
    erewrite bind_returned by exact Hfinal.
    erewrite bind_returned by exact Hrun. reflexivity. }
  split; [exact Hswept|]. split; [|split; [|exact Hcps]].
  - intros a. destruct (Hlookup a) as [Hsame|(Hnone & Ha & Hfound)]; [now left|].
    right. apply andb_true_iff in Hfound. tauto.
  - apply (sweep_keeps_readings exists_and_is_empty) with
      (l := collect_touched_accounts finalized); [|exact Hlookup].
    intros s0 a Hfound. now apply andb_true_iff in Hfound.
Qed.
End SpuriousDragonFinalization.

Lemma spurious_dragon_sweeps_touched_accounts_witness :
  account_exists touched_state bob = true
  ∧ ∃ s2,
      @SpuriousDragonTransactionExecutor.finalize_computation LondonState.instance
        LondonTransactionExecutor.instance sample_collect_touched_accounts
        finished_transaction settled_computation touched_state
      = (s2, Returned settled_computation)
      ∧ account_exists s2 bob && account_is_empty s2 bob = false.
Proof.
  split; [vm_compute; reflexivity|].
  destruct (spurious_dragon_sweeps_touched_accounts
              (vm_state := LondonState.instance)
              (executor := LondonTransactionExecutor.instance)
              sample_collect_touched_accounts finished_transaction settled_computation
              touched_state
              (fst (@FrontierTransactionExecutor.finalize_computation
                      LondonState.instance LondonTransactionExecutor.instance
                      finished_transaction settled_computation touched_state))
              settled_computation)
    as (s2 & Hrun & Hswept & _).
  - vm_compute. reflexivity.
  - exists s2. split; [exact Hrun|]. apply Hswept.
    apply elem_of_cons. right. apply elem_of_cons. now left.
Defined.

(** ** Credits: withdrawals and block rewards *)

Lemma get_balance_delta_balance_other a delta s b :
  a ≠ b → get_balance (delta_balance a delta s) b = get_balance s b.
Proof.
  intros Hne. unfold get_balance at 1. rewrite get_account_delta_balance.
  now rewrite decide_False.
Qed.

Lemma get_balance_credit_all credits s a :
  get_balance (credit_all credits s) a = get_balance s a + total_credited a credits.
Proof.
  revert s. induction credits as [|[b amount] credits IH]; intros s.
  - simpl. lia.
  - change (credit_all ((b, amount) :: credits) s)
      with (credit_all credits (delta_balance b amount s)).
    rewrite IH. simpl. destruct (bool_decide_reflect (b = a)) as [->|Hne].
    + rewrite get_balance_delta_balance. lia.
    + rewrite get_balance_delta_balance_other by assumption. lia.
Qed.

Lemma lookup_credit_all_other credits s a :
  a ∉ credits.*1 →
  accounts (world (credit_all credits s)) !! a = accounts (world s) !! a.
Proof.
  revert s. induction credits as [|[b amount] credits IH]; intros s Hnot.
  - reflexivity.
  - change (credit_all ((b, amount) :: credits) s)
      with (credit_all credits (delta_balance b amount s)).
    simpl in Hnot. apply not_elem_of_cons in Hnot as [Hne Hnot].
    rewrite IH by assumption. now apply lookup_delta_balance_other.
Qed.

Lemma account_exists_delta_balance a delta s b :
  a = b ∨ account_exists s b = true →
  account_exists (delta_balance a delta s) b = true.
Proof.
  intros Hcase. unfold account_exists, delta_balance, set_balance.
  rewrite lookup_put_account. destruct (decide (a = b)) as [_|Hne].
  - apply bool_decide_eq_true. eauto.
  - destruct Hcase as [?|Hexists]; [contradiction|exact Hexists].
Qed.

Lemma account_exists_credit_all credits s a :
  a ∈ credits.*1 ∨ account_exists s a = true →
  account_exists (credit_all credits s) a = true.
Proof.
  revert s. induction credits as [|[b amount] credits IH]; intros s Hcase.
  - destruct Hcase as [Hin|Hexists]; [inversion Hin|exact Hexists].
  - change (credit_all ((b, amount) :: credits) s)
      with (credit_all credits (delta_balance b amount s)).
    apply IH. destruct Hcase as [Hin|Hexists].
    + simpl in Hin. apply elem_of_cons in Hin as [->|Hin]; [right|now left].
      apply account_exists_delta_balance. now left.
    + right. apply account_exists_delta_balance. now right.
Qed.

Lemma frame_credit_all credits s :
  checkpoints (credit_all credits s) = checkpoints s
  ∧ execution_context (credit_all credits s) = execution_context s
  ∧ warm_addresses (world (credit_all credits s)) = warm_addresses (world s)
  ∧ warm_slots (world (credit_all credits s)) = warm_slots (world s).
Proof.
  revert s. induction credits as [|[b amount] credits IH]; intros s.
  - repeat split.
  - change (credit_all ((b, amount) :: credits) s)
      with (credit_all credits (delta_balance b amount s)).
    destruct (IH (delta_balance b amount s)) as (-> & -> & -> & ->). repeat split.
Qed.

Lemma withdrawal_credits_addresses withdrawals :
  (withdrawal_credits withdrawals).*1 = wd_address <$> withdrawals.
Proof.
  unfold withdrawal_credits. rewrite <- list_fmap_compose. reflexivity.
Qed.

Section Withdrawals.
Variable validate_withdrawal : Withdrawal → Outcome unit.

(** The first loop of [apply_all_withdrawals] over withdrawals that pass
    their validation. *)
Lemma apply_withdrawals_loop_valid (valid rest : list Withdrawal) touched s :
  Forall (λ withdrawal, validate_withdrawal withdrawal = Returned tt) valid →
  ∃ touched',
    (∀ a, a ∈ touched' ↔ a ∈ touched ∨ a ∈ wd_address <$> valid)
    ∧ VM.apply_withdrawals_loop validate_withdrawal (valid ++ rest) touched s
      = VM.apply_withdrawals_loop validate_withdrawal rest touched'
          (credit_all (withdrawal_credits valid) s).
Proof.
  intros Hvalid. revert touched s.
  induction Hvalid as [|withdrawal valid Hfirst _ IH]; intros touched s.
  - exists touched. split; [|reflexivity]. intros a. simpl. split; [auto|].
    intros [?|Hin]; [assumption|inversion Hin].
  - simpl app. simpl VM.apply_withdrawals_loop.
    erewrite bind_returned by (unfold lift; rewrite Hfirst; reflexivity).
    unfold VM.apply_withdrawal, VM.state_apply_withdrawal. rewrite bind_modify.
    match goal with
    | |- context [VM.apply_withdrawals_loop _ (valid ++ rest) ?t ?s1] =>
        destruct (IH t s1) as (touched' & Htouched & Hrun)
    end.
    exists touched'. split; [|exact Hrun].
    intros a. rewrite Htouched. rewrite fmap_cons, elem_of_cons.
    destruct (bool_decide_reflect (wd_address withdrawal ∈ touched)) as [Hin|Hnew].
    + split; [tauto|]. intros [?|[->|?]]; auto.
    + rewrite elem_of_app, list_elem_of_singleton. tauto.
Qed.


End Withdrawals.



(** ** Block rewards *)



(** ** Ancestor hashes *)

Lemma walk_prev_hashes_lookup chaindb depth block_header (i : nat) :
  VM.walk_prev_hashes chaindb depth block_header !! i
  = if decide (i < depth)%nat
    then bh_hash <$> nth_ancestor chaindb i block_header
    else None.
Proof.
  revert block_header i. induction depth as [|depth IH]; intros block_header i.
  - cbn [VM.walk_prev_hashes]. rewrite lookup_nil. now destruct (decide (i < 0)%nat).
  - destruct i as [|i].
    + cbn [VM.walk_prev_hashes nth_ancestor].
      destruct (decide (0 < S depth)%nat); [reflexivity|lia].
    + cbn [VM.walk_prev_hashes nth_ancestor]. rewrite lookup_cons.
      destruct (chaindb !! bh_parent_hash block_header) as [parent|].
      * rewrite IH. destruct (decide (i < depth)%nat), (decide (S i < S depth)%nat);
          try reflexivity; lia.
      * rewrite lookup_nil. now destruct (decide (S i < S depth)%nat).
Qed.

Lemma length_walk_prev_hashes chaindb depth block_header :
  (length (VM.walk_prev_hashes chaindb depth block_header) ≤ depth)%nat.
Proof.
  revert block_header. induction depth as [|depth IH]; intros block_header; simpl.
  - lia.
  - destruct (chaindb !! bh_parent_hash block_header) as [parent|]; simpl.
    + specialize (IH parent). lia.
    + lia.
Qed.

(** X14. [get_prev_hashes] yields nothing for the genesis parent hash and
    fails when the header of the hash it starts from is not found.
    Otherwise it yields between 1 and 256 hashes, the first one the hash of
    that header and the one at position [i] the hash of its ancestor [i]
    generations up; the walk ends without an error at the first ancestor
    that is not found. *)
Theorem get_prev_hashes_walks_the_ancestors
    (GENESIS_PARENT_HASH last_block_hash : bytes) (chaindb : gmap bytes BlockHeader) :
  VM.get_prev_hashes GENESIS_PARENT_HASH GENESIS_PARENT_HASH chaindb = Some []
  ∧ (last_block_hash ≠ GENESIS_PARENT_HASH →
     chaindb !! last_block_hash = None →
     VM.get_prev_hashes GENESIS_PARENT_HASH last_block_hash chaindb = None)
  ∧ (∀ block_header,
       last_block_hash ≠ GENESIS_PARENT_HASH →
       chaindb !! last_block_hash = Some block_header →
       ∃ hashes,
         VM.get_prev_hashes GENESIS_PARENT_HASH last_block_hash chaindb = Some hashes
         ∧ (1 ≤ length hashes ≤ 256)%nat
         ∧ hashes !! 0%nat = Some (bh_hash block_header)
         ∧ (∀ i : nat, (i < 256)%nat →
              hashes !! i = bh_hash <$> nth_ancestor chaindb i block_header)
         ∧ (∀ i : nat, nth_ancestor chaindb i block_header = None →
              (length hashes ≤ i)%nat)).
Proof.
  unfold VM.get_prev_hashes. split; [|split].
  - now rewrite bool_decide_eq_true_2.
  - intros Hne Hnone. now rewrite bool_decide_eq_false_2, Hnone.
  - intros block_header Hne Hfound.
    rewrite bool_decide_eq_false_2, Hfound by assumption.
    eexists. split; [reflexivity|].
    assert (Hlookup : ∀ i : nat, (i < 256)%nat →
              VM.walk_prev_hashes chaindb VM.MAX_PREV_HEADER_DEPTH block_header !! i
              = bh_hash <$> nth_ancestor chaindb i block_header).
    { intros i Hi. rewrite walk_prev_hashes_lookup.
      unfold VM.MAX_PREV_HEADER_DEPTH. now rewrite decide_True. }
    split; [split|split; [|split]].
    + apply lookup_lt_is_Some. rewrite Hlookup by lia. simpl. eauto.
    + apply (length_walk_prev_hashes chaindb 256).
    + now rewrite Hlookup by lia.
    + exact Hlookup.
    + intros i Hnone.
      destruct (decide (i < 256)%nat) as [Hi|Hi].
      * apply lookup_ge_None. rewrite Hlookup, Hnone by assumption. reflexivity.
      * pose proof (length_walk_prev_hashes chaindb 256 block_header).
        unfold VM.MAX_PREV_HEADER_DEPTH. lia.
Qed.

Lemma get_prev_hashes_walks_the_ancestors_witness :
  ∃ hashes,
    VM.get_prev_hashes [] [x02%byte] sample_chaindb = Some hashes
    ∧ hashes !! 0%nat = Some [x02%byte]
    ∧ hashes !! 1%nat = Some [x01%byte]
    ∧ (length hashes ≤ 2)%nat.
Proof.
  destruct (proj2 (proj2 (get_prev_hashes_walks_the_ancestors [] [x02%byte]
                            sample_chaindb))
              (hashed_header [x02%byte] [x01%byte] 2))
    as (hashes & Hrun & _ & Hfirst & Hlookup & Hend);
    [discriminate|vm_compute; reflexivity|].
  exists hashes. split; [exact Hrun|]. split; [exact Hfirst|]. split.
  - rewrite (Hlookup 1%nat) by lia. vm_compute. reflexivity.
  - apply Hend. vm_compute. reflexivity.
Defined.

(** ** Checks of headers *)

Section HeaderChecks.
Variable validate_gas_limit : Z → Z → Outcome unit.

(** X15. [validate_header] refuses a header without a parent with
    [ValidationError].  With a parent it accepts the header exactly when
    the extra data has at most 32 bytes, the gas limit passes
    [validate_gas_limit] next to the parent's, the block number is the
    parent's plus one and the timestamp is later than the parent's; an
    extra data that is too long is refused before the gas limit is looked
    at, and what the check of the gas limit raises comes through. *)
Theorem validate_header_decides (header : BlockHeader) :
  VM.validate_header validate_gas_limit header None = Raised ValidationError
  ∧ ∀ parent_header,
      (VM.validate_header validate_gas_limit header (Some parent_header) = Returned tt
       ↔ header_follows validate_gas_limit header parent_header)
      ∧ ((32 < length (bh_extra_data header))%nat →
         VM.validate_header validate_gas_limit header (Some parent_header)
         = Raised ValidationError)
      ∧ (∀ e, (length (bh_extra_data header) ≤ 32)%nat →
              validate_gas_limit (bh_gas_limit header) (bh_gas_limit parent_header)
              = Raised e →
              VM.validate_header validate_gas_limit header (Some parent_header)
              = Raised e).
Proof.
  split; [reflexivity|]. intros parent_header.
  unfold VM.validate_header, VM.validate_length_lte, VM.extra_data_max_bytes,
    VM.validate_gas, header_follows.
  destruct (Z.gtb_spec (Z.of_nat (length (bh_extra_data header))) 32) as [Hlong|Hshort].
  { split; [|split].
    - split; [discriminate|]. intros [? _]. lia.
    - reflexivity.
    - intros e ?. lia. }
  destruct (validate_gas_limit (bh_gas_limit header) (bh_gas_limit parent_header))
    as [[]|e] eqn:Hgas.
  2: { split; [|split].
       - split; [discriminate|]. intros (_ & ? & _). discriminate.
       - intros ?. lia.
       - intros e' _ [= ->]. reflexivity. }
  destruct (Z.eqb_spec (bh_block_number header) (bh_block_number parent_header + 1))
    as [Hnumber|Hnumber]; simpl.
  2: { split; [|split].
       - split; [discriminate|]. intros (_ & _ & ? & _). contradiction.
       - intros ?. lia.
       - discriminate. }
  destruct (Z.leb_spec (bh_timestamp header) (bh_timestamp parent_header)).
  - split; [|split].
    + split; [discriminate|]. intros (_ & _ & _ & ?). lia.
    + intros ?. lia.
    + discriminate.
  - split; [|split].
    + split; [intros _|reflexivity]. repeat split; (lia || assumption).
    + intros ?. lia.
    + discriminate.
Qed.

(** X16. [validate_uncle] accepts an uncle exactly when it is below the
    block, one above its parent, later than its parent, uses no more gas
    than its limit, and its gas limit passes [validate_gas_limit] next to
    its parent's, which is doubled when the parent carries no base fee and
    the uncle does.  An accepted uncle's parent is at least two below the
    block.  The four checks of the uncle's own refuse with
    [ValidationError]. *)
Theorem validate_uncle_decides (block : Block) (uncle uncle_parent : BlockHeader) :
  (VM.validate_uncle validate_gas_limit block uncle uncle_parent = Returned tt
   ↔ uncle_follows validate_gas_limit block uncle uncle_parent)
  ∧ (VM.validate_uncle validate_gas_limit block uncle uncle_parent = Returned tt →
     bh_block_number uncle_parent + 2 ≤ block_number_of block)
  ∧ (¬ (bh_block_number uncle < block_number_of block
        ∧ bh_block_number uncle = bh_block_number uncle_parent + 1
        ∧ bh_timestamp uncle_parent < bh_timestamp uncle
        ∧ bh_gas_used uncle ≤ bh_gas_limit uncle) →
     VM.validate_uncle validate_gas_limit block uncle uncle_parent
     = Raised ValidationError).
Proof.
  assert (Hlimit :
    (if negb (bool_decide (is_Some (bh_base_fee_per_gas uncle_parent)))
        && bool_decide (is_Some (bh_base_fee_per_gas uncle))
     then bh_gas_limit uncle_parent * 2
     else bh_gas_limit uncle_parent)
    = uncle_parent_gas_limit uncle uncle_parent).
  { unfold uncle_parent_gas_limit.
    destruct (bh_base_fee_per_gas uncle_parent), (bh_base_fee_per_gas uncle);
      reflexivity. }
  unfold VM.validate_uncle, uncle_follows. cbv zeta. rewrite Hlimit.
  destruct (Z.geb_spec (bh_block_number uncle) (block_number_of block)).
  { split; [split; [discriminate|lia]|split; [discriminate|reflexivity]]. }
  destruct (Z.eqb_spec (bh_block_number uncle) (bh_block_number uncle_parent + 1));
    simpl.
  2: { split; [split; [discriminate|tauto]|split; [discriminate|reflexivity]]. }
  destruct (Z.leb_spec (bh_timestamp uncle) (bh_timestamp uncle_parent)).
  { split; [split; [discriminate|lia]|split; [discriminate|reflexivity]]. }
  destruct (Z.gtb_spec (bh_gas_used uncle) (bh_gas_limit uncle)).
  { split; [split; [discriminate|lia]|split; [discriminate|reflexivity]]. }
  split; [|split].
  - split; [intros Hgas|tauto]. repeat split; (lia || assumption).
  - intros _. lia.
  - intros Hnot. exfalso. apply Hnot. repeat split; (lia || assumption).
Qed.
End HeaderChecks.

Lemma validate_header_decides_witness :
  VM.validate_header sample_validate_gas_limit (hashed_header [x02%byte] [x01%byte] 2)
    (Some (hashed_header [x01%byte] [] 1)) = Returned tt.
Proof.
  apply (proj2 (validate_header_decides sample_validate_gas_limit
                  (hashed_header [x02%byte] [x01%byte] 2))
           (hashed_header [x01%byte] [] 1)).
  unfold header_follows. simpl. repeat split; lia.
Defined.

Lemma validate_uncle_decides_witness :
  VM.validate_uncle sample_validate_gas_limit sample_block london_uncle
    london_uncle_parent = Returned tt
  ∧ uncle_parent_gas_limit london_uncle london_uncle_parent = 60000.
Proof.
  split; [|reflexivity].
  apply (proj1 (validate_uncle_decides sample_validate_gas_limit sample_block
                  london_uncle london_uncle_parent)).
  unfold uncle_follows. simpl. repeat split; lia.
Defined.

(** ** Applying the transactions of a block *)

Section Transactions.
Variable validate_transaction_against_header : BlockHeader → Transaction → Outcome unit.
Variable lock_changes : State → State.
Variable state_apply_transaction : Transaction → Exec State Computation.
Variable make_receipt : BlockHeader → Transaction → Computation → State → Receipt.
Variable add_receipt_to_header : BlockHeader → Receipt → BlockHeader.
Variable transaction_applied_hook :
  nat → list Transaction → Header → BlockHeader → Computation → Receipt → Exec State unit.
Variable keccak : bytes → bytes.

(** X17. [apply_transaction] checks the transaction against the header
    before it touches the state: a transaction the check refuses leaves the
    state as it was, changes not locked, and the exception comes through;
    with Frontier's check that is every transaction that would bring the gas
    used above the gas limit of the header.  Once the check has passed, the
    changes are locked and the transaction runs; what it raises comes
    through, and when the receipt made of its result is refused the
    exception of the refusal comes through with the state the transaction
    left, which is not undone. *)
Theorem apply_transaction_checks_the_header_first
    (header : BlockHeader) (transaction : Transaction) (s : State) :
  (∀ e, validate_transaction_against_header header transaction = Raised e →
        VM.apply_transaction validate_transaction_against_header lock_changes
          state_apply_transaction make_receipt keccak header transaction s
        = (s, Raised e))
  ∧ (bh_gas_limit header < bh_gas_used header + tx_gas transaction →
     VM.apply_transaction FrontierValidation.validate_frontier_transaction_against_header
       lock_changes state_apply_transaction make_receipt keccak header transaction s
     = (s, Raised ValidationError))
  ∧ (validate_transaction_against_header header transaction = Returned tt →
     ∀ s2 e, state_apply_transaction transaction (lock_changes s) = (s2, Raised e) →
       VM.apply_transaction validate_transaction_against_header lock_changes
         state_apply_transaction make_receipt keccak header transaction s
       = (s2, Raised e))
  ∧ (validate_transaction_against_header header transaction = Returned tt →
     ∀ s2 computation,
       state_apply_transaction transaction (lock_changes s) = (s2, Returned computation) →
       VM.apply_transaction validate_transaction_against_header lock_changes
         state_apply_transaction make_receipt keccak header transaction s
       = (s2,
          match VM.validate_receipt keccak
                  (make_receipt header transaction computation s2) with
          | Returned _ =>
              Returned (make_receipt header transaction computation s2, computation)
          | Raised e => Raised e
          end)).
Proof.
  unfold VM.apply_transaction. split; [|split; [|split]].
  - intros e Hrefused.
    erewrite bind_raised by (unfold lift; rewrite Hrefused; reflexivity). reflexivity.
  - intros Hfull.
    erewrite bind_raised; [reflexivity|].
    unfold lift, FrontierValidation.validate_frontier_transaction_against_header.
    destruct (Z.gtb_spec (bh_gas_used header + tx_gas transaction) (bh_gas_limit header));
      [reflexivity|lia].
  - intros Hpassed s2 e Hrun.
    erewrite bind_returned by (unfold lift; rewrite Hpassed; reflexivity).
    rewrite bind_modify. erewrite bind_raised by exact Hrun. reflexivity.
  - intros Hpassed s2 computation Hrun.
    erewrite bind_returned by (unfold lift; rewrite Hpassed; reflexivity).
    rewrite bind_modify. erewrite bind_returned by exact Hrun.
    rewrite bind_gets. unfold bind, lift, ret.
    now destruct (VM.validate_receipt keccak
                    (make_receipt header transaction computation s2)) as [[]|e].
Qed.

(** The lists the loop of [apply_all_transactions] returns grow by one
    entry for each transaction that is left. *)
Lemma apply_transactions_loop_lengths transactions vm_header remaining :
  ∀ transaction_index previous_header result_header receipts computations s s'
    final_header final_receipts final_computations,
    VM.apply_transactions_loop validate_transaction_against_header lock_changes
      state_apply_transaction make_receipt add_receipt_to_header
      transaction_applied_hook keccak transactions vm_header transaction_index
      remaining previous_header result_header receipts computations s
    = (s', Returned (final_header, final_receipts, final_computations)) →
    length final_receipts = (length receipts + length remaining)%nat
    ∧ length final_computations = (length computations + length remaining)%nat.
Proof.
  induction remaining as [|transaction rest IH];
    intros transaction_index previous_header result_header receipts computations s s'
      final_header final_receipts final_computations Hrun.
  - simpl in Hrun. injection Hrun as _ _ <- <-. simpl. lia.
  - simpl VM.apply_transactions_loop in Hrun.
    erewrite bind_returned in Hrun by reflexivity.
    unfold bind at 1 in Hrun.
    match type of Hrun with
    | context [VM.apply_transaction ?v ?l ?a ?m ?k ?h ?t ?s1] =>
        destruct (VM.apply_transaction v l a m k h t s1)
          as [s2 [[receipt computation]|e]]
    end.
    2: { destruct e; try discriminate Hrun.
         unfold bind in Hrun.
         destruct (revert (length (checkpoints s)) s2) as [s3 [[]|e']];
           discriminate Hrun. }
    unfold bind at 1 in Hrun.
    destruct (transaction_applied_hook transaction_index transactions vm_header
                (add_receipt_to_header previous_header receipt) computation receipt s2)
      as [s3 [[]|e]]; [|discriminate Hrun].
    apply IH in Hrun. rewrite !length_app in Hrun. simpl in *. lia.
Qed.

(** X18. [apply_all_transactions] refuses to work on a header of another
    block than the VM's: it raises [ValidationError] before any transaction
    is looked at and leaves the state as it was.  On the VM's block, with no
    transaction it returns the base header and no receipt; whenever it
    returns, it returns one receipt and one computation for each
    transaction. *)
Theorem apply_all_transactions_results
    (vm : VirtualMachine) (transactions : list Transaction) (base_header : BlockHeader)
    (s : State) :
  (bh_block_number base_header ≠ header_block_number (vm_header vm) →
   VM.apply_all_transactions validate_transaction_against_header lock_changes
     state_apply_transaction make_receipt add_receipt_to_header
     transaction_applied_hook keccak vm transactions base_header s
   = (s, Raised ValidationError))
  ∧ (bh_block_number base_header = header_block_number (vm_header vm) →
     VM.apply_all_transactions validate_transaction_against_header lock_changes
       state_apply_transaction make_receipt add_receipt_to_header
       transaction_applied_hook keccak vm [] base_header s
     = (s, Returned (base_header, [], [])))
  ∧ (∀ s' result_header receipts computations,
       VM.apply_all_transactions validate_transaction_against_header lock_changes
         state_apply_transaction make_receipt add_receipt_to_header
         transaction_applied_hook keccak vm transactions base_header s
       = (s', Returned (result_header, receipts, computations)) →
       length receipts = length transactions
       ∧ length computations = length transactions).
Proof.
  unfold VM.apply_all_transactions. split; [|split].
  - intros Hother.
    destruct (Z.eqb_spec (bh_block_number base_header)
                (header_block_number (vm_header vm))); [contradiction|reflexivity].
  - intros ->. now rewrite Z.eqb_refl.
  - intros s' result_header receipts computations Hrun.
    destruct (bh_block_number base_header =? header_block_number (vm_header vm));
      [|discriminate Hrun].
    simpl in Hrun. now apply apply_transactions_loop_lengths in Hrun.
Qed.

(** A token is stale once no more checkpoints are open than when it was
    handed out: [revert] then raises and changes nothing. *)
Lemma revert_stale token s :
  (length (checkpoints s) ≤ token)%nat → revert token s = (s, Raised ValidationError).
Proof.
  intros Hstale. unfold revert.
  destruct (checkpoints s !! (length (checkpoints s) - 1 - token)%nat); [|reflexivity].
  now rewrite bool_decide_eq_false_2 by lia.
Qed.

(** One round of the loop of [apply_all_transactions] whose transaction
    raises. *)
Lemma apply_transactions_loop_raised transactions rest vm_header transaction_index
    transaction previous_header result_header receipts computations s s2 e :
  VM.apply_transaction validate_transaction_against_header lock_changes
    state_apply_transaction make_receipt keccak previous_header transaction
    (fst (snapshot s)) = (s2, Raised e) →
  VM.apply_transactions_loop validate_transaction_against_header lock_changes
    state_apply_transaction make_receipt add_receipt_to_header
    transaction_applied_hook keccak transactions vm_header transaction_index
    (transaction :: rest) previous_header result_header receipts computations s
  = if decide (e = EVMMissingData)
    then match revert (length (checkpoints s)) s2 with
         | (s3, Returned _) => (s3, Raised EVMMissingData)
         | (s3, Raised e') => (s3, Raised e')
         end
    else (s2, Raised e).
Proof.
  intros Hrun.
  change (fst (snapshot s))
    with (mkState (world s) (world s :: checkpoints s) (execution_context s)) in Hrun.
  simpl VM.apply_transactions_loop.
  erewrite bind_returned by reflexivity.
  destruct (decide (e = EVMMissingData)) as [->|Hother].
  - destruct (revert (length (checkpoints s)) s2) as [s3 [[]|e']] eqn:Hrevert.
    + erewrite bind_raised; [reflexivity|].
      rewrite Hrun. unfold bind, raise. now rewrite Hrevert.
    + erewrite bind_raised; [reflexivity|].
      rewrite Hrun. unfold bind, raise. now rewrite Hrevert.
  - erewrite bind_raised; [reflexivity|].
    rewrite Hrun. destruct e; try reflexivity. contradiction.
Qed.

(** X19. The loop of [apply_all_transactions] opens a snapshot before each
    transaction, but [apply_transaction] locks the changes before the
    transaction runs.  With a [lock_changes] that closes the open
    checkpoints, a transaction that raises [EVMMissingData] and leaves the
    checkpoints as it found them is not undone: the [revert] of the
    [except] branch finds the token of the snapshot stale and raises
    [ValidationError] in place of [EVMMissingData], and the state stays as
    the transaction left it.  Any other exception of the transaction comes
    through with the state as the transaction left it, and what the check
    against the header raises comes through with nothing changed but the
    snapshot, which stays open.  In every case the transactions that follow
    are not applied. *)
Theorem apply_all_transactions_reverts_on_missing_data
    (transactions rest : list Transaction) (vm_header : Header)
    (transaction_index : nat) (transaction : Transaction)
    (previous_header result_header : BlockHeader)
    (receipts : list Receipt) (computations : list Computation) (s : State) :
  let round :=
    VM.apply_transactions_loop validate_transaction_against_header lock_changes
      state_apply_transaction make_receipt add_receipt_to_header
      transaction_applied_hook keccak transactions vm_header transaction_index
      (transaction :: rest) previous_header result_header receipts computations s in
  (validate_transaction_against_header previous_header transaction = Returned tt →
   checkpoints (lock_changes (fst (snapshot s))) = [] →
   ∀ s2 e,
     state_apply_transaction transaction (lock_changes (fst (snapshot s)))
     = (s2, Raised e) →
     (e = EVMMissingData →
      checkpoints s2 = checkpoints (lock_changes (fst (snapshot s))) →
      round = (s2, Raised ValidationError))
     ∧ (e ≠ EVMMissingData → round = (s2, Raised e)))
  ∧ (∀ e, validate_transaction_against_header previous_header transaction = Raised e →
          e ≠ EVMMissingData →
          round = (fst (snapshot s), Raised e)).
Proof.
  intros round. split.
  - intros Hpassed Hlock s2 e Hbody.
    assert (Hrun : VM.apply_transaction validate_transaction_against_header lock_changes
                     state_apply_transaction make_receipt keccak previous_header
                     transaction (fst (snapshot s)) = (s2, Raised e)).
    { unfold VM.apply_transaction.
      erewrite bind_returned by (unfold lift; rewrite Hpassed; reflexivity).
      rewrite bind_modify. erewrite bind_raised by exact Hbody. reflexivity. }
    unfold round. rewrite (apply_transactions_loop_raised _ _ _ _ _ _ _ _ _ _ _ _ Hrun).
    split.
    + intros -> Hkept. rewrite decide_True by reflexivity.
      rewrite revert_stale; [reflexivity|]. rewrite Hkept, Hlock. simpl. lia.
    + intros Hother. now rewrite decide_False.
  - intros e Hrefused Hother.
    assert (Hrun : VM.apply_transaction validate_transaction_against_header lock_changes
                     state_apply_transaction make_receipt keccak previous_header
                     transaction (fst (snapshot s))
                   = (fst (snapshot s), Raised e)).
    { unfold VM.apply_transaction.
      erewrite bind_raised by (unfold lift; rewrite Hrefused; reflexivity).
      reflexivity. }
    unfold round. rewrite (apply_transactions_loop_raised _ _ _ _ _ _ _ _ _ _ _ _ Hrun).
    now rewrite decide_False.
Qed.
End Transactions.

Lemma apply_transaction_checks_the_header_first_witness :
  VM.apply_transaction FrontierValidation.validate_frontier_transaction_against_header
    sample_lock_changes returning_transaction_body sample_make_receipt sample_keccak
    (sample_block_header miner 10) finished_transaction funded_state
  = (funded_state, Raised ValidationError).
Proof.
  apply (proj1 (proj2 (apply_transaction_checks_the_header_first
                         FrontierValidation.validate_frontier_transaction_against_header
                         sample_lock_changes returning_transaction_body
                         sample_make_receipt sample_keccak
                         (sample_block_header miner 10) finished_transaction
                         funded_state))).
  simpl. lia.
Defined.

Lemma apply_all_transactions_results_witness :
  VM.apply_all_transactions FrontierValidation.validate_frontier_transaction_against_header
    sample_lock_changes returning_transaction_body sample_make_receipt
    sample_add_receipt_to_header sample_transaction_applied_hook sample_keccak
    sample_vm [london_transaction] (sample_block_header miner 9) funded_state
  = (funded_state, Raised ValidationError).
Proof.
  apply (apply_all_transactions_results
           FrontierValidation.validate_frontier_transaction_against_header
           sample_lock_changes returning_transaction_body sample_make_receipt
           sample_add_receipt_to_header sample_transaction_applied_hook sample_keccak
           sample_vm [london_transaction] (sample_block_header miner 9) funded_state).
  vm_compute. discriminate.
Defined.

Lemma apply_all_transactions_reverts_on_missing_data_witness :
  VM.apply_transactions_loop
    FrontierValidation.validate_frontier_transaction_against_header
    sample_lock_changes missing_data_body sample_make_receipt
    sample_add_receipt_to_header sample_transaction_applied_hook sample_keccak
    [london_transaction] (vm_header sample_vm) 0 [london_transaction]
    (sample_block_header miner 10) (sample_block_header miner 10) [] []
    funded_state
  = (set_balance alice 0 (sample_lock_changes (fst (snapshot funded_state))),
     Raised ValidationError)
  ∧ get_balance funded_state alice = 1000
  ∧ get_balance (set_balance alice 0 (sample_lock_changes (fst (snapshot funded_state))))
      alice = 0.
Proof.
  split; [|split; vm_compute; reflexivity].
  apply (proj1 (apply_all_transactions_reverts_on_missing_data
                  FrontierValidation.validate_frontier_transaction_against_header
                  sample_lock_changes missing_data_body sample_make_receipt
                  sample_add_receipt_to_header sample_transaction_applied_hook
                  sample_keccak [london_transaction] [] (vm_header sample_vm) 0
                  london_transaction (sample_block_header miner 10)
                  (sample_block_header miner 10) [] [] funded_state)
           eq_refl eq_refl
           (set_balance alice 0 (sample_lock_changes (fst (snapshot funded_state))))
           EVMMissingData eq_refl).
  - reflexivity.
  - reflexivity.
Defined.

(** ** Guards of the top-level computation *)

Lemma has_code_or_nonce_local s1 s2 a :
  accounts (world s1) !! a = accounts (world s2) !! a →
  has_code_or_nonce s1 a = has_code_or_nonce s2 a.
Proof.
  intros Hlookup. unfold has_code_or_nonce, get_nonce, get_code.
  now rewrite (get_account_local s1 s2 a Hlookup).
Qed.

Lemma mark_transaction_warm_keeps_accounts message transaction s :
  ∃ s_warm,
    BerlinTransactionExecutor.mark_transaction_warm message transaction s
    = (s_warm, Returned tt)
    ∧ accounts (world s_warm) = accounts (world s)
    ∧ checkpoints s_warm = checkpoints s.
Proof.
  destruct (mark_access_list_warm (tx_access_list transaction)
              (mark_address_warm (msg_storage_address message)
                 (mark_address_warm (tx_sender transaction) s)))
    as (s_warm & Hrun & Haccounts & _ & _ & Hcps & _).
  exists s_warm. split; [|split; [exact Haccounts|exact Hcps]].
  unfold BerlinTransactionExecutor.mark_transaction_warm.
  rewrite !bind_modify. exact Hrun.
Qed.

Section TopLevelComputation.
Context {vm_state : StateAPI.t} {computation_class : ComputationAPI.t}.

(** X20. A create message whose target already has code or a nonce runs
    nothing: [build_computation] returns a fresh frame with the error
    [ContractCreationCollision] and leaves the state as it was, whatever the
    computation class is; in Berlin the accounts are as they were and only
    the access sets have grown.  A create message without a collision goes
    to [apply_create_message] and any other message to [apply_message]; when
    the state builds no transaction context, its exception comes through. *)
Theorem create_collision_runs_nothing
    (message : Message) (transaction : Transaction) (s : State) :
  (∀ ctx, StateAPI.get_transaction_context s transaction = Returned ctx →
     (msg_is_create message = true →
      has_code_or_nonce s (msg_storage_address message) = true →
      FrontierTransactionExecutor.build_computation message transaction s
      = (s, Returned (set_error ContractCreationCollision
                        (get_computation message ctx)))
      ∧ is_error (set_error ContractCreationCollision (get_computation message ctx))
        = true)
     ∧ (msg_is_create message = true →
        has_code_or_nonce s (msg_storage_address message) = false →
        FrontierTransactionExecutor.build_computation message transaction s
        = ComputationAPI.apply_create_message message ctx s)
     ∧ (msg_is_create message = false →
        FrontierTransactionExecutor.build_computation message transaction s
        = ComputationAPI.apply_message message ctx s))
  ∧ (∀ e, StateAPI.get_transaction_context s transaction = Raised e →
       FrontierTransactionExecutor.build_computation message transaction s
       = (s, Raised e))
  ∧ (∀ ctx,
       let s_warm :=
         fst (BerlinTransactionExecutor.mark_transaction_warm message transaction s) in
       StateAPI.get_transaction_context s_warm transaction = Returned ctx →
       msg_is_create message = true →
       has_code_or_nonce s (msg_storage_address message) = true →
       BerlinTransactionExecutor.build_computation message transaction s
       = (s_warm, Returned (set_error ContractCreationCollision
                              (get_computation message ctx)))
       ∧ accounts (world s_warm) = accounts (world s)).
Proof.
  assert (Hfrontier : ∀ s0 ctx,
    StateAPI.get_transaction_context s0 transaction = Returned ctx →
    msg_is_create message = true →
    has_code_or_nonce s0 (msg_storage_address message) = true →
    FrontierTransactionExecutor.build_computation message transaction s0
    = (s0, Returned (set_error ContractCreationCollision
                       (get_computation message ctx)))).
  { intros s0 ctx Hctx Hcreate Hcollision.
    unfold FrontierTransactionExecutor.build_computation.
    erewrite bind_returned by (rewrite Hctx; reflexivity).
    rewrite Hcreate, bind_gets, Hcollision. reflexivity. }
  split; [|split].
  - intros ctx Hctx. split; [|split].
    + intros Hcreate Hcollision. split; [now apply Hfrontier|reflexivity].
    + intros Hcreate Hfree.
      unfold FrontierTransactionExecutor.build_computation.
      erewrite bind_returned by (rewrite Hctx; reflexivity).
      rewrite Hcreate, bind_gets, Hfree. reflexivity.
    + intros Hcall.
      unfold FrontierTransactionExecutor.build_computation.
      erewrite bind_returned by (rewrite Hctx; reflexivity).
      rewrite Hcall. reflexivity.
  - intros e Hraised.
    unfold FrontierTransactionExecutor.build_computation.
    erewrite bind_raised by (rewrite Hraised; reflexivity). reflexivity.
  - intros ctx s_warm Hctx Hcreate Hcollision.
    destruct (mark_transaction_warm_keeps_accounts message transaction s)
      as (s1 & Hmark & Haccounts & _).
    assert (Hwarm : s_warm = s1) by (unfold s_warm; now rewrite Hmark).
    rewrite Hwarm in *. split; [|exact Haccounts].
    unfold BerlinTransactionExecutor.build_computation.
    erewrite bind_returned by exact Hmark.
    apply Hfrontier; [exact Hctx|exact Hcreate|].
    rewrite <- Hcollision. apply has_code_or_nonce_local. now rewrite Haccounts.
Qed.
End TopLevelComputation.

Lemma create_collision_runs_nothing_witness :
  @FrontierTransactionExecutor.build_computation BaseState sample_computation_class
    (create_message 50000 []) london_transaction occupied_state
  = (occupied_state,
     Returned (set_error ContractCreationCollision
                 (get_computation (create_message 50000 [])
                    (mkTransactionContext 100 alice)))).
Proof.
  apply (proj1 (create_collision_runs_nothing (vm_state := BaseState)
                  (computation_class := sample_computation_class)
                  (create_message 50000 []) london_transaction occupied_state)
           (mkTransactionContext 100 alice)).
  - reflexivity.
  - reflexivity.
  - vm_compute. reflexivity.
Defined.

Section MessageGuards.
Variable apply_computation : Message → TransactionContext → Exec State Computation.

(** X21. A message that transfers a value its sender does not have makes
    [apply_message] raise [InsufficientFunds] right after the snapshot: no
    balance has changed, no frame is run, and the snapshot is left open; a
    create message fails the same way.  A message that transfers no value
    passes this guard whatever the balance is. *)
Theorem apply_message_insufficient_funds
    (message : Message) (ctx : TransactionContext) (s : State) :
  msg_depth message ≤ STACK_DEPTH_LIMIT →
  (msg_should_transfer_value message = true →
   msg_value message ≠ 0 →
   get_balance s (msg_sender message) < msg_value message →
   FrontierComputation.apply_message apply_computation message ctx s
   = (fst (snapshot s), Raised InsufficientFunds)
   ∧ (∀ GAS_CODEDEPOSIT,
        FrontierComputation.apply_create_message apply_computation GAS_CODEDEPOSIT
          message ctx s
        = (fst (snapshot s), Raised InsufficientFunds))
   ∧ world (fst (snapshot s)) = world s
   ∧ checkpoints (fst (snapshot s)) = world s :: checkpoints s)
  ∧ (msg_should_transfer_value message = false ∨ msg_value message = 0 →
     FrontierComputation.apply_message apply_computation message ctx s
     = bind (apply_computation message ctx)
         (λ computation,
            (if is_error computation
             then revert (length (checkpoints s))
             else commit (length (checkpoints s))) ;;;
            ret computation)
         (touch_account (msg_storage_address message) (fst (snapshot s)))).
Proof.
  intros Hdepth. split.
  - intros Htransfer Hvalue Hshort.
    assert (Hrun : FrontierComputation.apply_message apply_computation message ctx s
                   = (fst (snapshot s), Raised InsufficientFunds)).
    { unfold FrontierComputation.apply_message.
      erewrite bind_returned by reflexivity.
      destruct (Z.gtb_spec (msg_depth message) STACK_DEPTH_LIMIT) as [?|_]; [lia|].
      rewrite Htransfer. destruct (Z.eqb_spec (msg_value message) 0) as [?|_];
        [contradiction|].
      simpl andb. cbv iota. unfold bind at 1 2, gets.
      match goal with
      | |- context [?balance <? msg_value message] =>
          change balance with (get_balance s (msg_sender message))
      end.
      destruct (Z.ltb_spec (get_balance s (msg_sender message)) (msg_value message));
        [reflexivity|lia]. }
    split; [exact Hrun|]. split; [|split; reflexivity].
    intros GAS_CODEDEPOSIT. unfold FrontierComputation.apply_create_message.
    erewrite bind_raised by exact Hrun. reflexivity.
  - intros Hnone.
    rewrite apply_message_past_guards; [|exact Hdepth|].
    + unfold message_entry_state, transfer_value.
      destruct Hnone as [->| ->]; [reflexivity|].
      now rewrite andb_false_r.
    + unfold sufficient_funds. destruct Hnone as [->| ->]; [discriminate|].
      rewrite andb_false_r. discriminate.
Qed.

End MessageGuards.

Lemma apply_message_insufficient_funds_witness :
  FrontierComputation.apply_message sample_interpreter overdrawn_message sample_context
    funded_state
  = (fst (snapshot funded_state), Raised InsufficientFunds).
Proof.
  apply (proj1 (apply_message_insufficient_funds sample_interpreter overdrawn_message
                  sample_context funded_state ltac:(vm_compute; discriminate))).
  - reflexivity.
  - discriminate.
  - vm_compute. reflexivity.
Defined.


(** ** Creating an account from Spurious Dragon *)

Section CreateNonce.
Variable apply_computation : Message → TransactionContext → Exec State Computation.
Variable GAS_CODEDEPOSIT : Z.

(** X23. From Spurious Dragon [apply_create_message] increments the nonce
    of the new account inside its own snapshot, before the init code runs.
    When the init code ends with an error the state is back at that
    snapshot, the increment undone; when it ends without error and without
    output, nothing is charged and no code is stored, and the snapshot is
    committed.  What [apply_message] raises comes through.  In Frontier a
    create that ends with an error or without output hands the frame back
    as it is. *)
Theorem spurious_dragon_create_counts_the_account
    (message : Message) (ctx : TransactionContext) (s : State) :
  get_nonce (create_entry_state message s) (msg_storage_address message)
  = get_nonce s (msg_storage_address message) + 1
  ∧ (∀ s1 e,
       FrontierComputation.apply_message apply_computation message ctx
         (create_entry_state message s) = (s1, Raised e) →
       SpuriousDragonComputation.apply_create_message apply_computation GAS_CODEDEPOSIT
         message ctx s = (s1, Raised e))
  ∧ (∀ s1 computation extra,
       FrontierComputation.apply_message apply_computation message ctx
         (create_entry_state message s) = (s1, Returned computation) →
       checkpoints s1 = extra ++ world s :: checkpoints s →
       (is_error computation = true →
        SpuriousDragonComputation.apply_create_message apply_computation
          GAS_CODEDEPOSIT message ctx s
        = (mkState (world s) (checkpoints s) (execution_context s1),
           Returned computation))
       ∧ (is_error computation = false → output computation = [] →
          SpuriousDragonComputation.apply_create_message apply_computation
            GAS_CODEDEPOSIT message ctx s
          = (mkState (world s1) (checkpoints s) (execution_context s1),
             Returned computation)))
  ∧ (∀ s1 computation,
       FrontierComputation.apply_message apply_computation message ctx s
       = (s1, Returned computation) →
       is_error computation = true ∨ output computation = [] →
       FrontierComputation.apply_create_message apply_computation GAS_CODEDEPOSIT
         message ctx s = (s1, Returned computation)).
Proof.
  assert (Hentry :
    SpuriousDragonComputation.apply_create_message apply_computation GAS_CODEDEPOSIT
      message ctx s
    = bind (FrontierComputation.apply_message apply_computation message ctx)
        (λ computation,
           if is_error computation then
             revert (length (checkpoints s)) ;;; ret computation
           else if negb (bool_decide (output computation = [])) then
             match SpuriousDragonComputation.deposit_code GAS_CODEDEPOSIT
                     (output computation) computation with
             | (computation, Raised err) =>
                 if is_VMError err
                 then revert (length (checkpoints s)) ;;;
                      ret (set_error err computation)
                 else λ s, (s, Raised err)
             | (computation', Returned _) =>
                 modify (set_code (msg_storage_address message) (output computation)) ;;;
                 commit (length (checkpoints s)) ;;;
                 ret computation'
             end
           else commit (length (checkpoints s)) ;;; ret computation)
        (create_entry_state message s)) by reflexivity.
  split; [|split; [|split]].
  - unfold create_entry_state, get_nonce at 1.
    rewrite get_account_increment_nonce, decide_True by reflexivity. reflexivity.
  - intros s1 e Hraised. rewrite Hentry.
    erewrite bind_raised by exact Hraised. reflexivity.
  - intros s1 computation extra Hrun Hcps. split.
    + intros Herror. rewrite Hentry.
      erewrite bind_returned by exact Hrun. rewrite Herror.
      erewrite bind_returned by exact (revert_open_checkpoint _ _ _ _ Hcps).
      reflexivity.
    + intros Hfine Houtput. rewrite Hentry.
      erewrite bind_returned by exact Hrun. rewrite Hfine, Houtput.
      rewrite bool_decide_eq_true_2 by reflexivity. cbn [negb].
      erewrite bind_returned by exact (commit_open_checkpoint _ _ _ _ Hcps).
      reflexivity.
  - intros s1 computation Hrun Hcase.
    unfold FrontierComputation.apply_create_message.
    erewrite bind_returned by exact Hrun.
    destruct (is_error computation); [reflexivity|].
    destruct Hcase as [?|Houtput]; [discriminate|].
    rewrite Houtput, bool_decide_eq_true_2 by reflexivity. reflexivity.
Qed.
End CreateNonce.

Lemma spurious_dragon_create_counts_the_account_witness :
  SpuriousDragonComputation.apply_create_message sample_interpreter 200
    (create_message 50000 []) sample_context funded_state
  = (mkState
       (world (fst (FrontierComputation.apply_message sample_interpreter
                      (create_message 50000 []) sample_context
                      (create_entry_state (create_message 50000 []) funded_state))))
       (checkpoints funded_state) (execution_context funded_state),
     Returned (set_output [] (get_computation (create_message 50000 []) sample_context))).
Proof.
  apply (proj1 (proj2 (proj2 (spurious_dragon_create_counts_the_account
                                sample_interpreter 200 (create_message 50000 [])
                                sample_context funded_state)))
           (fst (FrontierComputation.apply_message sample_interpreter
                   (create_message 50000 []) sample_context
                   (create_entry_state (create_message 50000 []) funded_state)))
           (set_output [] (get_computation (create_message 50000 []) sample_context))
           []).
  - vm_compute. reflexivity.
  - vm_compute. reflexivity.
  - reflexivity.
  - reflexivity.
Defined.

(** ** Accounts queued for deletion *)

Lemma delete_accounts_cons entry queue s :
  delete_accounts (entry :: queue) s = delete_accounts queue (delete_account (fst entry) s).
Proof. reflexivity. Qed.

Lemma lookup_delete_accounts_absent queue s a :
  accounts (world s) !! a = None →
  accounts (world (delete_accounts queue s)) !! a = None.
Proof.
  revert s. induction queue as [|entry queue IH]; intros s Hnone; [exact Hnone|].
  rewrite delete_accounts_cons. apply IH. rewrite lookup_delete_account.
  now destruct (decide (fst entry = a)).
Qed.

Lemma lookup_delete_accounts_queued queue s a :
  a ∈ queue.*1 → accounts (world (delete_accounts queue s)) !! a = None.
Proof.
  revert s. induction queue as [|entry queue IH]; intros s Hin; [inversion Hin|].
  rewrite delete_accounts_cons. simpl in Hin.
  apply elem_of_cons in Hin as [->|Hin]; [|now apply IH].
  apply lookup_delete_accounts_absent. rewrite lookup_delete_account.
  now rewrite decide_True.
Qed.

Lemma lookup_delete_accounts_other queue s a :
  a ∉ queue.*1 →
  accounts (world (delete_accounts queue s)) !! a = accounts (world s) !! a.
Proof.
  revert s. induction queue as [|entry queue IH]; intros s Hnot; [reflexivity|].
  rewrite delete_accounts_cons. simpl in Hnot.
  apply not_elem_of_cons in Hnot as [Hne Hnot].
  rewrite IH by assumption. rewrite lookup_delete_account.
  now rewrite decide_False by congruence.
Qed.

Lemma checkpoints_delete_accounts queue s :
  checkpoints (delete_accounts queue s) = checkpoints s.
Proof.
  revert s. induction queue as [|entry queue IH]; intros s; [reflexivity|].
  rewrite delete_accounts_cons. now rewrite IH.
Qed.

Section Deletions.
Context {vm_state : StateAPI.t} {executor : TransactionExecutorAPI.t}.

End Deletions.

